(** * mathbycases: catalog discovery, link extraction and tracked downloads

    A shallow embedding of the three scripts of the repository
    ([download_pdfs.py], [fetch_all_cases.py], [mit/scrape_case_studies.py])
    and the properties their specification states about them.

    Conventions.
    - A Python [str] is a [string]; a character is a code point below 256,
      so [ascii] stands for the Latin-1 range and the character classes
      below are Python's classes restricted to that range.
    - A dictionary is a [gmap]; the file system is a [gmap] from paths to
      file contents.
    - The network, the HTML parser and the clock are parameters of the
      sections that use them. *)

From Stdlib Require Import ZArith NArith Ascii String List Bool Lia.
From stdpp Require Import base gmap strings list.

Set Warnings "-register-all".

(* ===================================================================== *)
(** * Python strings *)
(* ===================================================================== *)

Module PyStr.

Definition ord (c : ascii) : N := N_of_ascii c.

Definition LF : ascii := "010"%char.
Definition CR : ascii := "013"%char.

(** [c.isspace()], which is also the class [\s] of [re] on [str] patterns:
    tab to carriage return, the four separators 0x1c-0x1f, space, NEL and the
    no-break space. *)
Definition isspace (c : ascii) : bool :=
  let n := ord c in
  (((9 <=? n) && (n <=? 13)) || ((28 <=? n) && (n <=? 32))
   || (n =? 133) || (n =? 160))%N.

(** The class [\d] of [re]: the decimal digits. *)
Definition isdigit (c : ascii) : bool :=
  let n := ord c in ((48 <=? n) && (n <=? 57))%N.

(** The class [.] of [re] without DOTALL: anything but a line feed. *)
Definition notnewline (c : ascii) : bool := negb (Ascii.eqb c LF).

(** [c.lower()]: the letters A-Z and the Latin-1 capitals 0xC0-0xDE, the
    multiplication sign 0xD7 apart. *)
Definition lower_char (c : ascii) : ascii :=
  let n := ord c in
  if (((65 <=? n) && (n <=? 90))
      || ((192 <=? n) && (n <=? 222) && negb (n =? 215)))%N
  then ascii_of_N (n + 32) else c.

Fixpoint lower (s : string) : string :=
  match s with
  | EmptyString => EmptyString
  | String c s' => String (lower_char c) (lower s')
  end.

(** [len(s)] *)
Definition len (s : string) : nat := String.length s.

(** [s.startswith(p)] *)
Definition startswith (p s : string) : bool := String.prefix p s.

(** [p in s] *)
Fixpoint contains (p s : string) : bool :=
  String.prefix p s ||
  match s with
  | EmptyString => false
  | String _ s' => contains p s'
  end.

(** [s[:n]] for [n >= 0] *)
Fixpoint take (n : nat) (s : string) : string :=
  match n, s with
  | S n', String c s' => String c (take n' s')
  | _, _ => EmptyString
  end.

(** [s[n:]] for [n >= 0] *)
Fixpoint drop (n : nat) (s : string) : string :=
  match n, s with
  | S n', String _ s' => drop n' s'
  | _, _ => s
  end.

Fixpoint lstrip (s : string) : string :=
  match s with
  | EmptyString => EmptyString
  | String c s' => if isspace c then lstrip s' else s
  end.

Fixpoint rstrip (s : string) : string :=
  match s with
  | EmptyString => EmptyString
  | String c s' =>
      match rstrip s' with
      | EmptyString => if isspace c then EmptyString else String c EmptyString
      | r => String c r
      end
  end.

(** [s.strip()] *)
Definition strip (s : string) : string := rstrip (lstrip s).

(** [s.split(sep)] for a one-character separator: never an empty list. *)
Fixpoint split (sep : ascii) (s : string) : list string :=
  match s with
  | EmptyString => [EmptyString]
  | String c s' =>
      if Ascii.eqb c sep then EmptyString :: split sep s'
      else match split sep s' with
           | [] => [String c EmptyString]
           | p :: ps => String c p :: ps
           end
  end.

(** [all(p(c) for c in s)] *)
Fixpoint all (p : ascii -> bool) (s : string) : bool :=
  match s with
  | EmptyString => true
  | String c s' => p c && all p s'
  end.

(** The digits of [hexdigest]. *)
Definition ishex (c : ascii) : bool :=
  let n := ord c in
  (((48 <=? n) && (n <=? 57)) || ((97 <=? n) && (n <=? 102)))%N.

(** [bool(s)] *)
Definition truthy (s : string) : bool :=
  match s with EmptyString => false | _ => true end.

(** [sep.join(l)] with the empty separator *)
Definition concat (l : list string) : string :=
  fold_right String.append EmptyString l.

End PyStr.

(* ===================================================================== *)
(** * The fragment of [re] the scripts use *)
(* ===================================================================== *)

(** A backtracking matcher in continuation-passing style: alternatives are
    tried left to right, [+] is greedy and gives characters back one at a
    time, as Python's engine does.  Every pattern of the scripts has at most
    one capturing group. *)
Module Re.

Inductive regex : Type :=
| Lit (s : string)             (* literal text *)
| Plus (cls : ascii -> bool)   (* [c+] for a character class [c] *)
| Seq (r1 r2 : regex)
| Alt (r1 r2 : regex)          (* [r1|r2] *)
| Grp (r : regex)              (* [(r)], the group 1 *)
| Eos.                         (* [$] *)

(** The match object: what [group(1)] returns. *)
Record matched : Type := { group1 : option string }.

Definition cont : Type := string -> option string -> option matched.

Fixpoint lit (l s : string) : option string :=
  match l, s with
  | EmptyString, _ => Some s
  | String a l', String b s' => if Ascii.eqb a b then lit l' s' else None
  | String _ _, EmptyString => None
  end.

Fixpoint star (cls : ascii -> bool) (s : string) (k : string -> option matched)
  : option matched :=
  match s with
  | EmptyString => k EmptyString
  | String c s' =>
      if cls c then
        match star cls s' k with
        | Some m => Some m
        | None => k s
        end
      else k s
  end.

Definition plus (cls : ascii -> bool) (s : string) (k : string -> option matched)
  : option matched :=
  match s with
  | EmptyString => None
  | String c s' => if cls c then star cls s' k else None
  end.

(** [$] holds at the end and before a final line feed. *)
Definition at_end (s : string) : bool :=
  match s with
  | EmptyString => true
  | String c EmptyString => Ascii.eqb c PyStr.LF
  | _ => false
  end.

Fixpoint run (r : regex) (s : string) (g : option string) (k : cont)
  : option matched :=
  match r with
  | Lit l => match lit l s with Some s' => k s' g | None => None end
  | Plus cls => plus cls s (fun s' => k s' g)
  | Seq r1 r2 => run r1 s g (fun s' g' => run r2 s' g' k)
  | Alt r1 r2 =>
      match run r1 s g k with
      | Some m => Some m
      | None => run r2 s g k
      end
  | Grp r1 =>
      run r1 s g
        (fun s' _ => k s' (Some (PyStr.take (String.length s - String.length s') s)))
  | Eos => if at_end s then k s g else None
  end.

(** [re.match(r, s)]: a match that starts at the first character. *)
Definition re_match (r : regex) (s : string) : option matched :=
  run r s None (fun _ g => Some {| group1 := g |}).

End Re.

(* ===================================================================== *)
(** * Link extraction ([download_pdfs.py], [extract_pdf_urls]) *)
(* ===================================================================== *)

Module Links.
Import PyStr Re.

(** Text mode with universal newlines: CR LF and CR are read as LF. *)
Fixpoint universal_newlines (s : string) : string :=
  match s with
  | EmptyString => EmptyString
  | String c s' =>
      if Ascii.eqb c CR then
        match s' with
        | String c' s'' =>
            if Ascii.eqb c' LF then String LF (universal_newlines s'')
            else String LF (universal_newlines s')
        | EmptyString => String LF EmptyString
        end
      else String c (universal_newlines s')
  end.

(** [for line in f]: each line keeps its line feed. *)
Fixpoint file_lines (s : string) : list string :=
  match s with
  | EmptyString => []
  | String c s' =>
      if Ascii.eqb c LF then String c EmptyString :: file_lines s'
      else match file_lines s' with
           | [] => [String c EmptyString]
           | l :: ls => String c l :: ls
           end
  end.

(** [r'^\d+\.\s+(.+)$'] ([re.match] anchors the start, so [^] adds nothing) *)
Definition title_re : regex :=
  Seq (Plus isdigit) (Seq (Lit ".") (Seq (Plus isspace)
    (Seq (Grp (Plus notnewline)) Eos))).

Definition label_alt : regex :=
  Alt (Lit "FULL CASE") (Seq (Lit "PART ") (Plus isdigit)).

(** [r'(?:FULL CASE|PART \d+):\s+(.+)'] *)
Definition label_url_re : regex :=
  Seq label_alt (Seq (Lit ":") (Seq (Plus isspace) (Grp (Plus notnewline)))).

(** [r'(FULL CASE|PART \d+):'] *)
Definition label_re : regex := Seq (Grp label_alt) (Lit ":").

(** The loop's variables. *)
Record scan : Type := { current_title : string; urls : list (string * string) }.

(** [not line or line.startswith('===') or ...] *)
Definition skipped (line : string) : bool :=
  negb (truthy line) || startswith "===" line
  || startswith "PDF DOWNLOAD" line || startswith "SUMMARY" line.

(** [line.startswith('http') and '.pdf' in line.lower()] *)
Definition is_pdf_url (line : string) : bool :=
  startswith "http" line && contains ".pdf" (lower line).

(** One iteration of the loop over the lines.  [None] stands for an exception:
    [group] called on a failed match, or a group that took no part. *)
Definition scan_line (st : scan) (raw : string) : option scan :=
  let line := strip raw in
  if skipped line then Some st
  else
    match re_match title_re line with
    | Some title_match =>
        t ← group1 title_match;
        Some {| current_title := t; urls := urls st |}
    | None =>
        if is_pdf_url line then
          match re_match label_url_re line with
          | Some url_match =>
              url ← group1 url_match;
              m ← re_match label_re line;
              part_label ← group1 m;
              let title := current_title st +:+ " - " +:+ part_label in
              Some {| current_title := current_title st;
                      urls := urls st ++ [(title, url)] |}
          | None =>
              Some {| current_title := current_title st;
                      urls := urls st ++ [(current_title st, line)] |}
          end
        else Some st
    end.

Fixpoint scan_lines (st : scan) (lines : list string) : option scan :=
  match lines with
  | [] => Some st
  | raw :: rest => st' ← scan_line st raw; scan_lines st' rest
  end.

(** [extract_pdf_urls], on the text of the links file: what the loop does
    once [open(links_file, 'r')] has opened the file, with the lines as the
    decoding gives them. *)
Definition extract_pdf_urls (content : string) : option (list (string * string)) :=
  st ← scan_lines {| current_title := ""; urls := [] |}
        (file_lines (universal_newlines content));
  Some (urls st).

(** The input of the specification's link-extraction example. *)
Definition spec_example : string :=
  "1. Case Alpha" +:+ String LF
  ("FULL CASE: http://example.com/a.pdf" +:+ String LF
  ("2. Case Beta" +:+ String LF
  ("PART 1: http://example.com/b1.pdf" +:+ String LF
  ("PART 2: http://example.com/b2.pdf" +:+ String LF "")))).

End Links.

(* ===================================================================== *)
(** * SHA-256 ([hashlib.sha256]) *)
(* ===================================================================== *)

(** FIPS 180-4 on 32-bit words kept in [N], the wrap-around written out. *)
Module Sha256.
Local Open Scope N_scope.

Definition mask32 : N := 0xFFFFFFFF.
Definition add32 (x y : N) : N := (x + y) mod 0x100000000.
Definition rotr (n x : N) : N :=
  N.lor (N.shiftr x n) (N.land (N.shiftl x (32 - n)) mask32).
Definition shr (n x : N) : N := N.shiftr x n.
Definition not32 (x : N) : N := N.lxor x mask32.

Definition Ch (x y z : N) : N := N.lxor (N.land x y) (N.land (not32 x) z).
Definition Maj (x y z : N) : N :=
  N.lxor (N.land x y) (N.lxor (N.land x z) (N.land y z)).
Definition bsig0 (x : N) : N := N.lxor (rotr 2 x) (N.lxor (rotr 13 x) (rotr 22 x)).
Definition bsig1 (x : N) : N := N.lxor (rotr 6 x) (N.lxor (rotr 11 x) (rotr 25 x)).
Definition ssig0 (x : N) : N := N.lxor (rotr 7 x) (N.lxor (rotr 18 x) (shr 3 x)).
Definition ssig1 (x : N) : N := N.lxor (rotr 17 x) (N.lxor (rotr 19 x) (shr 10 x)).

(** The first 64 primes. *)
Definition is_prime (n : nat) : bool :=
  forallb (fun d => negb (n mod d =? 0)%nat) (seq 2 (n - 2)).

Definition primes : list N :=
  map N.of_nat (firstn 64 (List.filter is_prime (seq 2 310))).

(** The integer cube root, one bit at a time from bit [bits - 1] down. *)
Fixpoint cube_root (bits : nat) (acc n : N) : N :=
  match bits with
  | O => acc
  | S bits' =>
      let c := acc + 2 ^ N.of_nat bits' in
      if c * c * c <=? n then cube_root bits' c n else cube_root bits' acc n
  end.

(** The round constants: the first 32 bits of the fractional parts of the cube
    roots of the primes. *)
Definition K : list N :=
  Eval vm_compute in map (fun p => cube_root 36 0 (p * 2 ^ 96) mod 2 ^ 32) primes.

(** The eight working variables, and the hash value between blocks. *)
Record state : Type :=
  { va : N; vb : N; vc : N; vd : N; ve : N; vf : N; vg : N; vh : N }.

(** The first 32 bits of the fractional part of a square root. *)
Definition sqrt_frac (p : N) : N := N.sqrt (p * 2 ^ 64) mod 2 ^ 32.

(** The initial hash value, from the first eight primes. *)
Definition H0 : state :=
  Eval vm_compute in
    {| va := sqrt_frac 2; vb := sqrt_frac 3; vc := sqrt_frac 5; vd := sqrt_frac 7;
       ve := sqrt_frac 11; vf := sqrt_frac 13; vg := sqrt_frac 17;
       vh := sqrt_frac 19 |}.

(** Padding: the bit 1, zeros, and the length in bits on eight bytes. *)
Definition be_bytes (n : nat) (x : N) : list N :=
  map (fun i => N.land (N.shiftr x (8 * N.of_nat i)) 0xFF) (rev (seq 0 n)).

Definition pad (msg : list N) : list N :=
  let l := length msg in
  let zeros := ((64 - (l + 9) mod 64) mod 64)%nat in
  msg ++ [0x80] ++ repeat 0 zeros ++ be_bytes 8 (8 * N.of_nat l).

Fixpoint chunks_of (fuel size : nat) (l : list N) : list (list N) :=
  match fuel with
  | O => []
  | S fuel' =>
      match l with
      | [] => []
      | _ => firstn size l :: chunks_of fuel' size (skipn size l)
      end
  end.

Definition be_word (bs : list N) : N :=
  fold_left (fun acc b => N.lor (N.shiftl acc 8) b) bs 0.

Definition block_words (block : list N) : list N :=
  map be_word (chunks_of 16 4 block).

(** The message schedule; [recent] holds the words so far, the last first. *)
Fixpoint schedule (n : nat) (recent : list N) : list N :=
  match n with
  | O => rev recent
  | S n' =>
      let w := add32 (add32 (ssig1 (nth 1 recent 0)) (nth 6 recent 0))
                     (add32 (ssig0 (nth 14 recent 0)) (nth 15 recent 0)) in
      schedule n' (w :: recent)
  end.

Definition round (s : state) (kw : N * N) : state :=
  let t1 := add32 (add32 (add32 (vh s) (bsig1 (ve s)))
                         (add32 (Ch (ve s) (vf s) (vg s)) (fst kw))) (snd kw) in
  let t2 := add32 (bsig0 (va s)) (Maj (va s) (vb s) (vc s)) in
  {| va := add32 t1 t2; vb := va s; vc := vb s; vd := vc s;
     ve := add32 (vd s) t1; vf := ve s; vg := vf s; vh := vg s |}.

Definition compress (h : state) (block : list N) : state :=
  let w := schedule 48 (rev (block_words block)) in
  let s := fold_left round (combine K w) h in
  {| va := add32 (va h) (va s); vb := add32 (vb h) (vb s);
     vc := add32 (vc h) (vc s); vd := add32 (vd h) (vd s);
     ve := add32 (ve h) (ve s); vf := add32 (vf h) (vf s);
     vg := add32 (vg h) (vg s); vh := add32 (vh h) (vh s) |}.

Definition sha256 (msg : list N) : state :=
  let p := pad msg in
  fold_left compress (chunks_of (length p) 64 p) H0.

Definition hexchar (n : N) : ascii :=
  match n with
  | 0 => "0" | 1 => "1" | 2 => "2" | 3 => "3" | 4 => "4" | 5 => "5"
  | 6 => "6" | 7 => "7" | 8 => "8" | 9 => "9" | 10 => "a" | 11 => "b"
  | 12 => "c" | 13 => "d" | 14 => "e" | _ => "f"
  end%char.

Definition nibble (i x : N) : ascii := hexchar (N.land (N.shiftr x (4 * i)) 0xF).

Definition hex8 (x : N) : string :=
  String (nibble 7 x) (String (nibble 6 x) (String (nibble 5 x)
  (String (nibble 4 x) (String (nibble 3 x) (String (nibble 2 x)
  (String (nibble 1 x) (String (nibble 0 x) EmptyString))))))).

(** [.hexdigest()] *)
Definition hexdigest (s : state) : string :=
  hex8 (va s) +:+ hex8 (vb s) +:+ hex8 (vc s) +:+ hex8 (vd s) +:+
  hex8 (ve s) +:+ hex8 (vf s) +:+ hex8 (vg s) +:+ hex8 (vh s).

(** [str.encode()]: UTF-8 of code points below 256. *)
Fixpoint encode (s : string) : list N :=
  match s with
  | EmptyString => []
  | String c s' =>
      let n := N_of_ascii c in
      if n <? 128 then n :: encode s'
      else N.lor 0xC0 (N.shiftr n 6) :: N.lor 0x80 (N.land n 0x3F) :: encode s'
  end.

End Sha256.

(* ===================================================================== *)
(** * The tracked downloader ([download_pdfs.py]) *)
(* ===================================================================== *)

Module Downloader.
Import PyStr.

Definition DOWNLOAD_DIR : string := "downloaded_pdfs".
Definition TRACKING_FILE : string := "download_tracking.json".
Definition MAX_RETRIES : nat := 3.
(** The two delays, in milliseconds. *)
Definition RETRY_DELAY : nat := 2000.
Definition POLITE_DELAY : nat := 500.

(** ** [sanitize_filename] *)

(** The class of [sanitize_filename]'s first pattern: the characters
    < > : / \ | ? and the star, and the double quote (code 34). *)
Definition unsafe (c : ascii) : bool :=
  match c with
  | "<" | ">" | ":" | "034" | "/" | "\" | "|" | "?" | "*" => true
  | _ => false
  end%char.

(** [re.sub(cls, '', s)] for a character class. *)
Fixpoint sub_class (cls : ascii -> bool) (s : string) : string :=
  match s with
  | EmptyString => EmptyString
  | String c s' => if cls c then sub_class cls s' else String c (sub_class cls s')
  end.

(** [re.sub(cls+, repl, s)] for a character class and a one-character
    replacement; [in_run] tells that the character before was of the class, so
    the run it belongs to is already replaced. *)
Fixpoint sub_runs (cls : ascii -> bool) (repl : ascii) (in_run : bool) (s : string)
  : string :=
  match s with
  | EmptyString => EmptyString
  | String c s' =>
      if cls c then
        if in_run then sub_runs cls repl true s'
        else String repl (sub_runs cls repl true s')
      else String c (sub_runs cls repl false s')
  end.

Definition sanitize_filename (title : string) : string :=
  let safe_title := sub_class unsafe title in
  let safe_title := sub_runs isspace "_"%char false safe_title in
  let safe_title :=
    if 200 <? len safe_title then take 200 safe_title else safe_title in
  safe_title +:+ ".pdf".

(** ** The ledger *)

(** One value of the [downloads] dictionary. *)
Record entry : Type :=
  { e_url : string; e_filename : string; e_title : string;
    e_downloaded_at : string }.

(** The tracking data, [{"downloads": {...}}]. *)
Record tracking : Type := { downloads : gmap string entry }.

Definition fresh : tracking := {| downloads := ∅ |}.

(** What a path holds.  [Json d] is the text [json.dump] writes for [d], which
    [json.load] reads back as [d]; [Bytes b] is any other content, [b].  Every
    path of the map is a regular file that can be opened. *)
Inductive file : Type :=
| Json (d : tracking)
| Bytes (b : string).

(** What [open(path, 'r')] followed by [json.load] makes of a content:
    - [Ledger d]: a JSON object whose one member, [downloads], is an object
      whose values are objects with the four string members of [entry] and no
      other; it is read as [d];
    - [Keyless]: a JSON value on which [len(self.data["downloads"])] raises
      [KeyError] or [TypeError]: a value that is no object, an object without
      the member [downloads], or with a number, a boolean or [null] there;
    - [Untyped]: any other JSON value, that is an object whose member
      [downloads] is an object, an array or a string, and which is not of the
      shape of a ledger; [json.load] returns it as it is, and [tracking] has
      no place for it;
    - [Invalid]: [json.load] raises [json.JSONDecodeError];
    - [Undecodable]: the bytes do not decode, and reading them raises
      [UnicodeDecodeError]. *)
Inductive parsed : Type :=
| Ledger (d : tracking)
| Keyless
| Untyped
| Invalid
| Undecodable.

(** What the process does to its environment, in order. *)
Inductive event : Type :=
| Exists (path : string)     (* [os.path.exists] *)
| Read (path : string)
| Write (path : string)
| Stat (path : string)       (* [os.path.getsize] *)
| Remove (path : string)
| Get (url : string)         (* [requests.get] *)
| Sleep (ms : nat).

Record world : Type := { fs : gmap string file; trace : list event }.

Definition is_get (e : event) : bool :=
  match e with Get _ => true | _ => false end.

(** The number of requests sent so far. *)
Definition requests (w : world) : nat := length (List.filter is_get (trace w)).

Definition log (e : event) (w : world) : world :=
  {| fs := fs w; trace := trace w ++ [e] |}.

Definition path_exists (path : string) (w : world) : bool :=
  bool_decide (is_Some (fs w !! path)).

Definition write_file (path : string) (f : file) (w : world) : world :=
  log (Write path) {| fs := <[path := f]> (fs w); trace := trace w |}.

Definition remove_file (path : string) (w : world) : world :=
  log (Remove path) {| fs := delete path (fs w); trace := trace w |}.

(** [hashlib.sha256(url.encode()).hexdigest()[:16]] *)
Definition get_url_hash (url : string) : string :=
  take 16 (Sha256.hexdigest (Sha256.sha256 (Sha256.encode url))).

(** A [DownloadTracker] object. *)
Record tracker : Type := { tracking_file : string; data : tracking }.

(** What [_load_tracking_data] gives: tracking data, a JSON value of another
    kind, or an exception that it does not catch. *)
Inductive loaded : Type :=
| Data (d : tracking)
| KeylessData
| UntypedData
| LoadError.

(** What [DownloadTracker(tracking_file)] gives: a tracker with tracking data,
    a tracker whose [data] is a JSON value of another kind, or the exception
    of the load. *)
Inductive construction : Type :=
| Built (t : tracker)
| BuiltKeyless
| BuiltUntyped
| Raises.

Section Load.

(** [json_load b]: what opening and loading a file of content [b] gives. *)
Variable json_load : string -> parsed.

(** [_load_tracking_data]: only [json.JSONDecodeError] is caught, and gives
    the empty ledger, as a missing file does. *)
Definition load_tracking_data (tracking_file : string) (w : world)
  : loaded * world :=
  let w := log (Exists tracking_file) w in
  match fs w !! tracking_file with
  | Some f =>
      let w := log (Read tracking_file) w in
      match f with
      | Json d => (Data d, w)
      | Bytes b =>
          match json_load b with
          | Ledger d => (Data d, w)
          | Keyless => (KeylessData, w)
          | Untyped => (UntypedData, w)
          | Invalid => (Data fresh, w)
          | Undecodable => (LoadError, w)
          end
      end
  | None => (Data fresh, w)
  end.

(** [DownloadTracker(tracking_file)] *)
Definition DownloadTracker (tracking_file : string) (w : world)
  : construction * world :=
  let '(d, w) := load_tracking_data tracking_file w in
  (match d with
   | Data d => Built {| tracking_file := tracking_file; data := d |}
   | KeylessData => BuiltKeyless
   | UntypedData => BuiltUntyped
   | LoadError => Raises
   end, w).

End Load.

Definition save_tracking_data (t : tracker) (w : world) : world :=
  write_file (tracking_file t) (Json (data t)) w.

Definition is_downloaded (t : tracker) (url : string) : bool :=
  bool_decide (is_Some (downloads (data t) !! get_url_hash url)).

(** [get_stats] *)
Record stats : Type := { total_downloaded : nat; stats_tracking_file : string }.

Definition get_stats (t : tracker) : stats :=
  {| total_downloaded := size (downloads (data t));
     stats_tracking_file := tracking_file t |}.

(** [os.path.join] of two components, on POSIX. *)
Definition endswith_slash (s : string) : bool :=
  match String.get (String.length s - 1) s with
  | Some c => Ascii.eqb c "/"%char
  | None => false
  end.

Definition os_path_join (a b : string) : string :=
  if startswith "/" b then b
  else if negb (truthy a) || endswith_slash a then a +:+ b
  else a +:+ "/" +:+ b.

(** What [requests.get(url, stream=True)] then [raise_for_status] and
    [iter_content] give: an exception before any byte, or chunks that end
    well ([complete]) or in an exception. Both exceptions are
    [RequestException]s. *)
Inductive response : Type :=
| Refused
| Body (chunks : list string) (complete : bool).

Definition transport_error (r : response) : bool :=
  match r with
  | Refused => true
  | Body _ complete => negb complete
  end.

(** The batch counters. *)
Record summary : Type := { downloaded : nat; skipped : nat; failed : nat }.

(** The variables of the loop of [main]. *)
Record batch : Type := { trk : tracker; env : world; counts : summary }.

Section Process.

(** [remote n url]: the answer to the request number [n] of this world, sent
    to [url].  [clock n]: what [time.strftime] returns after [n] events. *)
Variable remote : nat -> string -> response.
Variable clock : nat -> string.
Variable json_load : string -> parsed.

Definition mark_downloaded (t : tracker) (url filename title : string) (w : world)
  : tracker * world :=
  let url_hash := get_url_hash url in
  let e := {| e_url := url; e_filename := filename; e_title := title;
              e_downloaded_at := clock (length (trace w)) |} in
  let t := {| tracking_file := tracking_file t;
              data := {| downloads := <[url_hash := e]> (downloads (data t)) |} |} in
  (t, save_tracking_data t w).

(** The body of [for attempt in range(retries)], from [attempt] on; [todo]
    counts the iterations left. *)
Fixpoint download_attempts (url output_path : string) (retries attempt todo : nat)
    (w : world) : bool * world :=
  match todo with
  | O => (false, w)
  | S todo' =>
      let r := remote (requests w) url in
      let w := log (Get url) w in
      match r with
      | Body chunks true =>
          let w := write_file output_path (Bytes (PyStr.concat chunks)) w in
          (true, log (Stat output_path) w)
      | _ =>
          let w := match r with
                   | Body chunks _ =>
                       write_file output_path (Bytes (PyStr.concat chunks)) w
                   | Refused => w
                   end in
          if (Z.of_nat attempt <? Z.of_nat retries - 1)%Z then
            download_attempts url output_path retries (S attempt) todo'
              (log (Sleep RETRY_DELAY) w)
          else
            let w := log (Exists output_path) w in
            (false, if path_exists output_path w
                    then remove_file output_path w else w)
      end
  end.

Definition download_file (url output_path : string) (retries : nat) (w : world)
  : bool * world :=
  download_attempts url output_path retries 0 retries w.

Definition count_skipped (c : summary) : summary :=
  {| downloaded := downloaded c; skipped := S (skipped c); failed := failed c |}.
Definition count_downloaded (c : summary) : summary :=
  {| downloaded := S (downloaded c); skipped := skipped c; failed := failed c |}.
Definition count_failed (c : summary) : summary :=
  {| downloaded := downloaded c; skipped := skipped c; failed := S (failed c) |}.

(** One iteration of [for idx, (title, url) in enumerate(pdf_urls, 1)];
    [total] is [len(pdf_urls)]. *)
Definition process_entry (total idx : nat) (title url : string) (b : batch)
  : batch :=
  if is_downloaded (trk b) url then
    {| trk := trk b; env := env b; counts := count_skipped (counts b) |}
  else
    let filename := sanitize_filename title in
    let output_path := os_path_join DOWNLOAD_DIR filename in
    let w := log (Exists output_path) (env b) in
    if path_exists output_path w then
      let '(t, w) := mark_downloaded (trk b) url filename title w in
      {| trk := t; env := w; counts := count_skipped (counts b) |}
    else
      let '(ok, w) := download_file url output_path MAX_RETRIES w in
      let b' :=
        if ok then
          let '(t, w) := mark_downloaded (trk b) url filename title w in
          {| trk := t; env := w; counts := count_downloaded (counts b) |}
        else {| trk := trk b; env := w; counts := count_failed (counts b) |} in
      if idx <? total then
        {| trk := trk b'; env := log (Sleep POLITE_DELAY) (env b');
           counts := counts b' |}
      else b'.

Fixpoint batch_loop (total idx : nat) (pdf_urls : list (string * string))
    (b : batch) : batch :=
  match pdf_urls with
  | [] => b
  | (title, url) :: rest =>
      batch_loop total (S idx) rest (process_entry total idx title url b)
  end.

(** How a run of [main] ends, from the creation of the tracker to the end of
    the loop: with the variables of the loop; with an exception before the
    loop, from the constructor or, on [Keyless] data, from
    [tracker.get_stats()]; or on [Untyped] data, on which this model says
    nothing. *)
Inductive batch_run : Type :=
| Completed (b : batch)
| Aborted
| Unmodelled.

(** [main] from the creation of the tracker to the first iteration. *)
Definition start_batch (w : world) : construction * world :=
  DownloadTracker json_load TRACKING_FILE w.

Definition zero : summary := {| downloaded := 0; skipped := 0; failed := 0 |}.

(** [main] from the creation of the tracker to the end of the loop. *)
Definition run_batch (pdf_urls : list (string * string)) (w : world)
  : batch_run :=
  let '(c, w) := start_batch w in
  match c with
  | Built t =>
      Completed (batch_loop (length pdf_urls) 1 pdf_urls
                   {| trk := t; env := w; counts := zero |})
  | BuiltKeyless | Raises => Aborted
  | BuiltUntyped => Unmodelled
  end.

(** The exit status of [main]. *)
Definition exit_status (c : summary) : Z := if 0 <? failed c then 1%Z else 0%Z.

End Process.

End Downloader.

(* ===================================================================== *)
(** * Parsed HTML ([bs4]) *)
(* ===================================================================== *)

Module Html.
Import PyStr.

(** A parsed document: strings and tags with their attributes and children. *)
Inductive node : Type :=
| Text (s : string)
| Tag (name : string) (attrs : list (string * string)) (children : list node).

(** [tag.get(key)] *)
Definition get_attr (key : string) (n : node) : option string :=
  match n with
  | Text _ => None
  | Tag _ attrs _ => snd <$> List.find (fun kv => String.eqb (fst kv) key) attrs
  end.

(** [tag.descendants], in document order. *)
Fixpoint descendants (n : node) : list node :=
  match n with
  | Text _ => []
  | Tag _ _ children => flat_map (fun c => c :: descendants c) children
  end.

Definition is_tag (name : string) (n : node) : bool :=
  match n with
  | Text _ => false
  | Tag nm _ _ => String.eqb nm name
  end.

(** [tag.find_all(name, href=test)]: [test] receives the attribute or [None]. *)
Definition find_all (name : string) (test : option string -> bool) (n : node)
  : list node :=
  List.filter (fun d => is_tag name d && test (get_attr "href" d)) (descendants n).

Definition any_href (_ : option string) : bool := true.

(** [tag.find(name)] *)
Definition find (name : string) (n : node) : option node :=
  head (find_all name any_href n).

(** [tag.string]: the only string below a chain of only children. *)
Fixpoint node_string (n : node) : option string :=
  match n with
  | Text s => Some s
  | Tag _ _ [c] => node_string c
  | Tag _ _ _ => None
  end.

(** [soup.find(name, string=s)] *)
Definition find_by_string (name s : string) (n : node) : option node :=
  head (List.filter
          (fun d => is_tag name d &&
                    match node_string d with
                    | Some t => String.eqb t s
                    | None => false
                    end)
          (descendants n)).

Definition node_text (n : node) : list string :=
  match n with Text s => [s] | Tag _ _ _ => [] end.

(** [tag.get_text(strip=True)]: the strings below, stripped, the empty ones
    dropped, joined. *)
Definition get_text_strip (n : node) : string :=
  PyStr.concat
    (List.filter truthy (map strip (flat_map node_text (descendants n)))).

End Html.

(* ===================================================================== *)
(** * Catalog discovery ([fetch_all_cases.py]) *)
(* ===================================================================== *)

Module Catalog.
Import PyStr Html.

(** The dictionary [parse_case_element] returns; the two keys that may be
    missing are options. *)
Record case_data : Type :=
  { url : string; title : option string; authors : list string;
    description : string; date : string; categories : option string }.

Definition months : list string :=
  [ "January"; "February"; "March"; "April"; "May"; "June"; "July"; "August";
    "September"; "October"; "November"; "December" ].

(** The three variables of the loop over the paragraphs. *)
Record fields : Type :=
  { f_authors : list string; f_description : string; f_date : string }.

(** One iteration of [for p in p_tags]. *)
Definition classify (acc : fields) (p : node) : fields :=
  let text := get_text_strip p in
  if startswith "By " text then
    let authors_text := drop 3 text in
    {| f_authors := map strip (split ","%char authors_text);
       f_description := f_description acc; f_date := f_date acc |}
  else if contains "," text && existsb (fun month => contains month text) months then
    {| f_authors := f_authors acc; f_description := f_description acc;
       f_date := text |}
  else if len (f_description acc) <? len text then
    {| f_authors := f_authors acc; f_description := text; f_date := f_date acc |}
  else acc.

Definition parse_case_element (case_elem : node) : case_data :=
  let href := default "" (get_attr "href" case_elem) in
  let href :=
    if truthy href && negb (startswith "http" href)
    then "https://mitsloan.mit.edu" +:+ href else href in
  let p_tags := find_all "p" any_href case_elem in
  let acc := fold_left classify p_tags
               {| f_authors := []; f_description := ""; f_date := "" |} in
  {| url := href;
     title := get_text_strip <$> find "h3" case_elem;
     authors := f_authors acc;
     description := f_description acc;
     date := f_date acc;
     categories := get_text_strip <$> find "div" case_elem |}.

(** [case_data.get('title')] as a condition *)
Definition has_title (c : case_data) : bool :=
  match title c with Some t => truthy t | None => false end.

(** [for case_elem in case_elements: ... all_cases.append(case_data)] *)
Definition collect (all_cases : list case_data) (case_elements : list node)
  : list case_data :=
  fold_left
    (fun acc case_elem =>
       let c := parse_case_element case_elem in
       if has_title c then acc ++ [c] else acc)
    case_elements all_cases.

Definition library_prefix : string := "/teaching-resources-library/".

(** The [href] test of the first page. *)
Definition initial_href (href : option string) : bool :=
  match href with
  | Some h => truthy h && startswith library_prefix h
              && negb (String.eqb h "/teaching-resources-library/mit-sloan-case-studies-0")
  | None => false
  end.

(** The [href] test of the later batches. *)
Definition batch_href (href : option string) : bool :=
  match href with
  | Some h => truthy h && startswith library_prefix h
  | None => false
  end.

(** [int(s)] on a [str].  The blanks [int] strips from both ends are those of
    [str.isspace] without the four separators [0x1c] to [0x1f], which [int]
    rejects: among the code points below 256 these are tab to carriage return,
    the space, [0x85] and [0xa0]. *)
Definition int_space (c : ascii) : bool :=
  let n := ord c in
  ((9 <=? n) && (n <=? 13) || (n =? 32) || (n =? 133) || (n =? 160))%N.

Fixpoint lstrip_int (s : string) : string :=
  match s with
  | String c s' => if int_space c then lstrip_int s' else s
  | EmptyString => EmptyString
  end.

Fixpoint rstrip_int (s : string) : string :=
  match s with
  | EmptyString => EmptyString
  | String c s' =>
      match rstrip_int s' with
      | EmptyString => if int_space c then EmptyString else String c EmptyString
      | r => String c r
      end
  end.

(** The digits: decimal digits with single underscores between them. *)
Fixpoint digits_value (acc : Z) (after_digit : bool) (s : string) : option Z :=
  match s with
  | EmptyString => if after_digit then Some acc else None
  | String c s' =>
      if isdigit c then
        digits_value (10 * acc + (Z.of_N (ord c) - 48)) true s'
      else if Ascii.eqb c "_"%char && after_digit then digits_value acc false s'
      else None
  end.

(** [sys.get_int_max_str_digits()], as Python starts with: [int] raises
    [ValueError] on more digits than this, leading zeros counted, the sign and
    the underscores not. *)
Definition MAX_STR_DIGITS : nat := 4300.

Fixpoint count_digits (s : string) : nat :=
  match s with
  | EmptyString => 0
  | String c s' => if isdigit c then S (count_digits s') else count_digits s'
  end.

(** [None] is [ValueError]. *)
Definition int_of_str (s : string) : option Z :=
  match rstrip_int (lstrip_int s) with
  | String c r =>
      let digits :=
        if Ascii.eqb c "+"%char || Ascii.eqb c "-"%char then r else String c r in
      if MAX_STR_DIGITS <? count_digits digits then None
      else if Ascii.eqb c "-"%char then Z.opp <$> digits_value 0 false digits
      else digits_value 0 false digits
  | EmptyString => None
  end.

(** What [fetch_all_cases] gives back: the records, and the offsets it sent to
    the API, in order. *)
Record fetched : Type := { cases : list case_data; offsets : list Z }.

Inductive result : Type :=
| Raised
| Returned (r : fetched).

Section Fetch.

(** [http_get url]: the text of the page, [None] when [requests.get] or
    [raise_for_status] raises.  [api_get pid base_nid offset]: the same for the
    load-more endpoint.  [BeautifulSoup text]: the parsed document.
    [query_param url key]: the first value of [key] in the query of [url]
    ([urlparse] then [parse_qs]). *)
Variable http_get : string -> option string.
Variable api_get : string -> string -> Z -> option string.
Variable BeautifulSoup : string -> node.
Variable query_param : string -> string -> option string.

(** [not response.text or not response.text.strip()] *)
Definition blank (text : string) : bool :=
  negb (truthy text) || negb (truthy (strip text)).

Definition batch_elements (text : string) : list node :=
  find_all "a" batch_href (BeautifulSoup text).

(** The [while True] loop; [None] when [fuel] iterations did not end it. *)
Fixpoint pagination (fuel : nat) (pid base_nid : string) (offset : Z)
    (all_cases : list case_data) (asked : list Z) : option fetched :=
  match fuel with
  | O => None
  | S fuel' =>
      let asked := asked ++ [offset] in
      match api_get pid base_nid offset with
      | None => Some {| cases := all_cases; offsets := asked |}
      | Some text =>
          if blank text then Some {| cases := all_cases; offsets := asked |}
          else
            match batch_elements text with
            | [] => Some {| cases := all_cases; offsets := asked |}
            | case_elements =>
                pagination fuel' pid base_nid (offset + 10)
                  (collect all_cases case_elements) asked
            end
      end
  end.

Definition initial_cases (soup : node) : list case_data :=
  let all_links := find_all "a" initial_href soup in
  let case_elements :=
    List.filter (fun link => bool_decide (is_Some (find "h3" link))) all_links in
  collect [] case_elements.

Definition fetch_all_cases (fuel : nat) (page_url : string) : option result :=
  match http_get page_url with
  | None => Some Raised
  | Some text =>
      let soup := BeautifulSoup text in
      let all_cases := initial_cases soup in
      let initial_only := Some (Returned {| cases := all_cases; offsets := [] |}) in
      match find_by_string "a" "Load More" soup with
      | None => initial_only
      | Some load_more =>
          let load_more_url := default "" (get_attr "href" load_more) in
          if negb (truthy load_more_url) then initial_only
          else
            let pid := query_param load_more_url "pid" in
            let base_nid := query_param load_more_url "base_nid" in
            match int_of_str (default "10" (query_param load_more_url "offset")) with
            | None => Some Raised
            | Some initial_offset =>
                match pid, base_nid with
                | Some pid, Some base_nid =>
                    if truthy pid && truthy base_nid then
                      Returned <$> pagination fuel pid base_nid initial_offset
                                     all_cases []
                    else initial_only
                | _, _ => initial_only
                end
            end
      end
  end.

End Fetch.

End Catalog.

(* ===================================================================== *)
(** * Subgroup links ([mit/scrape_case_studies.py]) *)
(* ===================================================================== *)

Module Subgroups.
Import PyStr Html.

Record link : Type := { l_title : string; l_url : string }.

Section Scrape.

(** [fetch url]: the body of the page, [None] when the request raises a
    [RequestException].  [urljoin] is [urllib.parse.urljoin]. *)
Variable fetch : string -> option string.
Variable BeautifulSoup : string -> node.
Variable urljoin : string -> string -> string.

(** [href=True]: the tag has the attribute. *)
Definition has_href (href : option string) : bool := bool_decide (is_Some href).

(** One iteration of [for link in soup.find_all('a', href=True)]. *)
Definition visit (base_url : string) (case_study_links : list link) (a : node)
  : list link :=
  let href := default "" (get_attr "href" a) in
  if contains "teaching-resources-library" href && contains "case" (lower href) then
    let full_url := urljoin base_url href in
    if negb (String.eqb full_url base_url)
       && negb (existsb (String.eqb full_url) (map l_url case_study_links)) then
      let title := get_text_strip a in
      if truthy title then
        case_study_links ++ [{| l_title := title; l_url := full_url |}]
      else case_study_links
    else case_study_links
  else case_study_links.

Definition get_case_study_links (base_url : string) : list link :=
  match fetch base_url with
  | None => []
  | Some content =>
      let soup := BeautifulSoup content in
      fold_left (visit base_url) (find_all "a" has_href soup) []
  end.

End Scrape.

End Subgroups.

(* ===================================================================== *)
(** * Vocabulary of the properties *)
(* ===================================================================== *)

Module Props.
Import PyStr Downloader.

(** The ledger the tracking file holds: the data of a new [DownloadTracker],
    when it has tracking data. *)
Definition on_disk (json_load : string -> parsed) (w : world) : option tracking :=
  match (DownloadTracker json_load TRACKING_FILE w).1 with
  | Built t => Some (data t)
  | _ => None
  end.

(** The tracker of a batch is the one of [main], and the disk has its data. *)
Definition synced (json_load : string -> parsed) (b : batch) : Prop :=
  tracking_file (trk b) = TRACKING_FILE /\
  on_disk json_load (env b) = Some (data (trk b)).

(** The remote answers a URL the same way at every request. *)
Definition stable (remote : nat -> string -> response) : Prop :=
  forall n m url, remote n url = remote m url.

(** Nothing is left to download for a URL: the ledger has it, or every request
    to it ends in a transport error. *)
Definition settled (remote : nat -> string -> response) (t : tracker)
    (url : string) : Prop :=
  is_downloaded t url = true \/ forall n, transport_error (remote n url) = true.

(** Idempotence as the specification words it: on a second run over the same
    entries, with the same remote, nothing is downloaded and every entry is
    skipped. *)
Definition rerun_skips_all : Prop :=
  forall remote clock json_load pdf_urls w first,
    stable remote ->
    run_batch remote clock json_load pdf_urls w = Completed first ->
    exists second,
      run_batch remote clock json_load pdf_urls (env first) = Completed second /\
      downloaded (counts second) = 0 /\
      skipped (counts second) = length pdf_urls.

(** What the loop of [main] does with an entry: the counter it raises. *)
Inductive outcome : Type := Downloaded | Skipped | Failed.

Definition outcome_of (before after : summary) : outcome :=
  if downloaded before <? downloaded after then Downloaded
  else if failed before <? failed after then Failed
  else Skipped.

(** The outcomes of the entries of a loop, in order. *)
Fixpoint outcomes (remote : nat -> string -> response) (clock : nat -> string)
    (total idx : nat) (pdf_urls : list (string * string)) (b : batch)
  : list outcome :=
  match pdf_urls with
  | [] => []
  | (title, url) :: rest =>
      let b' := process_entry remote clock total idx title url b in
      outcome_of (counts b) (counts b')
        :: outcomes remote clock total (S idx) rest b'
  end.

(** The outcomes of a run of [main] that reaches the loop. *)
Definition run_outcomes (remote : nat -> string -> response)
    (clock : nat -> string) (json_load : string -> parsed)
    (pdf_urls : list (string * string)) (w : world) : option (list outcome) :=
  match start_batch json_load w with
  | (Built t, w) =>
      Some (outcomes remote clock (length pdf_urls) 1 pdf_urls
              {| trk := t; env := w; counts := zero |})
  | _ => None
  end.

(** The summary that a list of outcomes adds up to. *)
Definition count_outcome (c : summary) (o : outcome) : summary :=
  match o with
  | Downloaded => count_downloaded c
  | Skipped => count_skipped c
  | Failed => count_failed c
  end.

Definition tally (os : list outcome) : summary := fold_left count_outcome os zero.

(** The paragraphs of an element whose text starts with [By ], in document
    order, and the authors one of them names. *)
Definition bylines (case_elem : Html.node) : list Html.node :=
  List.filter (fun p => startswith "By " (Html.get_text_strip p))
    (Html.find_all "p" Html.any_href case_elem).

Definition authors_of (p : Html.node) : list string :=
  map strip (split ","%char (drop 3 (Html.get_text_strip p))).

(** The authors as the specification words them: those of the first such
    paragraph. *)
Definition authors_from_first : Prop :=
  forall case_elem,
    Catalog.authors (Catalog.parse_case_element case_elem) =
      match head (bylines case_elem) with
      | Some p => authors_of p
      | None => []
      end.

(** An anchor with two such paragraphs. *)
Definition two_bylines : Html.node :=
  Html.Tag "a" [("href", "/teaching-resources-library/case")]
    [ Html.Tag "h3" [] [Html.Text "A case"];
      Html.Tag "p" [] [Html.Text "By Ada, Bob"];
      Html.Tag "p" [] [Html.Text "By Cy"] ].

(** The page has a load-more link that carries the three parameters. *)
Definition load_more_params (BeautifulSoup : string -> Html.node)
    (query_param : string -> string -> option string)
    (text pid base_nid : string) (offset : Z) : Prop :=
  exists load_more load_more_url,
    Html.find_by_string "a" "Load More" (BeautifulSoup text) = Some load_more /\
    Html.get_attr "href" load_more = Some load_more_url /\
    truthy load_more_url = true /\
    query_param load_more_url "pid" = Some pid /\ truthy pid = true /\
    query_param load_more_url "base_nid" = Some base_nid /\
    truthy base_nid = true /\
    Catalog.int_of_str (default "10" (query_param load_more_url "offset"))
      = Some offset.

(** A batch that goes on: a body that is not blank and has an anchor into the
    library.  A batch that ends the loop: a blank body, or no such anchor. *)
Definition productive (BeautifulSoup : string -> Html.node) (body : string) : Prop :=
  Catalog.blank body = false /\ Catalog.batch_elements BeautifulSoup body <> [].

Definition final (BeautifulSoup : string -> Html.node) (body : string) : Prop :=
  Catalog.blank body = true \/ Catalog.batch_elements BeautifulSoup body = [].

(** The same test as a function, and the responses of a sequence that come
    before the first one that ends the loop. *)
Definition is_final (BeautifulSoup : string -> Html.node) (body : string) : bool :=
  Catalog.blank body ||
  match Catalog.batch_elements BeautifulSoup body with
  | [] => true
  | _ => false
  end.

Fixpoint before_final (BeautifulSoup : string -> Html.node) (bodies : list string)
  : list string :=
  match bodies with
  | [] => []
  | body :: rest =>
      if is_final BeautifulSoup body then []
      else body :: before_final BeautifulSoup rest
  end.

(** The records of a list of anchors as the specification words them: each
    anchor parsed, in order, those without a title or with an empty one left
    out. *)
Definition titled (c : Catalog.case_data) : bool :=
  match Catalog.title c with
  | Some (String _ _) => true
  | _ => false
  end.

Definition titled_records (anchors : list Html.node) : list Catalog.case_data :=
  List.filter titled (map Catalog.parse_case_element anchors).

(** The case anchors of the first page: the anchors into the library, the one
    to the listing itself apart, that have a heading.  Those of a batch: the
    anchors into the library. *)
Definition first_page_anchors (soup : Html.node) : list Html.node :=
  List.filter
    (fun d => Html.is_tag "a" d && Catalog.initial_href (Html.get_attr "href" d)
              && bool_decide (is_Some (Html.find "h3" d)))
    (Html.descendants soup).

Definition batch_anchors (soup : Html.node) : list Html.node :=
  List.filter
    (fun d => Html.is_tag "a" d && Catalog.batch_href (Html.get_attr "href" d))
    (Html.descendants soup).

(** Pagination as the specification words it: for every finite sequence of
    responses whose last one ends the loop, the function stops at that last
    response, so that it sent one request for each response, and returns the
    records of the first page followed by those of every response that is not
    blank. *)
Definition stops_at_last_response : Prop :=
  forall (http_get : string -> option string)
         (api_get : string -> string -> Z -> option string)
         (BeautifulSoup : string -> Html.node)
         (query_param : string -> string -> option string)
         (page_url text pid base_nid : string) (offset : Z)
         (bodies : list string),
    http_get page_url = Some text ->
    load_more_params BeautifulSoup query_param text pid base_nid offset ->
    (forall k body, bodies !! k = Some body ->
       api_get pid base_nid (offset + 10 * Z.of_nat k)%Z = Some body) ->
    (exists body, last bodies = Some body /\ final BeautifulSoup body) ->
    exists fuel r,
      Catalog.fetch_all_cases http_get api_get BeautifulSoup query_param
        fuel page_url = Some (Catalog.Returned r) /\
      Catalog.cases r =
        titled_records (first_page_anchors (BeautifulSoup text)) ++
        flat_map (fun body => titled_records (batch_anchors (BeautifulSoup body)))
          (List.filter (fun body => negb (Catalog.blank body)) bodies) /\
      Catalog.offsets r =
        map (fun k => offset + 10 * Z.of_nat k)%Z (seq 0 (length bodies)).

(** What holds of the links collected so far, at every iteration. *)
Definition well_formed (base_url : string) (links : list Subgroups.link) : Prop :=
  NoDup (map Subgroups.l_url links) /\
  Forall (fun l => Subgroups.l_url l <> base_url /\ Subgroups.l_title l <> "")
    links.

End Props.

(* ===================================================================== *)
(** * A mocked listing: one page, one batch, then an empty answer *)
(* ===================================================================== *)

Module Mock.
Import Html Catalog.

Definition card (href heading : string) : node :=
  Tag "a" [("href", href)]
    [ Tag "h3" [] [Text heading]; Tag "p" [] [Text "By Ada, Bob"] ].

Definition load_more_url : string :=
  "/api/loadmore/dynamic_list_master?pid=66387&offset=10&base_nid=19867".

Definition page : node :=
  Tag "[document]" []
    [ card "/teaching-resources-library/first" "First";
      Tag "a" [("href", load_more_url)] [Text "Load More"] ].

Definition batch : node :=
  Tag "[document]" [] [ card "/teaching-resources-library/second" "Second" ].

Definition http_get (_ : string) : option string := Some "page".

Definition api_get (_ _ : string) (offset : Z) : option string :=
  if (offset =? 10)%Z then Some "batch" else Some "".

(** An API with an empty answer before the batch: empty at offset 10, the
    batch at offset 20, empty from then on. *)
Definition gap_api (_ _ : string) (offset : Z) : option string :=
  if (offset =? 20)%Z then Some "batch" else Some "".

(** An API that answers every request with the batch. *)
Definition endless_api (_ _ : string) (_ : Z) : option string := Some "batch".

(** The records of the two cards. *)
Definition first_record : case_data :=
  {| url := "https://mitsloan.mit.edu/teaching-resources-library/first";
     title := Some "First"; authors := ["Ada"; "Bob"]; description := "";
     date := ""; categories := None |}.

Definition second_record : case_data :=
  {| url := "https://mitsloan.mit.edu/teaching-resources-library/second";
     title := Some "Second"; authors := ["Ada"; "Bob"]; description := "";
     date := ""; categories := None |}.

Definition BeautifulSoup (text : string) : node :=
  if String.eqb text "page" then page
  else if String.eqb text "batch" then batch
  else Tag "[document]" [] [].

Definition query_param (_ key : string) : option string :=
  if String.eqb key "pid" then Some "66387"
  else if String.eqb key "base_nid" then Some "19867"
  else if String.eqb key "offset" then Some "10"
  else None.

(** A page of subgroup links: one link twice, a link to the page itself and a
    link without text. *)
Definition listing : node :=
  Tag "[document]" []
    [ Tag "a" [("href", "/teaching-resources-library/case-studies/ops")]
        [Text " Operations "];
      Tag "a" [("href", "/teaching-resources-library/case-studies/ops")]
        [Text "Operations again"];
      Tag "a" [("href", "/teaching-resources-library/case-studies")]
        [Text "Case studies"];
      Tag "a" [("href", "/teaching-resources-library/case-studies/empty")] [];
      Tag "a" [("name", "top")] [Text "Top"] ].

End Mock.

(* ===================================================================== *)
(** * Invariants of the ledger and of the download directory *)
(* ===================================================================== *)

Module Invariants.
Import PyStr Downloader.

(** The entry [mark_downloaded] files for a URL, with the time [stamp]. *)
Definition entry_for (url title stamp : string) : entry :=
  {| e_url := url; e_filename := sanitize_filename title; e_title := title;
     e_downloaded_at := stamp |}.

(** Every entry is filed under the key of its own URL, with the file name of
    its own title. *)
Definition ledger_consistent (t : tracker) : Prop :=
  forall key e, downloads (data t) !! key = Some e ->
    key = get_url_hash (e_url e) /\
    e_filename e = sanitize_filename (e_title e).

(** Every entry of the ledger has a file at its path. *)
Definition files_on_disk (b : batch) : Prop :=
  forall key e, downloads (data (trk b)) !! key = Some e ->
    is_Some (fs (env b) !! os_path_join DOWNLOAD_DIR (e_filename e)).

End Invariants.

(* ===================================================================== *)
(** * Paragraphs of a case element, and a listing whose API breaks *)
(* ===================================================================== *)

Module Paragraphs.
Import PyStr Html Catalog.

(** The texts of the paragraphs of an element, in document order. *)
Definition paragraph_texts (case_elem : node) : list string :=
  map get_text_strip (find_all "p" any_href case_elem).

(** The two tests of the loop over the paragraphs. *)
Definition is_byline (text : string) : bool := startswith "By " text.

Definition is_date (text : string) : bool :=
  contains "," text && existsb (fun month => contains month text) months.

(** The texts the loop takes for a date, and those it takes for neither
    authors nor date. *)
Definition date_texts (case_elem : node) : list string :=
  List.filter (fun t => negb (is_byline t) && is_date t)
    (paragraph_texts case_elem).

Definition other_texts (case_elem : node) : list string :=
  List.filter (fun t => negb (is_byline t) && negb (is_date t))
    (paragraph_texts case_elem).

(** What holds of every record [fetch_all_cases] returns. *)
Definition presentable (c : case_data) : Prop :=
  has_title c = true /\ (url c = "" \/ startswith "http" (url c) = true).

(** The mocked listing with an API that breaks after the first batch. *)
Definition broken_api (_ _ : string) (offset : Z) : option string :=
  if (offset =? 10)%Z then Some "batch" else None.

Definition broken_listing : fetched :=
  {| cases := initial_cases Mock.page ++ collect [] (batch_elements Mock.BeautifulSoup "batch");
     offsets := [10; 20]%Z |}.

(** The [href] of an anchor, the link [get_case_study_links] makes of it, and
    the tests an anchor has to pass to be listed. *)
Definition href_of (a : node) : string := default "" (get_attr "href" a).

Definition link_of (urljoin : string -> string -> string) (base_url : string)
    (a : node) : Subgroups.link :=
  {| Subgroups.l_title := get_text_strip a;
     Subgroups.l_url := urljoin base_url (href_of a) |}.

Definition qualifies (urljoin : string -> string -> string) (base_url : string)
    (a : node) : bool :=
  contains "teaching-resources-library" (href_of a)
  && contains "case" (lower (href_of a))
  && negb (String.eqb (urljoin base_url (href_of a)) base_url)
  && truthy (get_text_strip a).

End Paragraphs.

(* ===================================================================== *)
(** * Properties: link extraction *)
(* ===================================================================== *)

Section LinkFacts.
Import PyStr Re Links.

(** A successful run of a pattern ends in a successful call of its
    continuation. *)
Lemma star_result cls s k m :
  star cls s k = Some m -> exists s', k s' = Some m.
Proof.
  induction s as [|c s IH]; simpl; intros H.
  - eauto.
  - destruct (cls c); [|eauto].
    destruct (star cls s k) eqn:E; [|eauto].
    inversion H; subst. auto.
Qed.

Lemma plus_result cls s k m :
  plus cls s k = Some m -> exists s', k s' = Some m.
Proof.
  destruct s as [|c s]; simpl; [discriminate|].
  destruct (cls c); [apply star_result|discriminate].
Qed.

Lemma run_result r : forall s g k m,
  run r s g k = Some m -> exists s' g', k s' g' = Some m.
Proof.
  induction r as [l|cls|r1 IH1 r2 IH2|r1 IH1 r2 IH2|r IH|]; simpl; intros s g k m H.
  - destruct (lit l s); [eauto|discriminate].
  - apply plus_result in H as [s' H]. eauto.
  - apply IH1 in H as (s1 & g1 & H). eapply IH2, H.
  - destruct (run r1 s g k) eqn:E.
    + inversion H; subst. eapply IH1, E.
    + eapply IH2, H.
  - apply IH in H as (s1 & g1 & H). eauto.
  - destruct (at_end s); [eauto|discriminate].
Qed.

(** A numbered title always binds its group. *)
Lemma title_re_group line m :
  re_match title_re line = Some m -> exists t, group1 m = Some t.
Proof.
  unfold re_match, title_re. cbn [run]. intros H.
  apply plus_result in H as [s1 H].
  destruct (lit "." s1) as [s2|]; [|discriminate].
  apply plus_result in H as [s3 H].
  apply plus_result in H as [s4 H].
  destruct (at_end s4); [|discriminate].
  inversion H; subst. simpl. eauto.
Qed.

Lemma startswith_append p : forall s,
  startswith p s = true -> exists rest, s = p +:+ rest.
Proof.
  unfold startswith.
  induction p as [|a p IH]; intros s H.
  - exists s. reflexivity.
  - destruct s as [|b s]; [discriminate|].
    cbn [String.prefix] in H.
    destruct (ascii_dec a b) as [->|]; [|discriminate].
    destruct (IH s H) as [rest ->]. exists rest. reflexivity.
Qed.

Lemma startswith_http line :
  startswith "http" line = true -> exists rest, line = "http" +:+ rest.
Proof. apply startswith_append. Qed.

(** On a line that starts with [http] neither the title pattern nor the label
    pattern matches, and the line is not a banner: the test on
    [startswith('http')] leaves the label branch without any line to run on. *)
Lemma http_line_title rest : re_match title_re ("http" +:+ rest) = None.
Proof. reflexivity. Qed.

Lemma http_line_label rest : re_match label_url_re ("http" +:+ rest) = None.
Proof. reflexivity. Qed.

Lemma http_line_skipped rest : skipped ("http" +:+ rest) = false.
Proof. reflexivity. Qed.

Lemma pdf_url_no_label line :
  is_pdf_url line = true -> re_match label_url_re line = None.
Proof.
  unfold is_pdf_url. intros H. apply andb_prop in H as [H _].
  apply startswith_http in H as [rest ->]. apply http_line_label.
Qed.

Lemma scan_line_pdf_url st raw :
  is_pdf_url (strip raw) = true ->
  scan_line st raw =
    Some {| current_title := current_title st;
            urls := urls st ++ [(current_title st, strip raw)] |}.
Proof.
  intros H. unfold scan_line. rewrite H.
  pose proof H as Hp. unfold is_pdf_url in Hp. apply andb_prop in Hp as [Hp _].
  apply startswith_http in Hp as [rest Hr]. rewrite Hr.
  rewrite http_line_skipped, http_line_title, http_line_label. reflexivity.
Qed.

(** The loop never raises, and only appends to [urls]. *)
Lemma scan_line_total st raw :
  exists t more, scan_line st raw = Some {| current_title := t; urls := urls st ++ more |}.
Proof.
  unfold scan_line.
  destruct (skipped (strip raw)).
  { exists (current_title st), []. rewrite app_nil_r. by destruct st. }
  destruct (re_match title_re (strip raw)) as [m|] eqn:E.
  { apply title_re_group in E as [t ->]. exists t, []. by rewrite app_nil_r. }
  destruct (is_pdf_url (strip raw)) eqn:P.
  - rewrite (pdf_url_no_label _ P). eauto.
  - exists (current_title st), []. rewrite app_nil_r. by destruct st.
Qed.

Lemma scan_lines_total lines : forall st,
  exists t more, scan_lines st lines = Some {| current_title := t; urls := urls st ++ more |}.
Proof.
  induction lines as [|raw rest IH]; intros st; simpl.
  - exists (current_title st), []. rewrite app_nil_r. by destruct st.
  - destruct (scan_line_total st raw) as (t & more & ->). simpl.
    destruct (IH {| current_title := t; urls := urls st ++ more |}) as (t' & more' & ->).
    simpl. rewrite <- app_assoc. eauto.
Qed.

Lemma scan_lines_app l1 : forall st l2,
  scan_lines st (l1 ++ l2) = st' ← scan_lines st l1; scan_lines st' l2.
Proof.
  induction l1 as [|raw rest IH]; intros st l2; simpl; [reflexivity|].
  destruct (scan_line st raw) as [st'|]; simpl; [apply IH|reflexivity].
Qed.

(** Lines that are not numbered titles leave [current_title] as it is. *)
Lemma scan_line_keeps_title st raw :
  re_match title_re (strip raw) = None ->
  exists more, scan_line st raw =
    Some {| current_title := current_title st; urls := urls st ++ more |}.
Proof.
  intros E. unfold scan_line. rewrite E.
  destruct (skipped (strip raw)).
  { exists []. rewrite app_nil_r. by destruct st. }
  destruct (is_pdf_url (strip raw)) eqn:P.
  - rewrite (pdf_url_no_label _ P). eauto.
  - exists []. rewrite app_nil_r. by destruct st.
Qed.

Lemma scan_lines_keep_title lines : forall st,
  (forall x, In x lines -> re_match title_re (strip x) = None) ->
  exists more, scan_lines st lines =
    Some {| current_title := current_title st; urls := urls st ++ more |}.
Proof.
  induction lines as [|raw rest IH]; intros st Hn; simpl.
  - exists []. rewrite app_nil_r. by destruct st.
  - destruct (scan_line_keeps_title st raw) as (more & ->); [apply Hn; by left|].
    simpl.
    destruct (IH {| current_title := current_title st; urls := urls st ++ more |})
      as (more' & ->); [intros x Hx; apply Hn; by right|].
    simpl. rewrite <- app_assoc. eauto.
Qed.

(** The loop at work: a title, its link, a banner and a blank line. *)
Example extract_plain_links :
  extract_pdf_urls
    ("=== PDF LINKS ===" +:+ String LF
     ("1. Case Alpha" +:+ String LF
     ("  http://example.com/a.PDF  " +:+ String LF
     (String LF
     ("2.   Case Beta" +:+ String CR (String LF
     ("https://example.com/b.pdf?x=1" +:+ String LF
      "ftp://example.com/c.pdf")))))))
  = Some [ ("Case Alpha", "http://example.com/a.PDF");
           ("Case Beta", "https://example.com/b.pdf?x=1") ].
Proof. vm_compute. reflexivity. Qed.

(** What the label patterns would take from a labelled line, were one to
    reach them. *)
Example label_patterns :
  re_match label_url_re "PART 12:  http://example.com/b.pdf"
    = Some {| group1 := Some "http://example.com/b.pdf" |} /\
  re_match label_re "PART 12:  http://example.com/b.pdf"
    = Some {| group1 := Some "PART 12" |} /\
  is_pdf_url "PART 12:  http://example.com/b.pdf" = false.
Proof. vm_compute. auto. Qed.

(** C1. On the input of the specification's link-extraction example
    [extract_pdf_urls] returns the empty list, not the three labelled entries:
    a line such as [FULL CASE: http://...] does not start with [http], so it is
    never taken for a link. *)
Theorem extract_spec_example : extract_pdf_urls spec_example = Some [].
Proof. vm_compute. reflexivity. Qed.

(** C9. When a recognized link line (it starts with [http] and holds [.pdf]
    once stripped and lowered) comes before any numbered title line,
    [extract_pdf_urls] returns, right after the entries of the lines before
    it, an entry for that line whose title is the empty string. *)
Theorem url_before_titles_has_empty_title (content : string)
    (pre : list string) (l : string) (post : list string) :
  file_lines (universal_newlines content) = pre ++ l :: post ->
  (forall x, In x pre -> re_match title_re (strip x) = None) ->
  is_pdf_url (strip l) = true ->
  exists before after,
    scan_lines {| current_title := ""; urls := [] |} pre
      = Some {| current_title := ""; urls := before |} /\
    extract_pdf_urls content = Some (before ++ ("", strip l) :: after).
Proof.
  intros Hl Hpre Hurl. unfold extract_pdf_urls. rewrite Hl.
  destruct (scan_lines_keep_title pre {| current_title := ""; urls := [] |} Hpre)
    as (before & Hb).
  simpl in Hb. exists before.
  rewrite scan_lines_app, Hb. simpl.
  rewrite (scan_line_pdf_url _ _ Hurl). simpl.
  destruct (scan_lines_total post
              {| current_title := ""; urls := before ++ [("", strip l)] |})
    as (t & after & ->).
  simpl. exists after. split; [reflexivity|].
  by rewrite <- app_assoc.
Qed.

(** An instance: a banner, a link line, then the first numbered title. *)
Lemma url_before_titles_witness :
  exists before after,
    scan_lines {| current_title := ""; urls := [] |} ["=== LINKS ==="]
      = Some {| current_title := ""; urls := before |} /\
    extract_pdf_urls
      ("=== LINKS ===" +:+ String LF (" http://example.com/A.PDF " +:+ String LF "1. Case"))
      = Some (before ++ ("", "http://example.com/A.PDF") :: after).
Proof.
  apply (url_before_titles_has_empty_title
           ("=== LINKS ===" +:+ String LF (" http://example.com/A.PDF " +:+ String LF "1. Case"))
           ["=== LINKS ==="%string +:+ String LF ""]
           (" http://example.com/A.PDF " +:+ String LF "")
           ["1. Case"]).
  - vm_compute. reflexivity.
  - intros x [<-|[]]. vm_compute. reflexivity.
  - vm_compute. reflexivity.
Defined.

End LinkFacts.

(* ===================================================================== *)
(** * Properties: file names and ledger keys *)
(* ===================================================================== *)

Section NameFacts.
Import PyStr Downloader.

Lemma append_nil b : "" +:+ b = b.
Proof. reflexivity. Qed.

Lemma append_cons c a b : String c a +:+ b = String c (a +:+ b).
Proof. reflexivity. Qed.

Lemma len_append a b : len (a +:+ b) = len a + len b.
Proof.
  unfold len. induction a as [|c a IH]; rewrite ?append_nil, ?append_cons.
  - reflexivity.
  - simpl. rewrite IH. reflexivity.
Qed.

Lemma len_take n : forall s, len (take n s) <= n.
Proof.
  unfold len. induction n as [|n IH]; intros [|c s]; simpl; try lia.
  specialize (IH s). lia.
Qed.

Lemma all_append p a b : all p (a +:+ b) = all p a && all p b.
Proof.
  induction a as [|c a IH]; rewrite ?append_nil, ?append_cons.
  - reflexivity.
  - simpl. rewrite IH. apply andb_assoc.
Qed.

Lemma all_take p n : forall s, all p s = true -> all p (take n s) = true.
Proof.
  induction n as [|n IH]; intros [|c s] H; simpl in *; try reflexivity.
  apply andb_prop in H as [-> H]. simpl. auto.
Qed.

(** [re.sub(cls, '', s)] leaves no character of the class. *)
Lemma all_sub_class cls s : all (fun c => negb (cls c)) (sub_class cls s) = true.
Proof.
  induction s as [|c s IH]; simpl; [reflexivity|].
  destruct (cls c) eqn:E; simpl; [assumption|].
  rewrite E. simpl. assumption.
Qed.

(** Replacing runs keeps what holds of the characters and of the replacement. *)
Lemma all_sub_runs q cls repl s : forall in_run,
  q repl = true -> all q s = true -> all q (sub_runs cls repl in_run s) = true.
Proof.
  induction s as [|c s IH]; intros in_run Hr H; simpl in *; [reflexivity|].
  apply andb_prop in H as [Hc H].
  destruct (cls c); [destruct in_run|]; simpl; rewrite ?Hr, ?Hc; simpl; auto.
Qed.

(** Replacing the runs of a class leaves no character of the class. *)
Lemma sub_runs_no_class cls repl s : forall in_run,
  cls repl = false ->
  all (fun c => negb (cls c)) (sub_runs cls repl in_run s) = true.
Proof.
  induction s as [|c s IH]; intros in_run Hr; simpl; [reflexivity|].
  destruct (cls c) eqn:E; [destruct in_run|]; simpl; rewrite ?Hr, ?E; simpl; auto.
Qed.

(** A run of the class at the start, however long, gives one replacement. *)
Lemma sub_runs_collapse cls repl ws rest :
  ws <> "" -> all cls ws = true ->
  match rest with String c _ => cls c = false | EmptyString => True end ->
  sub_runs cls repl false (ws +:+ rest)
    = String repl (sub_runs cls repl false rest).
Proof.
  intros Hne Hws Hrest.
  assert (Hin : forall ws, all cls ws = true ->
            sub_runs cls repl true (ws +:+ rest) = sub_runs cls repl false rest).
  { clear ws Hne Hws.
    induction ws as [|c ws IH]; rewrite ?append_nil, ?append_cons; intros H.
    - destruct rest as [|c r]; [reflexivity|]. simpl. rewrite Hrest. reflexivity.
    - simpl in H. apply andb_prop in H as [Hc H]. simpl. rewrite Hc. auto. }
  destruct ws as [|c ws]; [congruence|].
  rewrite append_cons. simpl in Hws. apply andb_prop in Hws as [Hc Hws].
  simpl. rewrite Hc. f_equal. auto.
Qed.

(** The body of a file name: the title without the unsafe characters and with
    its blank runs replaced, cut at 200 characters. *)
Lemma sanitize_filename_body title :
  exists body, sanitize_filename title = body +:+ ".pdf" /\
    len body <= 200 /\
    all (fun c => negb (unsafe c)) body = true /\
    all (fun c => negb (isspace c)) body = true.
Proof.
  unfold sanitize_filename.
  set (safe := sub_runs isspace "_"%char false (sub_class unsafe title)).
  assert (Hu : all (fun c => negb (unsafe c)) safe = true).
  { apply all_sub_runs; [reflexivity|apply all_sub_class]. }
  assert (Hs : all (fun c => negb (isspace c)) safe = true).
  { apply sub_runs_no_class. reflexivity. }
  destruct (200 <? len safe) eqn:E.
  - exists (take 200 safe). repeat split; auto using all_take, len_take.
  - exists safe. apply Nat.ltb_ge in E. repeat split; auto.
Qed.

(** C5. The name [sanitize_filename] makes of a title holds none of the
    characters < > : double quote / \ | ? *, holds no blank character at all
    (so no run of blanks, each run of the title having become one
    underscore), is at most 204 characters long, and equal titles give equal
    names. *)
Theorem sanitize_filename_safe (title : string) :
  title <> "" ->
  let name := sanitize_filename title in
  all (fun c => negb (unsafe c)) name = true /\
  all (fun c => negb (isspace c)) name = true /\
  len name <= 204 /\
  forall other, other = title -> sanitize_filename other = name.
Proof.
  intros _ name.
  destruct (sanitize_filename_body title) as (body & E & Hl & Hu & Hs).
  subst name. rewrite E, !all_append, len_append, Hu, Hs.
  repeat split; try reflexivity.
  - change (len ".pdf") with 4. lia.
  - intros other ->. exact E.
Qed.

(** An instance: a title with unsafe characters and a run of two blanks. *)
Lemma sanitize_filename_witness :
  let name := sanitize_filename "What: a  <case>?" in
  all (fun c => negb (unsafe c)) name = true /\
  all (fun c => negb (isspace c)) name = true /\
  len name <= 204 /\
  forall other, other = "What: a  <case>?" -> sanitize_filename other = name.
Proof. apply (sanitize_filename_safe "What: a  <case>?"). discriminate. Defined.

(** A file name never starts with a slash, so the path of a download is in
    the download directory. *)
Lemma download_path title :
  os_path_join DOWNLOAD_DIR (sanitize_filename title)
    = "downloaded_pdfs/" +:+ sanitize_filename title.
Proof.
  destruct (sanitize_filename_body title) as (body & E & _ & Hu & _).
  rewrite E. unfold os_path_join.
  destruct body as [|c body]; [reflexivity|].
  rewrite append_cons. simpl in Hu. apply andb_prop in Hu as [Hc _].
  assert (startswith "/" (String c (body +:+ ".pdf")) = false) as ->.
  { unfold startswith. cbn [String.prefix].
    destruct (ascii_dec "/" c) as [<-|]; [discriminate|reflexivity]. }
  reflexivity.
Qed.

Lemma download_path_not_ledger title :
  os_path_join DOWNLOAD_DIR (sanitize_filename title) <> TRACKING_FILE.
Proof. rewrite download_path. discriminate. Qed.

(** The derived constants are those the standard lists. *)
Example sha256_constants :
  length Sha256.K = 64 /\
  nth 0 Sha256.K 0%N = 0x428a2f98%N /\ nth 63 Sha256.K 0%N = 0xc67178f2%N /\
  Sha256.va Sha256.H0 = 0x6a09e667%N /\ Sha256.vh Sha256.H0 = 0x5be0cd19%N.
Proof. vm_compute. auto. Qed.

(** The model of [hashlib.sha256] on the test vectors of the standard. *)
Example sha256_empty :
  Sha256.hexdigest (Sha256.sha256 (Sha256.encode ""))
  = "e3b0c44298fc1c149afbf4c8996fb92427ae41e4649b934ca495991b7852b855".
Proof. vm_compute. reflexivity. Qed.

Example sha256_abc :
  Sha256.hexdigest (Sha256.sha256 (Sha256.encode "abc"))
  = "ba7816bf8f01cfea414140de5dae2223b00361a396177a9cb410ff61f20015ad".
Proof. vm_compute. reflexivity. Qed.

Example sha256_two_blocks :
  Sha256.hexdigest (Sha256.sha256 (Sha256.encode
    "abcdbcdecdefdefgefghfghighijhijkijkljklmklmnlmnomnopnopq"))
  = "248d6a61d20638b8e5c026930c3e6039a33ce45964ff2167f6ecedd419db06c1".
Proof. vm_compute. reflexivity. Qed.

Example get_url_hash_example :
  get_url_hash "http://example.com/a.pdf" = "6e6a8e04d12de2f3".
Proof. vm_compute. reflexivity. Qed.

Lemma ishex_hexchar n : ishex (Sha256.hexchar n) = true.
Proof.
  destruct n as [|p]; [reflexivity|].
  do 4 (destruct p as [p|p|]; try reflexivity).
Qed.

Lemma get_url_hash_shape url :
  len (get_url_hash url) = 16 /\ all ishex (get_url_hash url) = true.
Proof.
  unfold get_url_hash.
  generalize (Sha256.sha256 (Sha256.encode url)). intros [a b c d e f g h].
  cbv [Sha256.hexdigest Sha256.hex8 String.append take Sha256.va Sha256.vb
       Sha256.vc Sha256.vd Sha256.ve Sha256.vf Sha256.vg Sha256.vh].
  split; [reflexivity|].
  cbn [all]. unfold Sha256.nibble. rewrite !ishex_hexchar. reflexivity.
Qed.

Section Ledger.
Variable clock : nat -> string.
Variable json_load : string -> parsed.

Lemma mark_downloaded_data t url filename title w :
  (mark_downloaded clock t url filename title w).1 =
    {| tracking_file := tracking_file t;
       data := {| downloads :=
         <[get_url_hash url :=
             {| e_url := url; e_filename := filename; e_title := title;
                e_downloaded_at := clock (length (trace w)) |}]>
           (downloads (data t)) |} |}.
Proof. reflexivity. Qed.

Lemma mark_downloaded_saved t url filename title w :
  let r := mark_downloaded clock t url filename title w in
  fs r.2 !! tracking_file t = Some (Json (data r.1)).
Proof. simpl. apply lookup_insert_eq. Qed.

Lemma is_downloaded_mark t url filename title w :
  is_downloaded (mark_downloaded clock t url filename title w).1 url = true.
Proof.
  unfold is_downloaded. rewrite mark_downloaded_data. simpl.
  rewrite lookup_insert_eq. apply bool_decide_eq_true. eauto.
Qed.

Lemma DownloadTracker_json path d w :
  fs w !! path = Some (Json d) ->
  (DownloadTracker json_load path w).1
  = Built {| tracking_file := path; data := d |}.
Proof.
  intros H. unfold DownloadTracker, load_tracking_data. simpl. rewrite H.
  reflexivity.
Qed.

(** C4. Marking a URL and then reading the tracking file in a new
    [DownloadTracker] gives a tracker, which finds the URL downloaded.  The
    key is a function of the URL alone: 16 hexadecimal digits, under which
    the entry is filed whatever the tracker, the file name, the title, the
    time and the state of the disk. *)
Theorem ledger_round_trip (t : tracker) (url filename title : string) (w : world) :
  let marked := mark_downloaded clock t url filename title w in
  (exists reloaded,
     (DownloadTracker json_load (tracking_file t) marked.2).1 = Built reloaded /\
     is_downloaded reloaded url = true) /\
  len (get_url_hash url) = 16 /\
  all ishex (get_url_hash url) = true /\
  forall t' filename' title' w',
    downloads (data (mark_downloaded clock t' url filename' title' w').1)
      !! get_url_hash url
    = Some {| e_url := url; e_filename := filename'; e_title := title';
              e_downloaded_at := clock (length (trace w')) |}.
Proof.
  intros marked.
  destruct (get_url_hash_shape url) as [Hl Hh].
  repeat split; auto.
  - eexists. split.
    + apply (DownloadTracker_json _ (data marked.1)).
      apply mark_downloaded_saved.
    + unfold is_downloaded. subst marked. simpl.
      rewrite lookup_insert_eq. apply bool_decide_eq_true. eauto.
  - intros. rewrite mark_downloaded_data. simpl. apply lookup_insert_eq.
Qed.

End Ledger.

End NameFacts.

(* ===================================================================== *)
(** * Properties: the batch loop *)
(* ===================================================================== *)

Section BatchFacts.
Import PyStr Downloader Props.

Variable remote : nat -> string -> response.
Variable clock : nat -> string.
Variable json_load : string -> parsed.

Abbreviation download_attempts := (download_attempts remote).
Abbreviation download_file := (download_file remote).
Abbreviation process_entry := (process_entry remote clock).
Abbreviation batch_loop := (batch_loop remote clock).
Abbreviation run_batch := (run_batch remote clock json_load).
Abbreviation mark_downloaded := (mark_downloaded clock).
Abbreviation outcomes := (outcomes remote clock).
Abbreviation run_outcomes := (run_outcomes remote clock json_load).

Lemma requests_log e w :
  requests (log e w) = requests w + (if is_get e then 1 else 0).
Proof.
  unfold requests, log. simpl. rewrite List.filter_app, length_app. simpl.
  destruct (is_get e); reflexivity.
Qed.

Lemma requests_write_file path f w : requests (write_file path f w) = requests w.
Proof. unfold write_file. rewrite requests_log. simpl. unfold requests. simpl. lia. Qed.

Lemma requests_remove_file path w : requests (remove_file path w) = requests w.
Proof. unfold remove_file. rewrite requests_log. simpl. unfold requests. simpl. lia. Qed.

Lemma path_exists_false path w : path_exists path w = false -> fs w !! path = None.
Proof.
  unfold path_exists. intros H. apply bool_decide_eq_false in H.
  destruct (fs w !! path) eqn:E; [|reflexivity]. exfalso. apply H. eauto.
Qed.

Lemma path_exists_log path e w : path_exists path (log e w) = path_exists path w.
Proof. reflexivity. Qed.

Lemma transport_error_cases r :
  transport_error r = true -> r = Refused \/ exists chunks, r = Body chunks false.
Proof.
  destruct r as [|chunks [|]]; simpl; intros H; try discriminate; eauto.
Qed.

(** When every answer is a transport error the loop runs to its last
    iteration, sends one request per iteration, and leaves nothing at the
    destination. *)
Lemma download_attempts_exhausted url output_path retries :
  (forall n, transport_error (remote n url) = true) ->
  forall todo attempt w,
    attempt + todo = retries -> 0 < todo ->
    let r := download_attempts url output_path retries attempt todo w in
    r.1 = false /\ requests r.2 = requests w + todo /\
    fs r.2 !! output_path = None /\
    forall p, p <> output_path -> fs r.2 !! p = fs w !! p.
Proof.
  intros Herr. induction todo as [|todo IH]; intros attempt w Hsum Hpos; [lia|].
  cbv zeta.
  pose (after := match remote (requests w) url with
                | Refused => log (Get url) w
                | Body chunks _ =>
                    write_file output_path (Bytes (PyStr.concat chunks))
                      (log (Get url) w)
                end).
  assert (Hreq : requests after = S (requests w)).
  { subst after. destruct (remote (requests w) url);
      rewrite ?requests_write_file, requests_log; simpl; lia. }
  assert (Hfs : forall p, p <> output_path -> fs after !! p = fs w !! p).
  { intros p Hp. subst after. destruct (remote (requests w) url); simpl; auto.
    by rewrite lookup_insert_ne. }
  assert (Hstep : download_attempts url output_path retries attempt (S todo) w =
     if (Z.of_nat attempt <? Z.of_nat retries - 1)%Z then
       download_attempts url output_path retries (S attempt) todo
         (log (Sleep RETRY_DELAY) after)
     else
       (false, if path_exists output_path (log (Exists output_path) after)
               then remove_file output_path (log (Exists output_path) after)
               else log (Exists output_path) after)).
  { cbn [Downloader.download_attempts]. subst after.
    destruct (transport_error_cases _ (Herr (requests w))) as [->|[chunks ->]];
      reflexivity. }
  rewrite Hstep. clear Hstep.
  destruct (Z.ltb_spec (Z.of_nat attempt) (Z.of_nat retries - 1)) as [Hlt|Hge].
  - destruct (IH (S attempt) (log (Sleep RETRY_DELAY) after)) as (H1 & H2 & H3 & H4);
      [lia|lia|].
    rewrite requests_log, Hreq in H2. simpl in H2.
    repeat split; auto; [lia|].
    intros p Hp. rewrite (H4 p Hp). simpl. auto.
  - assert (todo = 0) as -> by lia.
    destruct (path_exists output_path (log (Exists output_path) after)) eqn:E; simpl.
    + repeat split.
      * rewrite requests_remove_file, requests_log, Hreq. simpl. lia.
      * apply lookup_delete_eq.
      * intros p Hp. rewrite lookup_delete_ne by auto. auto.
    + repeat split.
      * rewrite requests_log, Hreq. simpl. lia.
      * apply path_exists_false in E. exact E.
      * auto.
Qed.

(** A download that fails has met a transport error. *)
Lemma download_file_false url output_path retries w w' :
  download_file url output_path retries w = (false, w') -> 0 < retries ->
  exists n, transport_error (remote n url) = true.
Proof.
  unfold Downloader.download_file. destruct retries as [|todo]; [lia|].
  cbn [Downloader.download_attempts]. intros H _. exists (requests w).
  destruct (remote (requests w) url) as [|chunks [|]]; try reflexivity.
  discriminate.
Qed.

(** A download writes and removes at its destination only. *)
Lemma download_attempts_frame url output_path retries p :
  p <> output_path ->
  forall todo attempt w,
    fs (download_attempts url output_path retries attempt todo w).2 !! p = fs w !! p.
Proof.
  intros Hp. induction todo as [|todo IH]; intros attempt w; [reflexivity|].
  cbn [Downloader.download_attempts].
  destruct (remote (requests w) url) as [|chunks [|]].
  - destruct (Z.of_nat attempt <? Z.of_nat retries - 1)%Z.
    + rewrite IH. reflexivity.
    + simpl. destruct (path_exists _ _); simpl; rewrite ?lookup_delete_ne; auto.
  - simpl. by rewrite lookup_insert_ne.
  - destruct (Z.of_nat attempt <? Z.of_nat retries - 1)%Z.
    + rewrite IH. simpl. by rewrite lookup_insert_ne.
    + simpl. destruct (path_exists _ _); simpl;
        rewrite ?lookup_delete_ne, lookup_insert_ne; auto.
Qed.

Lemma download_file_frame url output_path retries p w :
  p <> output_path ->
  fs (download_file url output_path retries w).2 !! p = fs w !! p.
Proof. intros Hp. by apply download_attempts_frame. Qed.

(** The first thing a download does is to send a request. *)
Lemma download_file_trace url output_path todo w :
  exists rest,
    trace (download_file url output_path (S todo) w).2
      = trace w ++ Get url :: rest.
Proof.
  unfold Downloader.download_file.
  assert (Hext : forall n attempt w0, exists rest,
            trace (download_attempts url output_path (S todo) attempt n w0).2
              = trace w0 ++ rest).
  { induction n as [|n IH]; intros attempt w0; [exists []; by rewrite app_nil_r|].
    cbn [Downloader.download_attempts].
    destruct (remote (requests w0) url) as [|chunks [|]];
      try (destruct (Z.of_nat attempt <? Z.of_nat (S todo) - 1)%Z;
           [ match goal with
             | |- context [download_attempts _ _ _ ?a n ?w1] =>
                 destruct (IH a w1) as [rest ->]
             end
           | destruct (path_exists _ _) ]);
      simpl; rewrite <- ?app_assoc; eauto. }
  cbn [Downloader.download_attempts].
  destruct (remote (requests w) url) as [|chunks [|]];
    try (destruct (Z.of_nat 0 <? Z.of_nat (S todo) - 1)%Z;
         [ match goal with
           | |- context [download_attempts _ _ _ ?a todo ?w1] =>
               destruct (Hext todo a w1) as [rest ->]
           end
         | destruct (path_exists _ _) ]);
    simpl; rewrite <- ?app_assoc; simpl; eauto.
Qed.

(** C3. When every request to the URL of an entry ends in a transport error,
    [download_file] sends exactly [MAX_RETRIES] requests and returns [False],
    nothing is left at the destination path and no other path is touched; in
    the loop of [main] the entry adds one to the failed count, the tracker
    and the tracking file stay as they were. *)
Theorem retry_exhaustion (url : string) :
  (forall n, transport_error (remote n url) = true) ->
  (forall output_path w,
     let r := download_file url output_path MAX_RETRIES w in
     r.1 = false /\ requests r.2 = requests w + MAX_RETRIES /\
     fs r.2 !! output_path = None /\
     forall p, p <> output_path -> fs r.2 !! p = fs w !! p) /\
  (forall total idx title b,
     let output_path := os_path_join DOWNLOAD_DIR (sanitize_filename title) in
     is_downloaded (trk b) url = false ->
     path_exists output_path (env b) = false ->
     let b' := process_entry total idx title url b in
     counts b' = count_failed (counts b) /\ trk b' = trk b /\
     fs (env b') !! TRACKING_FILE = fs (env b) !! TRACKING_FILE /\
     fs (env b') !! output_path = None /\
     requests (env b') = requests (env b) + MAX_RETRIES).
Proof.
  intros Herr.
  assert (Hdl : forall output_path w,
     let r := download_file url output_path MAX_RETRIES w in
     r.1 = false /\ requests r.2 = requests w + MAX_RETRIES /\
     fs r.2 !! output_path = None /\
     forall p, p <> output_path -> fs r.2 !! p = fs w !! p).
  { intros output_path w.
    apply (download_attempts_exhausted url output_path MAX_RETRIES Herr);
      unfold MAX_RETRIES; lia. }
  split; [exact Hdl|].
  intros total idx title b output_path Hnew Habsent b'.
  subst b'. unfold Downloader.process_entry.
  rewrite Hnew. fold output_path.
  rewrite path_exists_log, Habsent.
  destruct (Hdl output_path (log (Exists output_path) (env b)))
    as (H1 & H2 & H3 & H4).
  destruct (download_file url output_path MAX_RETRIES
              (log (Exists output_path) (env b))) as [ok w'] eqn:E.
  simpl in H1, H2, H3, H4. subst ok.
  rewrite requests_log in H2. simpl in H2.
  assert (Hl : fs w' !! TRACKING_FILE = fs (env b) !! TRACKING_FILE).
  { rewrite H4; [reflexivity|].
    intros Heq. symmetry in Heq. by apply download_path_not_ledger in Heq. }
  destruct (idx <? total); simpl; rewrite ?requests_log; simpl;
    repeat split; auto; lia.
Qed.

(** The loop at work on an empty disk: the first URL answers, the second
    breaks off after a chunk, the third is refused. *)
Example run_batch_outcomes :
  let remote := fun (_ : nat) (url : string) =>
    if String.eqb url "http://x/1.pdf" then Body ["%PDF"; ""; "-1.4"] true
    else if String.eqb url "http://x/2.pdf" then Body ["%P"] false
    else Refused in
  exists b,
  Downloader.run_batch remote (fun _ => "2026-01-01 00:00:00") (fun _ => Invalid)
    [("Case 1", "http://x/1.pdf"); ("Case 2", "http://x/2.pdf");
     ("Case 3", "http://x/3.pdf")]
    {| fs := ∅; trace := [] |} = Completed b /\
  counts b = {| downloaded := 1; skipped := 0; failed := 2 |} /\
  fs (env b) !! "downloaded_pdfs/Case_1.pdf" = Some (Bytes "%PDF-1.4") /\
  fs (env b) !! "downloaded_pdfs/Case_2.pdf" = None /\
  requests (env b) = 7 /\
  is_downloaded (trk b) "http://x/1.pdf" = true /\
  is_downloaded (trk b) "http://x/2.pdf" = false /\
  exit_status (counts b) = 1%Z.
Proof.
  intros remote0. eexists. split; [vm_compute; reflexivity|].
  vm_compute. auto 10.
Qed.

(** C6. The loop of [main] tests an entry in this order.  A URL whose key is
    in the ledger is skipped and nothing else happens: the world (files and
    events) and the tracker stay as they were.  Otherwise, when a file
    already is at the derived path, the only events are the test of the path
    and the writing of the tracking file, which now holds the URL, and the
    entry is skipped without a request.  Otherwise the next event after the
    test of the path is a request to the URL. *)
Theorem skip_policy_order (total idx : nat) (title url : string) (b : batch) :
  let output_path := os_path_join DOWNLOAD_DIR (sanitize_filename title) in
  let b' := process_entry total idx title url b in
  if is_downloaded (trk b) url then
    b' = {| trk := trk b; env := env b; counts := count_skipped (counts b) |}
  else if path_exists output_path (env b) then
    trace (env b') =
      trace (env b) ++ [Exists output_path; Write (tracking_file (trk b))] /\
    fs (env b') = <[tracking_file (trk b) := Json (data (trk b'))]> (fs (env b)) /\
    is_downloaded (trk b') url = true /\
    requests (env b') = requests (env b) /\
    counts b' = count_skipped (counts b)
  else
    exists rest,
      trace (env b') = trace (env b) ++ Exists output_path :: Get url :: rest.
Proof.
  intros output_path b'. subst b'. unfold Downloader.process_entry.
  fold output_path.
  destruct (is_downloaded (trk b) url) eqn:Hd; [reflexivity|].
  rewrite path_exists_log.
  destruct (path_exists output_path (env b)) eqn:He.
  - cbn. rewrite <- app_assoc. repeat split.
    + unfold is_downloaded. simpl. rewrite lookup_insert_eq.
      apply bool_decide_eq_true. eauto.
    + unfold requests. simpl. rewrite !List.filter_app, !length_app. simpl. lia.
  - destruct (download_file_trace url output_path 2 (log (Exists output_path) (env b)))
      as [rest Hrest].
    change (S 2) with MAX_RETRIES in Hrest.
    destruct (download_file url output_path MAX_RETRIES
                (log (Exists output_path) (env b))) as [ok w'].
    simpl in Hrest.
    destruct ok, (idx <? total); cbn; rewrite Hrest, <- ?app_assoc; simpl; eauto.
Qed.

(** ** Running the batch twice *)

Lemma is_downloaded_insert t tf key e other :
  is_downloaded t other = true ->
  is_downloaded
    {| tracking_file := tf;
       data := {| downloads := <[key := e]> (downloads (data t)) |} |} other = true.
Proof.
  unfold is_downloaded. simpl. intros H. apply bool_decide_eq_true in H.
  apply bool_decide_eq_true. rewrite lookup_insert.
  case_decide; eauto.
Qed.

(** The ledger only grows in the loop. *)
Lemma process_entry_keeps total idx title url b other :
  is_downloaded (trk b) other = true ->
  is_downloaded (trk (process_entry total idx title url b)) other = true.
Proof.
  intros H. unfold Downloader.process_entry.
  destruct (is_downloaded (trk b) url); [exact H|].
  destruct (path_exists _ _).
  - simpl. by apply is_downloaded_insert.
  - destruct (download_file _ _ _ _) as [[|] w'];
      destruct (idx <? total); simpl; auto using is_downloaded_insert.
Qed.

Lemma batch_loop_keeps pdf_urls : forall total idx b other,
  is_downloaded (trk b) other = true ->
  is_downloaded (trk (batch_loop total idx pdf_urls b)) other = true.
Proof.
  induction pdf_urls as [|[title url] rest IH]; intros total idx b other H; simpl.
  - exact H.
  - apply IH. by apply process_entry_keeps.
Qed.

Lemma settled_keeps t t' url :
  (is_downloaded t url = true -> is_downloaded t' url = true) ->
  settled remote t url -> settled remote t' url.
Proof. intros H [Hd|Hf]; [left; auto|right; exact Hf]. Qed.

(** After its iteration an entry is in the ledger, or it was counted as
    failed. *)
Lemma process_entry_outcome total idx title url b :
  let b' := process_entry total idx title url b in
  (is_downloaded (trk b') url = true /\ failed (counts b') = failed (counts b)) \/
  ((exists n, transport_error (remote n url) = true) /\
   failed (counts b') = S (failed (counts b))).
Proof.
  unfold Downloader.process_entry.
  destruct (is_downloaded (trk b) url) eqn:Hd; [left; auto|].
  destruct (path_exists _ _).
  - left. simpl. split; [|reflexivity].
    unfold is_downloaded. simpl. rewrite lookup_insert_eq.
    apply bool_decide_eq_true. eauto.
  - destruct (download_file _ _ _ _) as [[|] w'] eqn:E.
    + left. destruct (idx <? total); simpl; (split; [|reflexivity]);
        unfold is_downloaded; simpl; rewrite lookup_insert_eq;
        apply bool_decide_eq_true; eauto.
    + right. apply download_file_false in E; [|unfold MAX_RETRIES; lia].
      destruct (idx <? total); simpl; auto.
Qed.

Lemma process_entry_settles total idx title url b :
  stable remote -> settled remote (trk (process_entry total idx title url b)) url.
Proof.
  intros Hst.
  destruct (process_entry_outcome total idx title url b) as [[H _]|[[n H] _]].
  - by left.
  - right. intros m. by rewrite (Hst m n).
Qed.

Lemma batch_loop_settles pdf_urls : forall total idx b,
  stable remote ->
  Forall (fun e => settled remote (trk (batch_loop total idx pdf_urls b)) e.2)
    pdf_urls.
Proof.
  induction pdf_urls as [|[title url] rest IH]; intros total idx b Hst; simpl.
  - constructor.
  - constructor; [|by apply IH].
    simpl. eapply settled_keeps; [apply batch_loop_keeps|].
    by apply process_entry_settles.
Qed.

(** The iteration of a settled entry skips it or counts it as failed. *)
Lemma process_entry_settled total idx title url b :
  settled remote (trk b) url ->
  let b' := process_entry total idx title url b in
  downloaded (counts b') = downloaded (counts b) /\
  skipped (counts b') + failed (counts b') = S (skipped (counts b) + failed (counts b)).
Proof.
  intros Hs. unfold Downloader.process_entry.
  destruct (is_downloaded (trk b) url) eqn:Hd; [simpl; lia|].
  destruct Hs as [Hs|Hf]; [congruence|].
  destruct (path_exists _ _); [simpl; lia|].
  match goal with
  | |- context [download_file url ?p MAX_RETRIES ?w] =>
      destruct (download_attempts_exhausted url p MAX_RETRIES Hf
                  MAX_RETRIES 0 w) as (H1 & _);
        [reflexivity|unfold MAX_RETRIES; lia|];
      fold (download_file url p MAX_RETRIES w) in H1;
      destruct (download_file url p MAX_RETRIES w) as [ok w']
  end.
  simpl in H1. subst ok. destruct (idx <? total); simpl; lia.
Qed.

Lemma batch_loop_settled pdf_urls : forall total idx b,
  Forall (fun e => settled remote (trk b) e.2) pdf_urls ->
  let b' := batch_loop total idx pdf_urls b in
  downloaded (counts b') = downloaded (counts b) /\
  skipped (counts b') + failed (counts b')
    = skipped (counts b) + failed (counts b) + length pdf_urls.
Proof.
  induction pdf_urls as [|[title url] rest IH]; intros total idx b Hall; simpl.
  - lia.
  - inversion Hall as [|e l Hhead Hrest]; subst. simpl in Hhead.
    destruct (process_entry_settled total idx title url b Hhead) as [H1 H2].
    destruct (IH total (S idx) (process_entry total idx title url b)) as [H3 H4].
    { eapply Forall_impl; [exact Hrest|]. intros e He.
      eapply settled_keeps; [|exact He]. apply process_entry_keeps. }
    lia.
Qed.

(** The failed count only grows, and where it did not grow every entry is in
    the ledger. *)
Lemma batch_loop_failed pdf_urls : forall total idx b,
  let b' := batch_loop total idx pdf_urls b in
  failed (counts b) <= failed (counts b') /\
  (failed (counts b') = failed (counts b) ->
   Forall (fun e => is_downloaded (trk b') e.2 = true) pdf_urls).
Proof.
  induction pdf_urls as [|[title url] rest IH]; intros total idx b; simpl.
  - split; [lia|constructor].
  - destruct (IH total (S idx) (process_entry total idx title url b)) as [H1 H2].
    destruct (process_entry_outcome total idx title url b) as [[Hd Hf]|[_ Hf]].
    + split; [lia|]. intros Heq. constructor; [|apply H2; lia].
      simpl. by apply batch_loop_keeps.
    + split; [lia|]. intros Heq. lia.
Qed.

(** When the ledger has every entry the loop skips them all. *)
Lemma batch_loop_tracked pdf_urls : forall total idx b,
  Forall (fun e => is_downloaded (trk b) e.2 = true) pdf_urls ->
  let b' := batch_loop total idx pdf_urls b in
  skipped (counts b') = skipped (counts b) + length pdf_urls /\
  failed (counts b') = failed (counts b).
Proof.
  induction pdf_urls as [|[title url] rest IH]; intros total idx b Hall; simpl.
  - lia.
  - inversion Hall as [|e l Hhead Hrest]; subst. simpl in Hhead.
    unfold Downloader.process_entry at 1 2. rewrite Hhead.
    destruct (IH total (S idx)
                {| trk := trk b; env := env b; counts := count_skipped (counts b) |}
                Hrest) as [H1 H2].
    simpl in *. lia.
Qed.

(** The loop keeps the tracker and the tracking file in step. *)
Lemma on_disk_frame w w' :
  fs w' !! TRACKING_FILE = fs w !! TRACKING_FILE ->
  on_disk json_load w' = on_disk json_load w.
Proof.
  intros H. unfold on_disk, DownloadTracker, load_tracking_data. simpl.
  rewrite H. destruct (fs w !! TRACKING_FILE) as [[d|b]|]; try reflexivity.
  destruct (json_load b); reflexivity.
Qed.

Lemma on_disk_json w d :
  fs w !! TRACKING_FILE = Some (Json d) -> on_disk json_load w = Some d.
Proof.
  intros H. unfold on_disk, DownloadTracker, load_tracking_data. simpl.
  rewrite H. reflexivity.
Qed.

Lemma mark_downloaded_synced t url filename title w :
  tracking_file t = TRACKING_FILE ->
  let r := mark_downloaded t url filename title w in
  tracking_file r.1 = TRACKING_FILE /\ on_disk json_load r.2 = Some (data r.1).
Proof.
  intros Ht. simpl. split; [exact Ht|].
  apply on_disk_json. simpl. rewrite Ht. apply lookup_insert_eq.
Qed.

Lemma process_entry_synced total idx title url b :
  synced json_load b -> synced json_load (process_entry total idx title url b).
Proof.
  intros [Ht Hd]. unfold Downloader.process_entry.
  destruct (is_downloaded (trk b) url); [by split|].
  destruct (path_exists _ _).
  - apply (mark_downloaded_synced (trk b)); auto.
  - match goal with
    | |- context [download_file url ?p MAX_RETRIES ?w] =>
        pose proof (download_file_frame url p MAX_RETRIES TRACKING_FILE w) as Hfr;
        destruct (download_file url p MAX_RETRIES w) as [ok w']
    end.
    simpl in Hfr.
    destruct ok, (idx <? total); unfold synced; simpl; split; auto;
      try (apply on_disk_json; simpl; rewrite Ht; apply lookup_insert_eq);
      rewrite <- Hd; apply on_disk_frame; apply Hfr;
      intros Heq; symmetry in Heq; by apply download_path_not_ledger in Heq.
Qed.

Lemma batch_loop_synced pdf_urls : forall total idx b,
  synced json_load b -> synced json_load (batch_loop total idx pdf_urls b).
Proof.
  induction pdf_urls as [|[title url] rest IH]; intros total idx b H; simpl.
  - exact H.
  - apply IH. by apply process_entry_synced.
Qed.

(** The start of [main]: what the constructor reads is what the disk has, and
    it sends no request and writes nothing. *)
Lemma start_batch_Built w t w0 :
  start_batch json_load w = (Built t, w0) ->
  t = {| tracking_file := TRACKING_FILE; data := data t |} /\
  on_disk json_load w = Some (data t) /\
  fs w0 = fs w /\ requests w0 = requests w.
Proof.
  intros H. unfold on_disk. unfold start_batch in H. rewrite H. simpl.
  revert H. unfold DownloadTracker, load_tracking_data. simpl.
  destruct (fs w !! TRACKING_FILE) as [[d|b]|]; [|destruct (json_load b)|];
    intros H; inversion H; subst; simpl; repeat split; auto;
    rewrite ?requests_log; simpl; rewrite ?requests_log; simpl; lia.
Qed.

Lemma run_batch_on_disk pdf_urls w d :
  on_disk json_load w = Some d ->
  exists w0, fs w0 = fs w /\ requests w0 = requests w /\
    let b0 := {| trk := {| tracking_file := TRACKING_FILE; data := d |};
                 env := w0; counts := zero |} in
    run_batch pdf_urls w = Completed (batch_loop (length pdf_urls) 1 pdf_urls b0) /\
    run_outcomes pdf_urls w = Some (outcomes (length pdf_urls) 1 pdf_urls b0).
Proof.
  intros Hd. unfold Downloader.run_batch, Props.run_outcomes.
  destruct (start_batch json_load w) as [c w0] eqn:E.
  destruct c as [t| | |];
    try (unfold on_disk in Hd; unfold start_batch in E; rewrite E in Hd;
         discriminate).
  destruct (start_batch_Built w t w0 E) as (Ht & Hon & Hfs & Hreq).
  rewrite Hd in Hon. injection Hon as Hdt.
  assert (Heq : {| tracking_file := TRACKING_FILE; data := d |} = t)
    by (rewrite Ht, Hdt; reflexivity).
  exists w0. simpl. rewrite Heq. auto.
Qed.

Lemma run_batch_Completed pdf_urls w b :
  run_batch pdf_urls w = Completed b ->
  exists d w0, on_disk json_load w = Some d /\
    fs w0 = fs w /\ requests w0 = requests w /\
    let b0 := {| trk := {| tracking_file := TRACKING_FILE; data := d |};
                 env := w0; counts := zero |} in
    b = batch_loop (length pdf_urls) 1 pdf_urls b0 /\
    run_outcomes pdf_urls w = Some (outcomes (length pdf_urls) 1 pdf_urls b0).
Proof.
  intros H.
  assert (Hd : exists d, on_disk json_load w = Some d).
  { unfold Downloader.run_batch in H.
    destruct (start_batch json_load w) as [c w0] eqn:E.
    destruct c as [t| | |]; try discriminate.
    destruct (start_batch_Built w t w0 E) as (_ & Hon & _). eauto. }
  destruct Hd as [d Hd].
  destruct (run_batch_on_disk pdf_urls w d Hd) as (w0 & Hfs & Hreq & Hrun & Hout).
  exists d, w0. rewrite Hrun in H. inversion H. auto.
Qed.

(** The outcome of an entry: which counter it raises, and what the ledger has
    of it afterwards. *)
Lemma process_entry_counts total idx title url b :
  let b' := process_entry total idx title url b in
  (counts b' = count_skipped (counts b) /\ is_downloaded (trk b') url = true) \/
  (counts b' = count_downloaded (counts b) /\
   is_downloaded (trk b') url = true) \/
  counts b' = count_failed (counts b).
Proof.
  unfold Downloader.process_entry.
  destruct (is_downloaded (trk b) url) eqn:Hd; [left; auto|].
  destruct (path_exists _ _).
  - left. simpl. split; [reflexivity|].
    unfold is_downloaded. simpl. rewrite lookup_insert_eq.
    apply bool_decide_eq_true. eauto.
  - destruct (download_file _ _ _ _) as [[|] w'] eqn:E.
    + right. left. destruct (idx <? total); simpl; (split; [reflexivity|]);
        unfold is_downloaded; simpl; rewrite lookup_insert_eq;
        apply bool_decide_eq_true; eauto.
    + right. right. destruct (idx <? total); reflexivity.
Qed.

Lemma outcome_of_count c o : outcome_of c (count_outcome c o) = o.
Proof.
  destruct o; unfold outcome_of; simpl;
    repeat match goal with
           | |- context [?a <? ?b] => destruct (Nat.ltb_spec a b)
           end; try reflexivity; lia.
Qed.

Lemma process_entry_tally total idx title url b :
  let b' := process_entry total idx title url b in
  counts b' = count_outcome (counts b) (outcome_of (counts b) (counts b')).
Proof.
  intros b'.
  destruct (process_entry_counts total idx title url b) as [[H _]|[[H _]|H]];
    fold b' in H; rewrite H.
  - by rewrite (outcome_of_count (counts b) Skipped
                  : outcome_of _ (count_skipped _) = _).
  - by rewrite (outcome_of_count (counts b) Downloaded
                  : outcome_of _ (count_downloaded _) = _).
  - by rewrite (outcome_of_count (counts b) Failed
                  : outcome_of _ (count_failed _) = _).
Qed.

(** The counters of the loop add up the outcomes of its entries. *)
Lemma batch_loop_tally pdf_urls : forall total idx b,
  counts (batch_loop total idx pdf_urls b) =
    fold_left count_outcome (outcomes total idx pdf_urls b) (counts b).
Proof.
  induction pdf_urls as [|[title url] rest IH]; intros total idx b;
    cbn [Downloader.batch_loop Props.outcomes fold_left]; [reflexivity|].
  rewrite IH. f_equal. apply process_entry_tally.
Qed.

Lemma outcomes_length pdf_urls : forall total idx b,
  length (outcomes total idx pdf_urls b) = length pdf_urls.
Proof.
  induction pdf_urls as [|[title url] rest IH]; intros total idx b;
    cbn [Props.outcomes length]; [reflexivity|].
  by rewrite IH.
Qed.

(** An entry that the ledger has is skipped. *)
Lemma outcomes_skipped pdf_urls : forall total idx b i title url,
  pdf_urls !! i = Some (title, url) ->
  is_downloaded (trk b) url = true ->
  outcomes total idx pdf_urls b !! i = Some Skipped.
Proof.
  induction pdf_urls as [|[t u] rest IH]; intros total idx b i title url Hi Hd;
    [discriminate|].
  cbn [Props.outcomes]. destruct i as [|i]; simpl in Hi.
  - inversion Hi; subst. simpl. f_equal.
    unfold Downloader.process_entry. rewrite Hd. simpl.
    apply (outcome_of_count _ Skipped).
  - simpl. apply (IH _ _ _ i title url Hi). by apply process_entry_keeps.
Qed.

(** An entry that was downloaded or skipped is in the ledger at the end. *)
Lemma outcomes_marked pdf_urls : forall total idx b i title url o,
  pdf_urls !! i = Some (title, url) ->
  outcomes total idx pdf_urls b !! i = Some o ->
  o <> Failed ->
  is_downloaded (trk (batch_loop total idx pdf_urls b)) url = true.
Proof.
  induction pdf_urls as [|[t u] rest IH];
    intros total idx b i title url o Hi Ho Hne; [discriminate|].
  cbn [Props.outcomes] in Ho. cbn [Downloader.batch_loop].
  destruct i as [|i]; simpl in Hi, Ho.
  - inversion Hi; subst. inversion Ho as [Ho']. apply batch_loop_keeps.
    destruct (process_entry_counts total idx title url b) as [[_ H]|[[_ H]|H]];
      auto.
    exfalso. apply Hne. rewrite <- Ho', H. apply (outcome_of_count _ Failed).
  - eapply IH; eauto.
Qed.

(** Settled entries are not downloaded. *)
Lemma outcomes_settled pdf_urls : forall total idx b,
  Forall (fun e => settled remote (trk b) e.2) pdf_urls ->
  Forall (fun o => o <> Downloaded) (outcomes total idx pdf_urls b).
Proof.
  induction pdf_urls as [|[title url] rest IH]; intros total idx b Hall;
    cbn [Props.outcomes]; [constructor|].
  inversion Hall as [|e l Hhead Hrest]; subst. simpl in Hhead.
  constructor.
  - destruct (process_entry_settled total idx title url b Hhead) as [H1 _].
    unfold outcome_of. rewrite H1, Nat.ltb_irrefl.
    destruct (_ <? _); discriminate.
  - apply IH. eapply Forall_impl; [exact Hrest|]. intros e He.
    eapply settled_keeps; [|exact He]. apply process_entry_keeps.
Qed.

(** Two lists of outcomes, the second skipping what the first did not fail:
    the second skips at least what the first downloaded or skipped, and fails
    at most what the first failed. *)
Lemma tally_rerun os1 : forall os2 c1 c2,
  length os1 = length os2 ->
  (forall i o, os1 !! i = Some o -> o <> Failed -> os2 !! i = Some Skipped) ->
  let r1 := fold_left count_outcome os1 c1 in
  let r2 := fold_left count_outcome os2 c2 in
  downloaded r1 + skipped r1 + skipped c2
    <= skipped r2 + downloaded c1 + skipped c1 /\
  failed r2 + failed c1 <= failed r1 + failed c2.
Proof.
  induction os1 as [|o1 os1 IH]; intros [|o2 os2] c1 c2 Hlen Hp;
    simpl in Hlen; try discriminate; cbn [fold_left].
  - lia.
  - destruct (IH os2 (count_outcome c1 o1) (count_outcome c2 o2)) as [H1 H2];
      [lia|intros i o; apply (Hp (S i) o)|].
    pose proof (Hp 0 o1 eq_refl) as H0. simpl in H0.
    destruct o1, o2; simpl in *; try lia;
      assert (Habs : Some Failed = Some Skipped \/ Some Downloaded = Some Skipped)
        by (first [left; apply H0; discriminate|right; apply H0; discriminate]);
      destruct Habs; discriminate.
Qed.

(** C7, as amended. With a remote that answers each URL the same way at every
    request, a second run over the same entries, started from the files the
    first run left, reaches its loop as the first did and downloads nothing.
    Entry by entry: what the first run downloaded or skipped, the second
    skips; no entry is downloaded, so what the first run failed, the second
    fails again or skips.  The counters of each run add up its outcomes, so
    the second run skips at least as many entries as the first downloaded or
    skipped, fails at most as many as the first failed, and skips them all
    when the first failed none. *)
Theorem rerun_downloads_nothing (pdf_urls : list (string * string)) (w : world)
    (first : batch) :
  stable remote ->
  run_batch pdf_urls w = Completed first ->
  exists second o1 o2,
    run_batch pdf_urls (env first) = Completed second /\
    run_outcomes pdf_urls w = Some o1 /\
    run_outcomes pdf_urls (env first) = Some o2 /\
    length o1 = length pdf_urls /\ length o2 = length pdf_urls /\
    counts first = tally o1 /\ counts second = tally o2 /\
    (forall i o, o1 !! i = Some o -> o <> Failed -> o2 !! i = Some Skipped) /\
    (forall i, o2 !! i <> Some Downloaded) /\
    downloaded (counts second) = 0 /\
    skipped (counts second) + failed (counts second) = length pdf_urls /\
    downloaded (counts first) + skipped (counts first)
      <= skipped (counts second) /\
    failed (counts second) <= failed (counts first) /\
    (failed (counts first) = 0 ->
     skipped (counts second) = length pdf_urls /\ failed (counts second) = 0).
Proof.
  intros Hst E1.
  destruct (run_batch_Completed pdf_urls w first E1)
    as (d & w0 & Hd & Hw0 & _ & Hfirst & Ho1).
  set (b0 := {| trk := {| tracking_file := TRACKING_FILE; data := d |};
                env := w0; counts := zero |}) in *.
  assert (Hsync : synced json_load first).
  { rewrite Hfirst. apply batch_loop_synced. split; [reflexivity|].
    simpl. rewrite <- Hd. apply on_disk_frame. by rewrite Hw0. }
  destruct Hsync as [Ht Hdisk].
  destruct (run_batch_on_disk pdf_urls (env first) _ Hdisk)
    as (w1 & _ & _ & E2 & Ho2).
  assert (Htrk : {| tracking_file := TRACKING_FILE; data := data (trk first) |}
                 = trk first).
  { destruct (trk first) as [tf dt]. simpl in *. by subst. }
  rewrite Htrk in E2, Ho2.
  set (b1 := {| trk := trk first; env := w1; counts := zero |}) in *.
  assert (Hsettled : Forall (fun e => settled remote (trk b1) e.2) pdf_urls).
  { simpl. rewrite Hfirst. by apply batch_loop_settles. }
  destruct (batch_loop_settled pdf_urls (length pdf_urls) 1 b1 Hsettled)
    as [H1 H2].
  simpl in H1, H2.
  set (o1 := outcomes (length pdf_urls) 1 pdf_urls b0) in *.
  set (o2 := outcomes (length pdf_urls) 1 pdf_urls b1) in *.
  set (second := batch_loop (length pdf_urls) 1 pdf_urls b1) in *.
  assert (Hl1 : length o1 = length pdf_urls) by apply outcomes_length.
  assert (Hl2 : length o2 = length pdf_urls) by apply outcomes_length.
  assert (Hc1 : counts first = tally o1).
  { rewrite Hfirst. apply batch_loop_tally. }
  assert (Hc2 : counts second = tally o2) by apply batch_loop_tally.
  assert (Hagain : forall i o,
            o1 !! i = Some o -> o <> Failed -> o2 !! i = Some Skipped).
  { intros i o Hi Hne.
    assert (Hlt : i < length pdf_urls).
    { rewrite <- Hl1. apply lookup_lt_is_Some. eauto. }
    apply lookup_lt_is_Some in Hlt. destruct Hlt as [[title url] Hu].
    apply (outcomes_skipped pdf_urls _ _ b1 i title url Hu).
    simpl. rewrite Hfirst.
    apply (outcomes_marked pdf_urls _ _ b0 i title url o Hu Hi Hne). }
  destruct (tally_rerun o1 o2 zero zero) as [H3 H4]; [lia|exact Hagain|].
  fold (tally o1) in H3, H4. fold (tally o2) in H3, H4.
  rewrite <- Hc1, <- Hc2 in H3, H4. simpl in H3, H4.
  exists second, o1, o2.
  repeat (split; [assumption|]).
  split.
  { intros i Hi.
    pose proof (outcomes_settled pdf_urls (length pdf_urls) 1 b1 Hsettled) as Hf.
    rewrite Forall_lookup in Hf. by apply (Hf i Downloaded Hi). }
  do 4 (split; [lia|]). intros Hz. lia.
Qed.

End BatchFacts.

(* ===================================================================== *)
(** * Instances of the batch properties *)
(* ===================================================================== *)

(** An instance of retry exhaustion: a remote that refuses every request, an
    empty disk, one entry. *)
Lemma retry_exhaustion_witness :
  let remote := fun (_ : nat) (_ : string) => Downloader.Refused in
  let w := {| Downloader.fs := ∅; Downloader.trace := [] |} in
  let r := Downloader.download_file remote "http://x/a.pdf" "downloaded_pdfs/a.pdf"
             Downloader.MAX_RETRIES w in
  let b := {| Downloader.trk :=
                {| Downloader.tracking_file := Downloader.TRACKING_FILE;
                   Downloader.data := Downloader.fresh |};
              Downloader.env := w;
              Downloader.counts :=
                {| Downloader.downloaded := 0; Downloader.skipped := 0;
                   Downloader.failed := 0 |} |} in
  let b' := Downloader.process_entry remote (fun _ => "2026-01-01 00:00:00")
              1 1 "a" "http://x/a.pdf" b in
  (r.1 = false /\
   Downloader.requests r.2 = Downloader.requests w + Downloader.MAX_RETRIES /\
   Downloader.fs r.2 !! "downloaded_pdfs/a.pdf" = None) /\
  (Downloader.counts b' = Downloader.count_failed (Downloader.counts b) /\
   Downloader.trk b' = Downloader.trk b /\
   Downloader.fs (Downloader.env b') !! Downloader.TRACKING_FILE = None).
Proof.
  intros remote w r b b'.
  destruct (retry_exhaustion remote (fun _ => "2026-01-01 00:00:00") "http://x/a.pdf")
    as [H1 H2].
  - reflexivity.
  - split.
    + destruct (H1 "downloaded_pdfs/a.pdf" w) as (Ha & Hb & Hc & _). auto.
    + destruct (H2 1 1 "a" b) as (Ha & Hb & Hc & _);
        [reflexivity|reflexivity|]. auto.
Defined.

(** One entry and a remote that refuses every request: the first run fails
    the entry, and the second run does not skip it, it fails again. *)
Lemma rerun_not_all_skipped : ~ Props.rerun_skips_all.
Proof.
  intros H.
  pose (remote := fun (_ : nat) (_ : string) => Downloader.Refused).
  pose (clock := fun _ : nat => "2026-01-01 00:00:00").
  pose (json_load := fun _ : string => Downloader.Invalid).
  pose (pdf_urls := [("Case", "http://x/a.pdf")]).
  pose (w := {| Downloader.fs := ∅; Downloader.trace := [] |}).
  pose (first := Downloader.batch_loop remote clock 1 1 pdf_urls
                   {| Downloader.trk :=
                        {| Downloader.tracking_file := Downloader.TRACKING_FILE;
                           Downloader.data := Downloader.fresh |};
                      Downloader.env :=
                        Downloader.log (Downloader.Exists Downloader.TRACKING_FILE) w;
                      Downloader.counts := Downloader.zero |}).
  destruct (H remote clock json_load pdf_urls w first) as (second & E & _ & Hs).
  - intros n m url. reflexivity.
  - reflexivity.
  - vm_compute in E. inversion E as [E']. rewrite <- E' in Hs.
    vm_compute in Hs. discriminate.
Qed.

(** An instance: one URL that answers, one that is refused, on an empty disk.
    The first run downloads the one and fails the other; the second run skips
    the one and fails the other again. *)
Lemma rerun_downloads_nothing_witness :
  let remote := fun (_ : nat) (url : string) =>
    if String.eqb url "http://x/a.pdf" then Downloader.Body ["%PDF"; "-1.4"] true
    else Downloader.Refused in
  let clock := fun _ : nat => "2026-01-01 00:00:00" in
  let json_load := fun _ : string => Downloader.Invalid in
  let pdf_urls := [("Case A", "http://x/a.pdf"); ("Case B", "http://x/b.pdf")] in
  let w := {| Downloader.fs := ∅; Downloader.trace := [] |} in
  exists first second,
    Downloader.run_batch remote clock json_load pdf_urls w
      = Downloader.Completed first /\
    Downloader.run_batch remote clock json_load pdf_urls (Downloader.env first)
      = Downloader.Completed second /\
    Props.run_outcomes remote clock json_load pdf_urls w
      = Some [Props.Downloaded; Props.Failed] /\
    Props.run_outcomes remote clock json_load pdf_urls (Downloader.env first)
      = Some [Props.Skipped; Props.Failed] /\
    Downloader.counts first
      = {| Downloader.downloaded := 1; Downloader.skipped := 0;
           Downloader.failed := 1 |} /\
    Downloader.counts second
      = {| Downloader.downloaded := 0; Downloader.skipped := 1;
           Downloader.failed := 1 |}.
Proof.
  intros remote clock json_load pdf_urls w.
  eexists. 
  assert (E : Downloader.run_batch remote clock json_load pdf_urls w
              = Downloader.Completed _) by (vm_compute; reflexivity).
  destruct (rerun_downloads_nothing remote clock json_load pdf_urls w _
              (fun n m url => eq_refl) E)
    as (second & o1 & o2 & E2 & Ho1 & Ho2 & _ & _ & Hc1 & Hc2 & _).
  exists second.
  split; [exact E|]. split; [exact E2|].
  assert (H1 : o1 = [Props.Downloaded; Props.Failed]).
  { vm_compute in Ho1. by inversion Ho1. }
  assert (H2 : o2 = [Props.Skipped; Props.Failed]).
  { vm_compute in Ho2. by inversion Ho2. }
  subst o1 o2. repeat split; auto.
Defined.

(* ===================================================================== *)
(** * Properties: catalog discovery *)
(* ===================================================================== *)

Section CatalogFacts.
Import PyStr Html Catalog Props.

(** The authors after the loop over the paragraphs are those of the last
    paragraph that starts with [By ]: each one overwrites the one before. *)
Lemma classify_authors acc p :
  f_authors (classify acc p) =
    if startswith "By " (get_text_strip p) then authors_of p else f_authors acc.
Proof.
  unfold classify.
  destruct (startswith "By " (get_text_strip p)); [reflexivity|].
  destruct (contains "," (get_text_strip p) && _); [reflexivity|].
  destruct (len (f_description acc) <? len (get_text_strip p)); reflexivity.
Qed.

Lemma fold_classify_authors p_tags : forall acc,
  f_authors (fold_left classify p_tags acc) =
    match last (List.filter (fun p => startswith "By " (get_text_strip p)) p_tags) with
    | Some p => authors_of p
    | None => f_authors acc
    end.
Proof.
  induction p_tags as [|p rest IH]; intros acc; simpl; [reflexivity|].
  rewrite IH, classify_authors.
  destruct (startswith "By " (get_text_strip p)); [|reflexivity].
  destruct (List.filter _ rest) as [|q qs]; [reflexivity|].
  rewrite last_cons_cons.
  destruct (last (q :: qs)) eqn:E; [reflexivity|].
  by apply last_None in E.
Qed.

(** C2, as amended. The authors of a parsed anchor are the comma-split,
    trimmed text, without its first three characters, of the LAST paragraph
    whose text starts with [By ]; none when no paragraph does. *)
Theorem authors_from_last (case_elem : node) :
  authors (parse_case_element case_elem) =
    match last (bylines case_elem) with
    | Some p => authors_of p
    | None => []
    end.
Proof. unfold parse_case_element, bylines. simpl. apply fold_classify_authors. Qed.

(** With the two paragraphs [By Ada, Bob] and [By Cy] the authors are those
    of the second. *)
Lemma authors_not_from_first : ~ authors_from_first.
Proof. intros H. specialize (H two_bylines). vm_compute in H. discriminate. Qed.

(** [int] on a few strings: blanks at both ends, a sign and an underscore
    are read; the separator [0x1c], a blank after the sign and more than 4300
    digits are errors. *)
Example int_of_str_examples :
  int_of_str "10" = Some 10%Z /\
  int_of_str (String (ascii_of_nat 160) " +1_0" +:+ String LF "") = Some 10%Z /\
  int_of_str "-007" = Some (-7)%Z /\
  int_of_str (String (ascii_of_nat 28) "10") = None /\
  int_of_str "- 10" = None /\
  int_of_str "1__0" = None /\
  int_of_str "" = None /\
  (exists n, int_of_str (string_of_list_ascii (repeat "1"%char 4300)) = Some n) /\
  int_of_str (string_of_list_ascii (repeat "0"%char 4301)) = None.
Proof.
  repeat split; try (vm_compute; reflexivity).
  eexists. vm_compute. reflexivity.
Qed.

Section Fetch.
Variable http_get : string -> option string.
Variable api_get : string -> string -> Z -> option string.
Variable BeautifulSoup : string -> node.
Variable query_param : string -> string -> option string.

Abbreviation pagination := (pagination api_get BeautifulSoup).
Abbreviation batch_elements := (batch_elements BeautifulSoup).
Abbreviation fetch_all_cases :=
  (fetch_all_cases http_get api_get BeautifulSoup query_param).

Lemma collect_app case_elements : forall all_cases,
  collect all_cases case_elements = all_cases ++ collect [] case_elements.
Proof.
  unfold collect.
  induction case_elements as [|e rest IH]; intros all_cases; simpl.
  - by rewrite app_nil_r.
  - rewrite IH. rewrite (IH (if has_title _ then _ else _)).
    destruct (has_title (parse_case_element e)); simpl;
      by rewrite <- ?app_assoc.
Qed.

Lemma offsets_shift (offset : Z) n :
  offset :: map (fun k => offset + 10 + 10 * Z.of_nat k)%Z (seq 0 n)
  = map (fun k => offset + 10 * Z.of_nat k)%Z (seq 0 (S n)).
Proof.
  simpl. f_equal; [lia|].
  rewrite <- seq_shift, map_map. apply map_ext. intros k. lia.
Qed.

(** The loop over a run of productive batches closed by a final one. *)
Lemma pagination_run pid base_nid bodies : forall fuel offset all_cases asked last_body,
  (forall k body, bodies !! k = Some body ->
     api_get pid base_nid (offset + 10 * Z.of_nat k) = Some body /\
     productive BeautifulSoup body) ->
  api_get pid base_nid (offset + 10 * Z.of_nat (length bodies)) = Some last_body ->
  final BeautifulSoup last_body ->
  length bodies < fuel ->
  pagination fuel pid base_nid offset all_cases asked =
    Some {| cases := all_cases ++
                     flat_map (fun body => collect [] (batch_elements body)) bodies;
            offsets := asked ++
                       map (fun k => offset + 10 * Z.of_nat k)%Z
                         (seq 0 (S (length bodies))) |}.
Proof.
  induction bodies as [|body rest IH];
    intros fuel offset all_cases asked last_body Hb Hlast Hfin Hfuel;
    (destruct fuel as [|fuel]; [simpl in Hfuel; lia|]).
  - assert (Hz : (offset + 10 * Z.of_nat 0)%Z = offset) by lia.
    change (length (@nil string)) with 0 in *. rewrite Hz in Hlast.
    cbn [Catalog.pagination]. rewrite Hlast.
    cbn [seq map flat_map]. rewrite Hz, app_nil_r.
    destruct Hfin as [-> | Hnone]; [reflexivity|].
    destruct (blank last_body); [reflexivity|]. by rewrite Hnone.
  - assert (Hz : (offset + 10 * Z.of_nat 0)%Z = offset) by lia.
    destruct (Hb 0 body eq_refl) as (Hget & Hnb & Hel).
    rewrite Hz in Hget.
    cbn [Catalog.pagination]. rewrite Hget, Hnb.
    destruct (batch_elements body) as [|e es] eqn:E; [congruence|].
    rewrite (IH fuel (offset + 10)%Z _ _ last_body).
    + f_equal. cbn [flat_map length]. rewrite E, collect_app.
      rewrite <- !app_assoc. f_equal. f_equal. f_equal.
      apply (offsets_shift offset (S (length rest))).
    + intros k b Hk. destruct (Hb (S k) b Hk) as [H1 H2]. split; [|exact H2].
      rewrite <- H1. f_equal. lia.
    + rewrite <- Hlast. f_equal. simpl length. lia.
    + exact Hfin.
    + simpl in Hfuel. lia.
Qed.

(** The records of the code are those of the specification. *)
Lemma has_title_titled c : has_title c = titled c.
Proof. unfold has_title, titled. by destruct (title c) as [[|]|]. Qed.

Lemma collect_titled case_elements :
  collect [] case_elements = titled_records case_elements.
Proof.
  unfold titled_records.
  induction case_elements as [|e rest IH]; [reflexivity|].
  unfold collect. cbn [fold_left map List.filter].
  fold (collect (if has_title (parse_case_element e)
                 then [] ++ [parse_case_element e] else []) rest).
  rewrite collect_app, IH, has_title_titled.
  by destruct (titled (parse_case_element e)).
Qed.

Lemma filter_both {A} (f g : A -> bool) l :
  List.filter g (List.filter f l) = List.filter (fun x => f x && g x) l.
Proof.
  induction l as [|x l IH]; [reflexivity|]. simpl.
  destruct (f x); simpl; [destruct (g x)|]; by rewrite IH.
Qed.

Lemma initial_cases_titled soup :
  initial_cases soup = titled_records (first_page_anchors soup).
Proof.
  unfold initial_cases, first_page_anchors, find_all.
  by rewrite collect_titled, filter_both.
Qed.

Lemma batch_records body :
  collect [] (batch_elements body)
  = titled_records (batch_anchors (BeautifulSoup body)).
Proof. apply collect_titled. Qed.

Lemma is_final_true body : is_final BeautifulSoup body = true -> final BeautifulSoup body.
Proof.
  unfold is_final, final. destruct (blank body); [by left|]. simpl.
  destruct (Catalog.batch_elements BeautifulSoup body); [by right|discriminate].
Qed.

Lemma is_final_false body :
  is_final BeautifulSoup body = false -> productive BeautifulSoup body.
Proof.
  unfold is_final, productive. destruct (blank body); [discriminate|]. simpl.
  destruct (Catalog.batch_elements BeautifulSoup body); [discriminate|].
  by split.
Qed.

Lemma final_not_productive body :
  final BeautifulSoup body -> productive BeautifulSoup body -> False.
Proof. intros [Hb|He] [Hnb Hne]; congruence. Qed.

(** A sequence whose last response ends the loop splits at the first one that
    does. *)
Lemma before_final_split bodies :
  (exists body, last bodies = Some body /\ final BeautifulSoup body) ->
  exists stop rest,
    bodies = before_final BeautifulSoup bodies ++ stop :: rest /\
    final BeautifulSoup stop /\
    Forall (productive BeautifulSoup) (before_final BeautifulSoup bodies).
Proof.
  induction bodies as [|body rest IH]; intros (l & Hl & Hfin); [discriminate|].
  cbn [before_final].
  destruct (is_final BeautifulSoup body) eqn:E.
  - exists body, rest. split; [reflexivity|].
    split; [by apply is_final_true|constructor].
  - destruct rest as [|r rs].
    + simpl in Hl. inversion Hl; subst.
      destruct (final_not_productive l Hfin (is_final_false l E)).
    + destruct IH as (stop & rest' & Hs & Hf & Hp); [by exists l|].
      exists stop, rest'. split; [cbn [app]; f_equal; exact Hs|].
      split; [exact Hf|]. constructor; [by apply is_final_false|exact Hp].
Qed.

(** When every response before the last goes on, the first that ends the loop
    is the last. *)
Lemma before_final_removelast bodies :
  (exists body, last bodies = Some body /\ final BeautifulSoup body) ->
  (forall k body, S k < length bodies -> bodies !! k = Some body ->
     productive BeautifulSoup body) ->
  before_final BeautifulSoup bodies = removelast bodies.
Proof.
  induction bodies as [|body rest IH]; intros (l & Hl & Hfin) Hp; [reflexivity|].
  cbn [before_final].
  destruct rest as [|r rs].
  - simpl in Hl. inversion Hl; subst.
    destruct (is_final BeautifulSoup l) eqn:E; [reflexivity|].
    destruct (final_not_productive l Hfin (is_final_false l E)).
  - destruct (is_final BeautifulSoup body) eqn:E.
    + apply is_final_true in E.
      destruct (final_not_productive body E (Hp 0 body ltac:(simpl; lia) eq_refl)).
    + change (removelast (body :: r :: rs)) with (body :: removelast (r :: rs)).
      f_equal. apply IH; [by exists l|].
      intros k b Hk Hb. apply (Hp (S k) b); [simpl in *; lia|exact Hb].
Qed.

(** C8, as amended. Let the first page carry the load-more parameters, and
    let the API answer the offsets [offset], [offset + 10], ... with the
    responses of a finite sequence, in order, the last of which is blank or
    has no anchor into the library.  Then [fetch_all_cases] returns (any fuel
    that is at least the length of the sequence is enough), and it stops at
    the FIRST response that is blank or has no such anchor: it returns the
    titled records of the first page followed by those of the responses
    before that one, in order, and the offsets it sent advance by 10 from the
    load-more offset up to that response.  When every response before the
    last has such anchors, these are all the responses but the last. *)
Theorem pagination_stops_at_final_batch (fuel : nat) (page_url text : string)
    (pid base_nid : string) (offset : Z) (bodies : list string) :
  http_get page_url = Some text ->
  load_more_params BeautifulSoup query_param text pid base_nid offset ->
  (forall k body, bodies !! k = Some body ->
     api_get pid base_nid (offset + 10 * Z.of_nat k) = Some body) ->
  (exists body, last bodies = Some body /\ final BeautifulSoup body) ->
  length bodies <= fuel ->
  let batches := before_final BeautifulSoup bodies in
  fetch_all_cases fuel page_url =
    Some (Returned
      {| cases := titled_records (first_page_anchors (BeautifulSoup text)) ++
                  flat_map
                    (fun body => titled_records (batch_anchors (BeautifulSoup body)))
                    batches;
         offsets := map (fun k => offset + 10 * Z.of_nat k)%Z
                      (seq 0 (S (length batches))) |}) /\
  length batches < length bodies /\
  ((forall k body, S k < length bodies -> bodies !! k = Some body ->
      productive BeautifulSoup body) ->
   batches = removelast bodies).
Proof.
  intros Hpage (lm & lm_url & Hlm & Hhref & Hurl & Hpid & Hpidt & Hnid & Hnidt & Hoff)
    Hb Hlast Hfuel batches.
  destruct (before_final_split bodies Hlast) as (stop & rest & Hs & Hfin & Hprod).
  fold batches in Hs, Hprod.
  assert (Hlen : length batches < length bodies).
  { pose proof (f_equal length Hs) as HL. rewrite length_app in HL.
    simpl in HL. lia. }
  split; [|split; [exact Hlen|by apply before_final_removelast]].
  unfold Catalog.fetch_all_cases.
  rewrite Hpage, Hlm, Hhref.
  change (default "" (Some lm_url)) with lm_url.
  rewrite Hurl, Hoff, Hpid, Hnid, Hpidt, Hnidt. cbn [negb andb].
  rewrite (pagination_run pid base_nid batches fuel offset _ [] stop).
  - cbn [fmap option_fmap option_map app]. do 3 f_equal.
    rewrite initial_cases_titled. f_equal.
    apply flat_map_ext. intros body. apply batch_records.
  - intros k body Hk. split.
    + apply Hb. rewrite Hs. by apply lookup_app_l_Some.
    + rewrite Forall_lookup in Hprod. by apply (Hprod k).
  - apply Hb. rewrite Hs. apply list_lookup_middle. reflexivity.
  - exact Hfin.
  - lia.
Qed.

End Fetch.

End CatalogFacts.

(* ===================================================================== *)
(** * Properties: subgroup links *)
(* ===================================================================== *)

Section SubgroupFacts.
Import PyStr Html Subgroups Props.

Variable fetch : string -> option string.
Variable BeautifulSoup : string -> node.
Variable urljoin : string -> string -> string.

Abbreviation visit := (visit urljoin).
Abbreviation get_case_study_links :=
  (get_case_study_links fetch BeautifulSoup urljoin).

Lemma existsb_eqb_false (x : string) l :
  existsb (String.eqb x) l = false -> ~ In x l.
Proof.
  intros H Hin. apply not_true_iff_false in H. apply H.
  apply existsb_exists. exists x. split; [exact Hin|apply String.eqb_refl].
Qed.

Lemma visit_well_formed base_url links a :
  well_formed base_url links -> well_formed base_url (visit base_url links a).
Proof.
  intros [Hnd Hall]. unfold Subgroups.visit.
  destruct (contains _ _ && contains _ _); [|by split].
  destruct (negb (String.eqb _ base_url)) eqn:Hne; [|by split].
  destruct (negb (existsb _ _)) eqn:Hnew; [|by split].
  destruct (truthy (get_text_strip a)) eqn:Ht; [|by split].
  apply negb_true_iff in Hne, Hnew.
  apply String.eqb_neq in Hne. apply existsb_eqb_false in Hnew.
  cbn [andb]. split.
  - rewrite map_app. simpl. apply NoDup_app. repeat split; auto.
    + intros x Hx Hx'. apply list_elem_of_In in Hx. apply list_elem_of_In in Hx'.
      destruct Hx' as [<-|[]]. contradiction.
    + apply NoDup_singleton.
  - apply Forall_app. split; [exact Hall|].
    constructor; [|constructor]. simpl. split; [exact Hne|].
    intros E. rewrite E in Ht. discriminate.
Qed.

Lemma fold_visit_well_formed base_url anchors : forall links,
  well_formed base_url links ->
  well_formed base_url (fold_left (visit base_url) anchors links).
Proof.
  induction anchors as [|a rest IH]; intros links H; simpl; [exact H|].
  apply IH. by apply visit_well_formed.
Qed.

(** C10. The links [get_case_study_links] returns have pairwise distinct
    URLs, none of them the base URL, and titles that are not empty; when the
    request fails the function returns the empty list. *)
Theorem case_study_links_invariant (base_url : string) :
  let links := get_case_study_links base_url in
  NoDup (map l_url links) /\
  Forall (fun l => l_url l <> base_url /\ l_title l <> "") links /\
  (fetch base_url = None -> links = []).
Proof.
  unfold Subgroups.get_case_study_links.
  destruct (fetch base_url) as [content|].
  - destruct (fold_visit_well_formed base_url
                (find_all "a" has_href (BeautifulSoup content)) [])
      as [H1 H2].
    + split; constructor.
    + repeat split; auto. discriminate.
  - repeat split; constructor.
Qed.

End SubgroupFacts.


(** The mocked listing: the first page, the batch at offset 10 and the empty
    answer at offset 20.  The two records, and the two offsets. *)
Lemma pagination_stops_witness :
  Catalog.fetch_all_cases Mock.http_get Mock.api_get Mock.BeautifulSoup
    Mock.query_param 2 "https://mitsloan.mit.edu/teaching-resources-library/mit-sloan-case-studies-0"
  = Some (Catalog.Returned
      {| Catalog.cases := [Mock.first_record; Mock.second_record];
         Catalog.offsets := [10; 20]%Z |}).
Proof.
  etransitivity.
  - apply (pagination_stops_at_final_batch Mock.http_get Mock.api_get
             Mock.BeautifulSoup Mock.query_param 2 _ "page" "66387" "19867" 10
             ["batch"; ""]).
    + reflexivity.
    + exists (Html.Tag "a" [("href", Mock.load_more_url)] [Html.Text "Load More"]),
        Mock.load_more_url.
      repeat split; reflexivity.
    + intros [|[|k]] body H; simpl in H; try discriminate;
        inversion H; subst; reflexivity.
    + exists "". split; [reflexivity|]. left. reflexivity.
    + simpl. lia.
  - vm_compute. reflexivity.
Defined.

(** An empty answer at offset 10, the batch at offset 20 and an empty answer
    at offset 30: the sequence ends with an empty answer, but the loop stops
    at the first one, after one request, and the batch is never asked for. *)
Lemma pagination_stops_at_first_final : ~ Props.stops_at_last_response.
Proof.
  intros H.
  destruct (H Mock.http_get Mock.gap_api Mock.BeautifulSoup Mock.query_param
              "https://mitsloan.mit.edu/" "page" "66387" "19867" 10%Z
              [""; "batch"; ""])
    as (fuel & r & Hr & _ & Ho).
  - reflexivity.
  - exists (Html.Tag "a" [("href", Mock.load_more_url)] [Html.Text "Load More"]),
      Mock.load_more_url.
    repeat split; reflexivity.
  - intros [|[|[|k]]] body Hk; simpl in Hk; try discriminate;
      inversion Hk; subst; reflexivity.
  - exists "". split; [reflexivity|]. left. reflexivity.
  - destruct fuel as [|fuel]; [vm_compute in Hr; discriminate|].
    vm_compute in Hr. inversion Hr as [Hr']. rewrite <- Hr' in Ho.
    vm_compute in Ho. discriminate.
Qed.

Example gap_listing :
  Catalog.fetch_all_cases Mock.http_get Mock.gap_api Mock.BeautifulSoup
    Mock.query_param 5 "https://mitsloan.mit.edu/"
  = Some (Catalog.Returned
      {| Catalog.cases := [Mock.first_record]; Catalog.offsets := [10]%Z |}).
Proof. vm_compute. reflexivity. Qed.

(** Two instances for the subgroup links: a request that fails, and a page with
    the same link twice and a link back to the page itself. *)
Lemma case_study_links_witness :
  Subgroups.get_case_study_links (fun _ => None) Mock.BeautifulSoup
    (fun _ href => href) "https://mitsloan.mit.edu/case-studies" = [] /\
  NoDup (map Subgroups.l_url
    (Subgroups.get_case_study_links (fun _ => Some "page")
       (fun _ => Mock.listing) (fun _ href => href)
       "/teaching-resources-library/case-studies")).
Proof.
  split.
  - apply (case_study_links_invariant (fun _ => None) Mock.BeautifulSoup
             (fun _ href => href) "https://mitsloan.mit.edu/case-studies").
    reflexivity.
  - apply (case_study_links_invariant (fun _ => Some "page")
             (fun _ => Mock.listing) (fun _ href => href)
             "/teaching-resources-library/case-studies").
Defined.

Example case_study_links_listing :
  Subgroups.get_case_study_links (fun _ => Some "page")
    (fun _ => Mock.listing) (fun _ href => href)
    "/teaching-resources-library/case-studies"
  = [ {| Subgroups.l_title := "Operations";
         Subgroups.l_url := "/teaching-resources-library/case-studies/ops" |} ].
Proof. vm_compute. reflexivity. Qed.

(* ===================================================================== *)
(** * More on link extraction *)
(* ===================================================================== *)

Section LinkMore.
Import PyStr Re Links.

(** What one line does to the loop's variables: a link line appends an entry
    under the current title; any other line appends nothing, and changes the
    title only to what the title pattern captured on it. *)
Lemma scan_line_cases st raw :
  (is_pdf_url (strip raw) = true /\
   scan_line st raw =
     Some {| current_title := current_title st;
             urls := urls st ++ [(current_title st, strip raw)] |}) \/
  (is_pdf_url (strip raw) = false /\
   exists t, scan_line st raw = Some {| current_title := t; urls := urls st |} /\
     (t = current_title st \/
      re_match title_re (strip raw) = Some {| group1 := Some t |})).
Proof.
  destruct (is_pdf_url (strip raw)) eqn:P.
  - left. split; [reflexivity|]. by apply scan_line_pdf_url.
  - right. split; [reflexivity|]. unfold scan_line. rewrite P.
    destruct (skipped (strip raw)).
    { exists (current_title st). split; [by destruct st|by left]. }
    destruct (re_match title_re (strip raw)) as [m|] eqn:E.
    + destruct (title_re_group _ _ E) as [t Ht]. rewrite Ht. simpl.
      exists t. split; [reflexivity|]. right. destruct m as [g]. simpl in Ht.
      by subst.
    + exists (current_title st). split; [by destruct st|by left].
Qed.

Lemma scan_lines_urls lines : forall st,
  exists st', scan_lines st lines = Some st' /\
    map snd (urls st') =
      map snd (urls st) ++ List.filter is_pdf_url (map strip lines).
Proof.
  induction lines as [|raw rest IH]; intros st; simpl.
  - exists st. by rewrite app_nil_r.
  - destruct (scan_line_cases st raw) as [[P ->]|[P (t & -> & _)]]; simpl;
      rewrite P.
    + destruct (IH {| current_title := current_title st;
                      urls := urls st ++ [(current_title st, strip raw)] |})
        as (st' & -> & E).
      exists st'. split; [reflexivity|]. rewrite E. simpl.
      rewrite map_app. simpl. by rewrite <- app_assoc.
    + destruct (IH {| current_title := t; urls := urls st |}) as (st' & -> & E).
      exists st'. split; [reflexivity|]. exact E.
Qed.

(** X1. On the text of the links file, once the file is opened and decoded,
    the loop of [extract_pdf_urls] goes through every line and returns; the
    URLs it returns are exactly the stripped lines that start with [http] and
    hold [.pdf] (whatever the case), one entry per such line, in the order of
    the file. *)
Theorem extract_urls_in_order (content : string) :
  map snd <$> extract_pdf_urls content =
    Some (List.filter is_pdf_url
            (map strip (file_lines (universal_newlines content)))).
Proof.
  unfold extract_pdf_urls.
  destruct (scan_lines_urls (file_lines (universal_newlines content))
              {| current_title := ""; urls := [] |}) as (st' & -> & E).
  simpl in *. by rewrite E.
Qed.

(** A title is empty or was captured by the title pattern on a line of [all]. *)
Definition title_of_lines (all : list string) (t : string) : Prop :=
  t = "" \/ exists line, In line all /\
    re_match title_re (strip line) = Some {| group1 := Some t |}.

Lemma scan_lines_titles all lines : forall st,
  (forall x, In x lines -> In x all) ->
  title_of_lines all (current_title st) ->
  Forall (fun e => title_of_lines all e.1) (urls st) ->
  exists st', scan_lines st lines = Some st' /\
    title_of_lines all (current_title st') /\
    Forall (fun e => title_of_lines all e.1) (urls st').
Proof.
  induction lines as [|raw rest IH]; intros st Hsub Ht Hall; simpl.
  - exists st. auto.
  - destruct (scan_line_cases st raw) as [[_ ->]|[_ (t & -> & Hcase)]]; simpl.
    + apply IH; simpl; auto.
      * intros x Hx. apply Hsub. by right.
      * apply Forall_app. split; [exact Hall|]. by constructor.
    + apply IH; simpl; auto.
      * intros x Hx. apply Hsub. by right.
      * destruct Hcase as [->|Hm]; [exact Ht|].
        right. exists raw. split; [apply Hsub; by left|exact Hm].
Qed.

(** X2. Every title [extract_pdf_urls] returns is empty or is the text the
    title pattern captured on a line of the file. *)
Theorem extract_titles_from_title_lines (content : string) :
  exists entries,
    extract_pdf_urls content = Some entries /\
    Forall (fun e =>
              title_of_lines (file_lines (universal_newlines content)) e.1)
      entries.
Proof.
  unfold extract_pdf_urls.
  destruct (scan_lines_titles (file_lines (universal_newlines content))
              (file_lines (universal_newlines content))
              {| current_title := ""; urls := [] |})
    as (st' & -> & _ & H); simpl; auto.
  - by left.
  - eauto.
Qed.

(** A numbered title is not a banner: it starts with a digit. *)
Lemma title_line_not_skipped line m :
  re_match title_re line = Some m -> skipped line = false.
Proof.
  unfold re_match, title_re. cbn [run]. intros H.
  destruct line as [|c s]; [discriminate|].
  unfold plus in H. destruct (isdigit c) eqn:D; [|discriminate].
  unfold skipped, startswith. cbn [truthy negb orb String.prefix].
  destruct (ascii_dec "=" c) as [<-|]; [discriminate|].
  destruct (ascii_dec "P" c) as [<-|]; [discriminate|].
  destruct (ascii_dec "S" c) as [<-|]; [discriminate|].
  reflexivity.
Qed.

Lemma title_line_not_url line m :
  re_match title_re line = Some m -> is_pdf_url line = false.
Proof.
  intros H. destruct (is_pdf_url line) eqn:P; [|reflexivity].
  unfold is_pdf_url in P. apply andb_prop in P as [P _].
  apply startswith_http in P as [rest ->].
  rewrite http_line_title in H. discriminate.
Qed.

Lemma scan_line_title st raw t :
  re_match title_re (strip raw) = Some {| group1 := Some t |} ->
  scan_line st raw = Some {| current_title := t; urls := urls st |}.
Proof.
  intros H. unfold scan_line.
  rewrite (title_line_not_skipped _ _ H), H. reflexivity.
Qed.

(** X3. A link line takes the title of the last numbered title line before
    it: with a title line, then lines that are not title lines, then a link
    line, the entry of the link line carries what the title pattern captured
    on the title line, whatever came before. *)
Theorem url_takes_latest_title (content : string)
    (pre : list string) (t : string) (mid : list string) (l : string)
    (post : list string) (title : string) :
  file_lines (universal_newlines content) = pre ++ t :: mid ++ l :: post ->
  re_match title_re (strip t) = Some {| group1 := Some title |} ->
  (forall x, In x mid -> re_match title_re (strip x) = None) ->
  is_pdf_url (strip l) = true ->
  exists before after,
    extract_pdf_urls content = Some (before ++ (title, strip l) :: after) /\
    length before =
      length (List.filter is_pdf_url (map strip (pre ++ mid))).
Proof.
  intros Hl Ht Hmid Hurl. unfold extract_pdf_urls. rewrite Hl.
  rewrite scan_lines_app.
  destruct (scan_lines_urls pre {| current_title := ""; urls := [] |})
    as (st1 & -> & E1).
  cbn [mbind option_bind scan_lines]. rewrite (scan_line_title _ _ _ Ht).
  cbn [mbind option_bind]. rewrite scan_lines_app.
  set (st2 := {| current_title := title; urls := urls st1 |}).
  destruct (scan_lines_keep_title mid st2 Hmid) as (more & Hm).
  destruct (scan_lines_urls mid st2) as (st3 & E3 & E3').
  rewrite Hm in E3. inversion E3; subst st3. clear E3.
  rewrite Hm. cbn [mbind option_bind scan_lines].
  rewrite (scan_line_pdf_url _ _ Hurl). cbn [mbind option_bind current_title urls].
  destruct (scan_lines_total post
              {| current_title := current_title st2;
                 urls := (urls st2 ++ more) ++ [(current_title st2, strip l)] |})
    as (t' & after & ->).
  cbn [mbind option_bind urls current_title]. subst st2. simpl.
  exists (urls st1 ++ more), after. split.
  - by rewrite <- !app_assoc.
  - simpl in E1, E3'. rewrite map_app in E3'.
    apply (f_equal (@length string)) in E1, E3'.
    rewrite !length_app, !length_map in E3'. rewrite length_map in E1.
    rewrite map_app, List.filter_app, !length_app. lia.
Qed.

(** An instance: two titles, the link after the second. *)
Lemma url_takes_latest_title_witness :
  exists before after,
    extract_pdf_urls
      ("1. Alpha" +:+ String LF ("http://x/a.pdf" +:+ String LF
       ("2. Beta" +:+ String LF ("note" +:+ String LF "http://x/b.pdf"))))
      = Some (before ++ ("Beta", "http://x/b.pdf") :: after) /\
    length before =
      length (List.filter is_pdf_url
                (map strip (["1. Alpha" +:+ String LF "";
                             "http://x/a.pdf" +:+ String LF ""]
                            ++ ["note" +:+ String LF ""]))).
Proof.
  apply (url_takes_latest_title _
           ["1. Alpha" +:+ String LF ""; "http://x/a.pdf" +:+ String LF ""]
           ("2. Beta" +:+ String LF "") ["note" +:+ String LF ""]
           "http://x/b.pdf" [] "Beta").
  - vm_compute. reflexivity.
  - vm_compute. reflexivity.
  - intros x [<-|[]]. vm_compute. reflexivity.
  - vm_compute. reflexivity.
Defined.

End LinkMore.

(* ===================================================================== *)
(** * More on the title pattern and on file names *)
(* ===================================================================== *)

Section PatternMore.
Import PyStr Re Links Downloader.

(** The first character of a string, if any, is not of the class. *)
Definition stops (cls : ascii -> bool) (s : string) : Prop :=
  match s with
  | String c _ => cls c = false
  | EmptyString => True
  end.

(** A greedy run takes the whole run when what follows lets the match go on. *)
Lemma star_greedy cls a : forall b k m,
  all cls a = true -> stops cls b -> k b = Some m ->
  star cls (a +:+ b) k = Some m.
Proof.
  induction a as [|c a IH]; intros b k m Ha Hb Hk;
    rewrite ?append_nil, ?append_cons.
  - destruct b as [|c r]; simpl in *; [exact Hk|]. by rewrite Hb.
  - simpl in Ha. apply andb_prop in Ha as [Hc Ha]. simpl. rewrite Hc.
    by rewrite (IH b k m).
Qed.

Lemma plus_greedy cls a b k m :
  a <> "" -> all cls a = true -> stops cls b -> k b = Some m ->
  plus cls (a +:+ b) k = Some m.
Proof.
  intros Hne Ha Hb Hk. destruct a as [|c a]; [congruence|].
  rewrite append_cons. simpl in Ha. apply andb_prop in Ha as [Hc Ha].
  simpl. rewrite Hc. by apply star_greedy.
Qed.

Lemma append_empty_r s : s +:+ "" = s.
Proof.
  induction s as [|c s IH]; [reflexivity|]. rewrite append_cons. by rewrite IH.
Qed.

Lemma take_all s : take (String.length s) s = s.
Proof. induction s as [|c s IH]; simpl; [reflexivity|]. by rewrite IH. Qed.

(** X4. On a line made of digits, a dot, blanks and a text that does not
    start with a blank and holds no line feed, the title pattern matches and
    captures the text whole, blanks inside it included. *)
Theorem title_re_captures (digits blanks text : string) :
  digits <> "" -> all isdigit digits = true ->
  blanks <> "" -> all isspace blanks = true ->
  text <> "" -> stops isspace text -> all notnewline text = true ->
  re_match title_re (digits +:+ String "." (blanks +:+ text))
    = Some {| group1 := Some text |}.
Proof.
  intros Hd Hda Hb Hba Ht Hts Hta.
  assert (Hend : forall k m, k "" = Some m -> plus notnewline text k = Some m).
  { intros k m Hk. rewrite <- (append_empty_r text).
    apply plus_greedy; [exact Ht|exact Hta|exact I|exact Hk]. }
  unfold re_match, title_re. cbn [run].
  apply plus_greedy; [exact Hd|exact Hda|reflexivity|].
  cbn [lit]. rewrite Ascii.eqb_refl.
  apply plus_greedy; [exact Hb|exact Hba|exact Hts|].
  apply Hend. cbn [at_end]. cbn [String.length]. rewrite Nat.sub_0_r.
  by rewrite take_all.
Qed.

Lemma title_re_captures_witness :
  re_match title_re ("12" +:+ String "." ("  " +:+ "Case of  the year"))
    = Some {| group1 := Some "Case of  the year" |}.
Proof.
  apply (title_re_captures "12" "  " "Case of  the year");
    try discriminate; reflexivity.
Defined.

(** ** File names *)

Lemma sub_class_append cls a b :
  sub_class cls (a +:+ b) = sub_class cls a +:+ sub_class cls b.
Proof.
  induction a as [|c a IH]; rewrite ?append_nil, ?append_cons; simpl.
  - reflexivity.
  - destruct (cls c); rewrite IH; reflexivity.
Qed.

Lemma sub_class_id cls s :
  all (fun c => negb (cls c)) s = true -> sub_class cls s = s.
Proof.
  induction s as [|c s IH]; simpl; intros H; [reflexivity|].
  apply andb_prop in H as [Hc H]. apply negb_true_iff in Hc. rewrite Hc.
  by rewrite IH.
Qed.

Lemma sub_runs_id cls repl s : forall in_run,
  all (fun c => negb (cls c)) s = true -> sub_runs cls repl in_run s = s.
Proof.
  induction s as [|c s IH]; simpl; intros in_run H; [reflexivity|].
  apply andb_prop in H as [Hc H]. apply negb_true_iff in Hc. rewrite Hc.
  by rewrite IH.
Qed.

Lemma isspace_not_unsafe c : isspace c = true -> unsafe c = false.
Proof.
  destruct c as [[] [] [] [] [] [] [] []]; intros H;
    first [reflexivity | discriminate H].
Qed.

Lemma blanks_not_unsafe ws :
  all isspace ws = true -> all (fun c => negb (unsafe c)) ws = true.
Proof.
  induction ws as [|c ws IH]; simpl; intros H; [reflexivity|].
  apply andb_prop in H as [Hc H]. rewrite (isspace_not_unsafe c Hc). auto.
Qed.

(** Inside a run already begun, more characters of the class add nothing. *)
Lemma sub_runs_inside cls repl ws : forall rest,
  all cls ws = true ->
  sub_runs cls repl true (ws +:+ rest) = sub_runs cls repl true rest.
Proof.
  induction ws as [|c ws IH]; intros rest H; rewrite ?append_nil, ?append_cons;
    [reflexivity|].
  simpl in H. apply andb_prop in H as [Hc H]. simpl. rewrite Hc. auto.
Qed.

Lemma sub_runs_run cls repl ws rest in_run :
  ws <> "" -> all cls ws = true ->
  sub_runs cls repl in_run (ws +:+ rest) =
    if in_run then sub_runs cls repl true rest
    else String repl (sub_runs cls repl true rest).
Proof.
  intros Hne H. destruct ws as [|c ws]; [congruence|].
  rewrite append_cons. simpl in H. apply andb_prop in H as [Hc H].
  simpl. rewrite Hc. rewrite (sub_runs_inside cls repl ws rest H).
  reflexivity.
Qed.

Lemma sub_runs_same_run cls repl a ws1 ws2 rest : forall in_run,
  ws1 <> "" -> ws2 <> "" -> all cls ws1 = true -> all cls ws2 = true ->
  sub_runs cls repl in_run (a +:+ ws1 +:+ rest)
    = sub_runs cls repl in_run (a +:+ ws2 +:+ rest).
Proof.
  induction a as [|c a IH]; intros in_run H1 H2 Ha1 Ha2;
    rewrite ?append_nil, ?append_cons.
  - by rewrite !sub_runs_run.
  - simpl. destruct (cls c); [destruct in_run|]; by rewrite (IH _ H1 H2 Ha1 Ha2).
Qed.

(** X5. The length of a run of blanks in a title, and which blanks it is made
    of, do not show in the file name: two titles that differ only there get
    the same name (and so the same path in the download directory). *)
Theorem sanitize_filename_blank_runs (a ws1 ws2 b : string) :
  ws1 <> "" -> ws2 <> "" ->
  all isspace ws1 = true -> all isspace ws2 = true ->
  sanitize_filename (a +:+ ws1 +:+ b) = sanitize_filename (a +:+ ws2 +:+ b).
Proof.
  intros H1 H2 Ha1 Ha2. unfold sanitize_filename.
  rewrite !sub_class_append.
  rewrite (sub_class_id unsafe ws1), (sub_class_id unsafe ws2)
    by by apply blanks_not_unsafe.
  by rewrite (sub_runs_same_run isspace "_" _ ws1 ws2 _ false H1 H2 Ha1 Ha2).
Qed.

Lemma sanitize_filename_blank_runs_witness :
  sanitize_filename ("Case" +:+ "  " +:+ "Alpha")
    = sanitize_filename ("Case" +:+ String "009" "" +:+ "Alpha").
Proof.
  apply (sanitize_filename_blank_runs "Case" "  " (String "009" "") "Alpha");
    try discriminate; reflexivity.
Defined.

(** X6. A title of at most 200 characters, none of them unsafe or blank, is
    kept as it is: the file name is the title followed by [.pdf]. *)
Theorem sanitize_filename_keeps_clean (title : string) :
  all (fun c => negb (unsafe c)) title = true ->
  all (fun c => negb (isspace c)) title = true ->
  len title <= 200 ->
  sanitize_filename title = title +:+ ".pdf".
Proof.
  intros Hu Hs Hl. unfold sanitize_filename.
  rewrite (sub_class_id unsafe title Hu).
  rewrite (sub_runs_id isspace "_" title false Hs).
  apply Nat.ltb_ge in Hl. by rewrite Hl.
Qed.

Lemma sanitize_filename_keeps_clean_witness :
  sanitize_filename "Case_Alpha-2024" = "Case_Alpha-2024" +:+ ".pdf".
Proof.
  apply (sanitize_filename_keeps_clean "Case_Alpha-2024");
    [reflexivity|reflexivity|]. unfold len. simpl. lia.
Defined.

Lemma contains_char_cons x c s :
  contains (String x "") (String c s) =
    (if ascii_dec x c then true else false) || contains (String x "") s.
Proof.
  cbn [contains String.prefix]. destruct (ascii_dec x c); [|reflexivity].
  by destruct s.
Qed.

Lemma no_unsafe_no_char x s :
  unsafe x = true ->
  all (fun c => negb (unsafe c)) s = true -> contains (String x "") s = false.
Proof.
  intros Hx. induction s as [|c s IH]; intros H; [reflexivity|].
  cbn [all] in H. apply andb_prop in H as [Hc H].
  rewrite contains_char_cons, (IH H).
  destruct (ascii_dec x c) as [<-|]; [|reflexivity].
  rewrite Hx in Hc. discriminate.
Qed.

(** X7. Whatever the title, the path of a download is the download directory,
    a slash and the file name, and the file name holds no slash and no
    backslash: a title cannot lead out of the download directory. *)
Theorem download_stays_in_directory (title : string) :
  os_path_join DOWNLOAD_DIR (sanitize_filename title)
    = DOWNLOAD_DIR +:+ "/" +:+ sanitize_filename title /\
  contains "/" (sanitize_filename title) = false /\
  contains "\" (sanitize_filename title) = false.
Proof.
  split; [apply download_path|].
  destruct (sanitize_filename_body title) as (body & E & _ & Hu & _).
  assert (H : all (fun c => negb (unsafe c)) (sanitize_filename title) = true).
  { rewrite E, all_append, Hu. reflexivity. }
  split; by apply no_unsafe_no_char.
Qed.

End PatternMore.

(* ===================================================================== *)
(** * More on the tracker and on [download_file] *)
(* ===================================================================== *)

Section TrackerMore.
Import PyStr Downloader Props Invariants.

Variable remote : nat -> string -> response.
Variable clock : nat -> string.
Variable json_load : string -> parsed.

Abbreviation download_attempts := (download_attempts remote).
Abbreviation download_file := (download_file remote).
Abbreviation process_entry := (process_entry remote clock).
Abbreviation batch_loop := (batch_loop remote clock).
Abbreviation mark_downloaded := (mark_downloaded clock).

Lemma is_downloaded_false t url :
  is_downloaded t url = false -> downloads (data t) !! get_url_hash url = None.
Proof.
  unfold is_downloaded. intros H. apply bool_decide_eq_false in H.
  destruct (downloads (data t) !! get_url_hash url) eqn:E; [|reflexivity].
  exfalso. apply H. eauto.
Qed.

Lemma is_downloaded_true t url :
  is_downloaded t url = true <-> is_Some (downloads (data t) !! get_url_hash url).
Proof. unfold is_downloaded. apply bool_decide_eq_true. Qed.

(** X8. When the tracking file is missing, or holds a content on which
    [json.load] raises [json.JSONDecodeError], the constructor gives a
    tracker with an empty ledger and leaves the disk as it is, and the first
    [mark_downloaded] then replaces whatever the file held by a ledger with
    that one entry.  No other exception is caught: on a content that does not
    decode the constructor raises. *)
Theorem unreadable_ledger_is_replaced (w : world) (url filename title : string) :
  (fs w !! TRACKING_FILE = None \/
   exists b, fs w !! TRACKING_FILE = Some (Bytes b) /\ json_load b = Invalid) ->
  (exists t w',
     DownloadTracker json_load TRACKING_FILE w = (Built t, w') /\
     (forall other, is_downloaded t other = false) /\
     total_downloaded (get_stats t) = 0 /\
     fs w' = fs w /\
     let marked := mark_downloaded t url filename title w' in
     total_downloaded (get_stats marked.1) = 1 /\
     exists e,
       e_url e = url /\ e_filename e = filename /\ e_title e = title /\
       fs marked.2 !! TRACKING_FILE
         = Some (Json {| downloads := {[ get_url_hash url := e ]} |})) /\
  forall w2 b,
    fs w2 !! TRACKING_FILE = Some (Bytes b) -> json_load b = Undecodable ->
    (DownloadTracker json_load TRACKING_FILE w2).1 = Raises.
Proof.
  intros Hbad. split.
  - exists {| tracking_file := TRACKING_FILE; data := fresh |}.
    assert (Hl : exists w',
               DownloadTracker json_load TRACKING_FILE w
               = (Built {| tracking_file := TRACKING_FILE; data := fresh |}, w')
               /\ fs w' = fs w).
    { unfold DownloadTracker, load_tracking_data. simpl.
      destruct Hbad as [->|(b & -> & ->)]; eexists; split; reflexivity. }
    destruct Hl as (w' & Hl & Hfs). exists w'.
    split; [exact Hl|]. split.
    { intros other. unfold is_downloaded. simpl.
      rewrite lookup_empty. apply bool_decide_eq_false. by intros [? ?]. }
    split; [reflexivity|]. split; [exact Hfs|].
    simpl. rewrite insert_empty.
    split; [apply map_size_singleton|].
    exists {| e_url := url; e_filename := filename; e_title := title;
              e_downloaded_at := clock (length (trace w')) |}.
    repeat split. apply lookup_insert_eq.
  - intros w2 b Hf Hb. unfold DownloadTracker, load_tracking_data. simpl.
    rewrite Hf, Hb. reflexivity.
Qed.

(** X9. [mark_downloaded] adds one to the total of [get_stats] when the URL
    was not yet in the ledger and leaves the total as it is otherwise; either
    way the URL is in the ledger afterwards. *)
Theorem mark_downloaded_counts (t : tracker) (url filename title : string)
    (w : world) :
  let t' := (mark_downloaded t url filename title w).1 in
  total_downloaded (get_stats t') =
    (if is_downloaded t url then total_downloaded (get_stats t)
     else S (total_downloaded (get_stats t))) /\
  is_downloaded t' url = true.
Proof.
  simpl. split.
  - rewrite map_size_insert.
    destruct (is_downloaded t url) eqn:E.
    + apply is_downloaded_true in E as [e ->]. reflexivity.
    + apply is_downloaded_false in E. by rewrite E.
  - apply is_downloaded_true. simpl. rewrite lookup_insert_eq. eauto.
Qed.

(** X10. [mark_downloaded] touches one key and one file: a URL with another
    key is in the ledger after exactly when it was before, with the same
    entry, and every file but the tracking file stays as it was. *)
Theorem mark_downloaded_frame (t : tracker) (url filename title other : string)
    (w : world) :
  get_url_hash other <> get_url_hash url ->
  let r := mark_downloaded t url filename title w in
  downloads (data r.1) !! get_url_hash other
    = downloads (data t) !! get_url_hash other /\
  is_downloaded r.1 other = is_downloaded t other /\
  forall path, path <> tracking_file t -> fs r.2 !! path = fs w !! path.
Proof.
  intros Hne. simpl.
  assert (H : <[get_url_hash url :=
                  {| e_url := url; e_filename := filename; e_title := title;
                     e_downloaded_at := clock (length (trace w)) |}]>
                (downloads (data t)) !! get_url_hash other
              = downloads (data t) !! get_url_hash other).
  { by rewrite lookup_insert_ne. }
  split; [exact H|]. split.
  - unfold is_downloaded. simpl. by rewrite H.
  - intros path Hp. by rewrite lookup_insert_ne.
Qed.

(** ** [download_file] with any remote *)

(** The world after the request of an attempt that meets a transport error. *)
Definition after_error (url output_path : string) (w : world) : world :=
  match remote (requests w) url with
  | Refused => log (Get url) w
  | Body chunks _ =>
      write_file output_path (Bytes (PyStr.concat chunks)) (log (Get url) w)
  end.

Lemma requests_after_error url output_path w :
  requests (after_error url output_path w) = S (requests w).
Proof.
  unfold after_error. destruct (remote (requests w) url);
    rewrite ?requests_write_file, requests_log; simpl; lia.
Qed.

Lemma fs_after_error url output_path w p :
  p <> output_path -> fs (after_error url output_path w) !! p = fs w !! p.
Proof.
  intros Hp. unfold after_error. destruct (remote (requests w) url); simpl; auto.
  by rewrite lookup_insert_ne.
Qed.

Lemma download_attempts_error url output_path retries attempt todo w :
  transport_error (remote (requests w) url) = true ->
  download_attempts url output_path retries attempt (S todo) w =
    if (Z.of_nat attempt <? Z.of_nat retries - 1)%Z then
      download_attempts url output_path retries (S attempt) todo
        (log (Sleep RETRY_DELAY) (after_error url output_path w))
    else
      let w1 := log (Exists output_path) (after_error url output_path w) in
      (false, if path_exists output_path w1 then remove_file output_path w1 else w1).
Proof.
  intros H. cbn [Downloader.download_attempts]. unfold after_error.
  destruct (transport_error_cases _ H) as [->|[chunks ->]]; reflexivity.
Qed.

Lemma download_attempts_ok url output_path retries attempt todo w chunks :
  remote (requests w) url = Body chunks true ->
  download_attempts url output_path retries attempt (S todo) w =
    (true, log (Stat output_path)
             (write_file output_path (Bytes (PyStr.concat chunks))
                (log (Get url) w))).
Proof. intros H. cbn [Downloader.download_attempts]. by rewrite H. Qed.

Lemma not_error_is_body r :
  transport_error r = false -> exists chunks, r = Body chunks true.
Proof. destruct r as [|chunks [|]]; simpl; intros H; try discriminate; eauto. Qed.

(** What a download leaves, whatever the remote does. *)
Lemma download_attempts_outcome url output_path retries :
  forall todo attempt w,
    attempt + todo = retries -> 0 < todo ->
    let r := download_attempts url output_path retries attempt todo w in
    requests w < requests r.2 <= requests w + todo /\
    (r.1 = false -> fs r.2 !! output_path = None) /\
    (r.1 = true -> exists chunks,
       remote (requests r.2 - 1) url = Body chunks true /\
       fs r.2 !! output_path = Some (Bytes (PyStr.concat chunks))) /\
    forall p, p <> output_path -> fs r.2 !! p = fs w !! p.
Proof.
  induction todo as [|todo IH]; intros attempt w Hsum Hpos; [lia|]. cbv zeta.
  destruct (transport_error (remote (requests w) url)) eqn:E.
  - rewrite (download_attempts_error _ _ _ _ _ _ E).
    destruct (Z.ltb_spec (Z.of_nat attempt) (Z.of_nat retries - 1)) as [Hlt|Hge].
    + destruct (IH (S attempt)
                  (log (Sleep RETRY_DELAY) (after_error url output_path w)))
        as (H1 & H2 & H3 & H4); [lia|lia|].
      rewrite requests_log, requests_after_error in H1. simpl in H1.
      repeat split; auto; try lia.
      intros p Hp. rewrite (H4 p Hp). simpl. by apply fs_after_error.
    + assert (todo = 0) as -> by lia. cbv zeta.
      destruct (path_exists _ _) eqn:Ex; simpl;
        rewrite ?requests_remove_file, requests_log, requests_after_error;
        simpl; repeat split; try lia; try discriminate.
      * intros _. apply lookup_delete_eq.
      * intros p Hp. rewrite lookup_delete_ne by auto. by apply fs_after_error.
      * intros _. apply path_exists_false in Ex. exact Ex.
      * intros p Hp. by apply fs_after_error.
  - destruct (not_error_is_body _ E) as [chunks Hb].
    rewrite (download_attempts_ok _ _ _ _ _ _ _ Hb). simpl.
    rewrite requests_log, requests_write_file, requests_log. simpl.
    repeat split; try lia; try discriminate.
    + intros _. exists chunks. split.
      * replace (requests w + 1 + 0 - 1) with (requests w) by lia. exact Hb.
      * apply lookup_insert_eq.
    + intros p Hp. by rewrite lookup_insert_ne.
Qed.

(** X11. Whatever the remote answers, a call of [download_file] with at least
    one attempt allowed sends between one and [retries] requests and touches
    no other path; when it returns [False] nothing is at the destination, and
    when it returns [True] the destination holds the joined chunks of the
    answer to its last request, which ended well. *)
Theorem download_file_outcome (url output_path : string) (retries : nat)
    (w : world) :
  0 < retries ->
  let r := download_file url output_path retries w in
  requests w < requests r.2 <= requests w + retries /\
  (r.1 = false -> fs r.2 !! output_path = None) /\
  (r.1 = true -> exists chunks,
     remote (requests r.2 - 1) url = Body chunks true /\
     fs r.2 !! output_path = Some (Bytes (PyStr.concat chunks))) /\
  forall p, p <> output_path -> fs r.2 !! p = fs w !! p.
Proof.
  intros Hpos. by apply (download_attempts_outcome url output_path retries).
Qed.

Lemma download_attempts_recover url output_path retries chunks :
  forall k todo attempt w,
    attempt + todo = retries -> k < todo ->
    (forall i, i < k -> transport_error (remote (requests w + i) url) = true) ->
    remote (requests w + k) url = Body chunks true ->
    let r := download_attempts url output_path retries attempt todo w in
    r.1 = true /\ requests r.2 = requests w + S k /\
    fs r.2 !! output_path = Some (Bytes (PyStr.concat chunks)).
Proof.
  induction k as [|k IH]; intros todo attempt w Hsum Hk Herr Hok;
    (destruct todo as [|todo]; [lia|]); cbv zeta.
  - replace (requests w + 0) with (requests w) in Hok by lia.
    rewrite (download_attempts_ok _ _ _ _ _ _ _ Hok). simpl.
    rewrite requests_log, requests_write_file, requests_log. simpl.
    repeat split; [lia|apply lookup_insert_eq].
  - assert (E : transport_error (remote (requests w) url) = true).
    { specialize (Herr 0). replace (requests w + 0) with (requests w) in Herr by lia.
      apply Herr. lia. }
    rewrite (download_attempts_error _ _ _ _ _ _ E).
    destruct (Z.ltb_spec (Z.of_nat attempt) (Z.of_nat retries - 1)) as [Hlt|Hge];
      [|lia].
    destruct (IH todo (S attempt)
                (log (Sleep RETRY_DELAY) (after_error url output_path w)))
      as (H1 & H2 & H3); try lia.
    + intros i Hi. rewrite requests_log, requests_after_error. simpl.
      match goal with
      | |- context [remote ?n url] => replace n with (requests w + S i) by lia
      end.
      apply Herr. lia.
    + rewrite requests_log, requests_after_error. simpl.
      match goal with
      | |- context [remote ?n url] => replace n with (requests w + S k) by lia
      end.
      exact Hok.
    + rewrite requests_log, requests_after_error in H2. simpl in H2.
      repeat split; auto. lia.
Qed.

(** X12. When the first [k] requests of a download meet transport errors and
    the next one is answered in full, with [k] below the number of attempts
    allowed, [download_file] returns [True] after [k + 1] requests and the
    destination holds exactly the chunks of that answer: nothing of what the
    broken attempts wrote is left. *)
Theorem download_recovers (url output_path : string) (retries k : nat)
    (chunks : list string) (w : world) :
  k < retries ->
  (forall i, i < k -> transport_error (remote (requests w + i) url) = true) ->
  remote (requests w + k) url = Body chunks true ->
  let r := download_file url output_path retries w in
  r.1 = true /\ requests r.2 = requests w + S k /\
  fs r.2 !! output_path = Some (Bytes (PyStr.concat chunks)).
Proof.
  intros Hk Herr Hok.
  by apply (download_attempts_recover url output_path retries chunks k retries 0 w).
Qed.

End TrackerMore.

(** Instances: an unparsable tracking file, two URLs with different keys, a
    remote that breaks once or twice before it answers. *)
Lemma unreadable_ledger_witness :
  let json_load := fun b : string =>
    if String.eqb b "{not json" then Downloader.Invalid
    else Downloader.Undecodable in
  let w := {| Downloader.fs :=
                {[ Downloader.TRACKING_FILE := Downloader.Bytes "{not json" ]};
              Downloader.trace := [] |} in
  let w2 := {| Downloader.fs :=
                 {[ Downloader.TRACKING_FILE := Downloader.Bytes "PK" ]};
               Downloader.trace := [] |} in
  (exists t w',
     Downloader.DownloadTracker json_load Downloader.TRACKING_FILE w
       = (Downloader.Built t, w') /\
     Downloader.is_downloaded t "http://x/a.pdf" = false /\
     Downloader.fs w' = Downloader.fs w /\
     Downloader.total_downloaded
       (Downloader.get_stats
          (Downloader.mark_downloaded (fun _ => "2026-01-01 00:00:00")
             t "http://x/a.pdf" "a.pdf" "a" w').1) = 1) /\
  (Downloader.DownloadTracker json_load Downloader.TRACKING_FILE w2).1
    = Downloader.Raises.
Proof.
  intros json_load w w2.
  destruct (unreadable_ledger_is_replaced (fun _ => "2026-01-01 00:00:00")
              json_load w "http://x/a.pdf" "a.pdf" "a")
    as [(t & w' & H1 & H2 & _ & H3 & H4 & _) H5].
  - right. exists "{not json". split; reflexivity.
  - split; [exists t, w'; auto|].
    apply (H5 w2 "PK"); reflexivity.
Defined.

Lemma mark_downloaded_frame_witness :
  let t := {| Downloader.tracking_file := Downloader.TRACKING_FILE;
              Downloader.data := Downloader.fresh |} in
  let r := Downloader.mark_downloaded (fun _ => "2026-01-01 00:00:00") t
             "http://x/a.pdf" "a.pdf" "a"
             {| Downloader.fs := ∅; Downloader.trace := [] |} in
  Downloader.is_downloaded r.1 "http://x/b.pdf"
    = Downloader.is_downloaded t "http://x/b.pdf".
Proof.
  intros t r.
  destruct (mark_downloaded_frame (fun _ => "2026-01-01 00:00:00") t
              "http://x/a.pdf" "a.pdf" "a" "http://x/b.pdf"
              {| Downloader.fs := ∅; Downloader.trace := [] |}) as (_ & H & _).
  - vm_compute. discriminate.
  - exact H.
Defined.


Lemma download_file_outcome_witness :
  let remote := fun (n : nat) (_ : string) =>
    if (n <? 1)%nat then Downloader.Body ["%P"] false
    else Downloader.Body ["%PDF"; "-1.4"] true in
  let w := {| Downloader.fs := ∅; Downloader.trace := [] |} in
  let r := Downloader.download_file remote "http://x/a.pdf"
             "downloaded_pdfs/a.pdf" 3 w in
  Downloader.requests w < Downloader.requests r.2 <= Downloader.requests w + 3.
Proof.
  intros remote w r.
  destruct (download_file_outcome remote "http://x/a.pdf" "downloaded_pdfs/a.pdf"
              3 w) as (H & _); [lia|exact H].
Defined.

Lemma download_recovers_witness :
  let remote := fun (n : nat) (_ : string) =>
    if (n <? 2)%nat then Downloader.Body ["%P"] false
    else Downloader.Body ["%PDF"; "-1.4"] true in
  let w := {| Downloader.fs := ∅; Downloader.trace := [] |} in
  let r := Downloader.download_file remote "http://x/a.pdf"
             "downloaded_pdfs/a.pdf" 3 w in
  r.1 = true /\ Downloader.requests r.2 = Downloader.requests w + 3 /\
  Downloader.fs r.2 !! "downloaded_pdfs/a.pdf"
    = Some (Downloader.Bytes (PyStr.concat ["%PDF"; "-1.4"])).
Proof.
  intros remote w r.
  apply (download_recovers remote "http://x/a.pdf" "downloaded_pdfs/a.pdf" 3 2
           ["%PDF"; "-1.4"] w).
  - lia.
  - intros [|[|i]] Hi; try reflexivity. lia.
  - reflexivity.
Defined.

(* ===================================================================== *)
(** * More on the batch loop *)
(* ===================================================================== *)

Section BatchMore.
Import PyStr Downloader Props Invariants.

Variable remote : nat -> string -> response.
Variable clock : nat -> string.
Variable json_load : string -> parsed.

Abbreviation download_file := (download_file remote).
Abbreviation process_entry := (process_entry remote clock).
Abbreviation batch_loop := (batch_loop remote clock).
Abbreviation run_batch := (run_batch remote clock json_load).

(** What one iteration does, in one statement.  [w'] is the world before the
    ledger is written: after the test of the path, or after the download. *)
Lemma process_entry_spec total idx title url b :
  let path := os_path_join DOWNLOAD_DIR (sanitize_filename title) in
  let b' := process_entry total idx title url b in
  (is_downloaded (trk b) url = true /\
   b' = {| trk := trk b; env := env b; counts := count_skipped (counts b) |}) \/
  (is_downloaded (trk b) url = false /\
   exists w' stamp,
     (forall p, p <> path -> fs w' !! p = fs (env b) !! p) /\
     requests w' <= requests (env b) + MAX_RETRIES /\
     requests (env b') = requests w' /\
     ((is_Some (fs w' !! path) /\
       trk b' =
         {| tracking_file := tracking_file (trk b);
            data := {| downloads :=
              <[get_url_hash url := entry_for url title stamp]>
                (downloads (data (trk b))) |} |} /\
       fs (env b') = <[tracking_file (trk b) := Json (data (trk b'))]> (fs w') /\
       ((fs w' = fs (env b) /\ requests w' = requests (env b) /\
         counts b' = count_skipped (counts b)) \/
        (fs (env b) !! path = None /\ requests (env b) < requests w' /\
         counts b' = count_downloaded (counts b)))) \/
      (fs (env b) !! path = None /\ fs w' !! path = None /\
       requests (env b) < requests w' /\
       trk b' = trk b /\ fs (env b') = fs w' /\
       counts b' = count_failed (counts b)))).
Proof.
  intros path b'. subst b'. unfold Downloader.process_entry. fold path.
  destruct (is_downloaded (trk b) url) eqn:Hd; [left; auto|].
  right. split; [reflexivity|].
  rewrite path_exists_log.
  destruct (path_exists path (env b)) eqn:He.
  - exists (log (Exists path) (env b)),
      (clock (length (trace (log (Exists path) (env b))))).
    split; [reflexivity|]. split; [rewrite requests_log; simpl; lia|].
    split; [unfold requests; simpl; rewrite !List.filter_app, !length_app;
            simpl; lia|].
    left. split; [by apply bool_decide_eq_true in He|].
    split; [reflexivity|]. split; [reflexivity|].
    left. repeat split. rewrite requests_log. simpl. lia.
  - apply path_exists_false in He.
    pose proof (download_attempts_outcome remote url path MAX_RETRIES
                  MAX_RETRIES 0 (log (Exists path) (env b)) eq_refl) as Ho.
    fold (download_file url path MAX_RETRIES (log (Exists path) (env b))) in Ho.
    destruct (download_file url path MAX_RETRIES (log (Exists path) (env b)))
      as [ok w'].
    destruct Ho as (Hreq & Hfalse & Htrue & Hframe); [unfold MAX_RETRIES; lia|].
    rewrite requests_log in Hreq. simpl in Hreq, Hfalse, Htrue, Hframe.
    exists w', (clock (length (trace w'))).
    split; [exact Hframe|]. split; [lia|].
    destruct ok.
    + destruct (Htrue eq_refl) as (chunks & _ & Hfile).
      split.
      { destruct (idx <? total); unfold requests; simpl;
          rewrite ?List.filter_app, ?length_app; simpl; lia. }
      left. split; [rewrite Hfile; eauto|].
      split; [by destruct (idx <? total)|].
      split; [by destruct (idx <? total)|].
      right. split; [exact He|]. split; [lia|]. by destruct (idx <? total).
    + split.
      { destruct (idx <? total); unfold requests; simpl;
          rewrite ?List.filter_app, ?length_app; simpl; lia. }
      right. split; [exact He|]. split; [by apply Hfalse|]. split; [lia|].
      destruct (idx <? total); auto.
Qed.

Lemma process_entry_tracking_file total idx title url b :
  tracking_file (trk (process_entry total idx title url b)) = tracking_file (trk b).
Proof.
  destruct (process_entry_spec total idx title url b)
    as [[_ ->]|[_ (w' & stamp & _ & _ & _ & [(_ & -> & _)|(_ & _ & _ & -> & _)])]];
    reflexivity.
Qed.

Lemma batch_loop_tracking_file pdf_urls : forall total idx b,
  tracking_file (trk (batch_loop total idx pdf_urls b)) = tracking_file (trk b).
Proof.
  induction pdf_urls as [|[title url] rest IH]; intros total idx b; simpl;
    [reflexivity|].
  rewrite IH. apply process_entry_tracking_file.
Qed.

(** ** Accounting *)

Definition handled (c : summary) : nat := downloaded c + skipped c + failed c.
Definition attempted (c : summary) : nat := downloaded c + failed c.

Lemma process_entry_accounting total idx title url b :
  let b' := process_entry total idx title url b in
  handled (counts b') = S (handled (counts b)) /\
  attempted (counts b) <= attempted (counts b') /\
  requests (env b) + attempted (counts b') <= requests (env b') + attempted (counts b) /\
  requests (env b') + MAX_RETRIES * attempted (counts b)
    <= requests (env b) + MAX_RETRIES * attempted (counts b').
Proof.
  unfold handled, attempted, MAX_RETRIES.
  destruct (process_entry_spec total idx title url b)
    as [[_ ->]|[_ (w' & stamp & _ & Hle & -> &
         [(_ & _ & _ & [(_ & Hr & ->)|(_ & Hr & ->)])
         |(_ & _ & Hr & _ & _ & ->)])]];
    unfold MAX_RETRIES in *; simpl; lia.
Qed.

Lemma batch_loop_accounting pdf_urls : forall total idx b,
  let b' := batch_loop total idx pdf_urls b in
  handled (counts b') = handled (counts b) + length pdf_urls /\
  attempted (counts b) <= attempted (counts b') /\
  requests (env b) + attempted (counts b') <= requests (env b') + attempted (counts b) /\
  requests (env b') + MAX_RETRIES * attempted (counts b)
    <= requests (env b) + MAX_RETRIES * attempted (counts b').
Proof.
  induction pdf_urls as [|[title url] rest IH]; intros total idx b; simpl.
  - lia.
  - destruct (process_entry_accounting total idx title url b) as (H1 & H2 & H3 & H4).
    destruct (IH total (S idx) (process_entry total idx title url b))
      as (H5 & H6 & H7 & H8).
    unfold MAX_RETRIES in *. lia.
Qed.

(** X13. In a run of the batch that reaches the loop every entry ends in
    exactly one of the three counts, so they add up to the number of entries;
    requests are sent only for the entries counted as downloaded or failed,
    at least one and at most [MAX_RETRIES] for each. *)
Theorem batch_accounting (pdf_urls : list (string * string)) (w : world)
    (b : batch) :
  run_batch pdf_urls w = Completed b ->
  let c := counts b in
  downloaded c + skipped c + failed c = length pdf_urls /\
  downloaded c + failed c <= requests (env b) - requests w
    <= MAX_RETRIES * (downloaded c + failed c).
Proof.
  intros H.
  destruct (run_batch_Completed remote clock json_load pdf_urls w b H)
    as (d & w0 & _ & _ & Hr & -> & _).
  match goal with
  | |- context [batch_loop ?n ?i pdf_urls ?b0] =>
      destruct (batch_loop_accounting pdf_urls n i b0) as (H1 & H2 & H3 & H4)
  end.
  unfold handled, attempted, MAX_RETRIES in *. simpl in *. lia.
Qed.

(** ** The ledger *)

Lemma process_entry_grows total idx title url b :
  downloads (data (trk b))
    ⊆ downloads (data (trk (process_entry total idx title url b))).
Proof.
  destruct (process_entry_spec total idx title url b)
    as [[_ ->]|[Hd (w' & stamp & _ & _ & _ & [(_ & -> & _)|(_ & _ & _ & -> & _)])]];
    simpl; try reflexivity.
  apply insert_subseteq. by apply is_downloaded_false.
Qed.

(** X14. The loop never removes or rewrites an entry of the ledger: every key
    the tracker had before the loop is there after it, with the entry it had
    (a URL is marked only when its key is not yet there). *)
Theorem ledger_only_grows (pdf_urls : list (string * string))
    (total idx : nat) (b : batch) :
  downloads (data (trk b))
    ⊆ downloads (data (trk (batch_loop total idx pdf_urls b))).
Proof.
  revert idx b. induction pdf_urls as [|[title url] rest IH]; intros idx b; simpl.
  - reflexivity.
  - etrans; [apply (process_entry_grows total idx title url)|apply IH].
Qed.

(** X15. After a run that reached the loop the tracking file holds what the
    tracker has in memory: a new [DownloadTracker] reads back exactly the
    tracker the run ended with. *)
Theorem run_batch_saves_ledger (pdf_urls : list (string * string)) (w : world)
    (b : batch) :
  run_batch pdf_urls w = Completed b ->
  (DownloadTracker json_load TRACKING_FILE (env b)).1 = Built (trk b).
Proof.
  intros H.
  destruct (run_batch_Completed remote clock json_load pdf_urls w b H)
    as (d & w0 & Hd & Hw0 & _ & Hb & _).
  assert (Hs : synced json_load b).
  { rewrite Hb. apply batch_loop_synced. split; [reflexivity|]. simpl.
    rewrite <- Hd. apply on_disk_frame. by rewrite Hw0. }
  destruct Hs as [Ht Hdisk]. unfold on_disk in Hdisk.
  destruct (DownloadTracker json_load TRACKING_FILE (env b)) as [c w1] eqn:E.
  destruct c as [t| | |]; try discriminate.
  destruct (start_batch_Built json_load (env b) t w1 E) as (Htf & _).
  simpl in *. injection Hdisk as Hdata.
  f_equal. destruct (trk b) as [tf dt]. simpl in *. rewrite Htf. by subst.
Qed.

(** X16. A run that ends with exit status 0 has every URL of the list in the
    ledger. *)
Theorem exit_zero_all_tracked (pdf_urls : list (string * string)) (w : world)
    (b : batch) :
  run_batch pdf_urls w = Completed b ->
  exit_status (counts b) = 0%Z ->
  Forall (fun e => is_downloaded (trk b) e.2 = true) pdf_urls.
Proof.
  intros Hrun.
  destruct (run_batch_Completed remote clock json_load pdf_urls w b Hrun)
    as (d & w0 & _ & _ & _ & -> & _).
  unfold exit_status. intros H.
  match goal with
  | |- context [batch_loop ?n ?i pdf_urls ?b0] =>
      destruct (batch_loop_failed remote clock pdf_urls n i b0) as [_ Hall]
  end.
  apply Hall. simpl.
  destruct (0 <? failed _) eqn:E; [discriminate|].
  apply Nat.ltb_ge in E. lia.
Qed.

Lemma process_entry_consistent total idx title url b :
  ledger_consistent (trk b) ->
  ledger_consistent (trk (process_entry total idx title url b)).
Proof.
  intros Hc.
  destruct (process_entry_spec total idx title url b)
    as [[_ ->]|[_ (w' & stamp & _ & _ & _ & [(_ & -> & _)|(_ & _ & _ & -> & _)])]];
    simpl; auto.
  intros key e. simpl. rewrite lookup_insert_Some.
  intros [[<- <-]|[_ H]]; [split; reflexivity|by apply Hc].
Qed.

(** X17. The loop keeps the ledger consistent: when every entry is filed
    under the key of its own URL and records the file name of its own title
    before the loop, the same holds after it. *)
Theorem ledger_stays_consistent (pdf_urls : list (string * string))
    (total idx : nat) (b : batch) :
  ledger_consistent (trk b) ->
  ledger_consistent (trk (batch_loop total idx pdf_urls b)).
Proof.
  revert idx b. induction pdf_urls as [|[title url] rest IH]; intros idx b H; simpl.
  - exact H.
  - apply IH. by apply process_entry_consistent.
Qed.

(** ** The download directory *)

Lemma process_entry_keeps_files total idx title url b p f :
  p <> tracking_file (trk b) ->
  fs (env b) !! p = Some f ->
  fs (env (process_entry total idx title url b)) !! p = Some f.
Proof.
  intros Hp Hf.
  destruct (process_entry_spec total idx title url b)
    as [[_ ->]|[_ (w' & stamp & Hframe & _ & _ &
         [(_ & _ & -> & [(Hfs & _)|(Hnone & _)])
         |(Hnone & _ & _ & _ & -> & _)])]];
    simpl; auto.
  - rewrite lookup_insert_ne by auto. by rewrite Hfs.
  - rewrite lookup_insert_ne by auto. rewrite Hframe; [exact Hf|].
    intros ->. congruence.
  - rewrite Hframe; [exact Hf|]. intros ->. congruence.
Qed.

(** X18. The loop never removes or overwrites a file that was there before
    it, the tracking file apart: what a path held before the loop it holds
    after it. *)
Theorem batch_keeps_files (pdf_urls : list (string * string))
    (total idx : nat) (b : batch) (p : string) (f : file) :
  p <> tracking_file (trk b) ->
  fs (env b) !! p = Some f ->
  fs (env (batch_loop total idx pdf_urls b)) !! p = Some f.
Proof.
  revert idx b. induction pdf_urls as [|[title url] rest IH];
    intros idx b Hp Hf; simpl.
  - exact Hf.
  - apply IH.
    + by rewrite process_entry_tracking_file.
    + by apply process_entry_keeps_files.
Qed.

Lemma os_path_join_not_ledger filename :
  os_path_join DOWNLOAD_DIR filename <> TRACKING_FILE.
Proof.
  unfold os_path_join.
  destruct (startswith "/" filename) eqn:E.
  - apply startswith_append in E as [rest ->]. discriminate.
  - discriminate.
Qed.

Lemma process_entry_files_on_disk total idx title url b :
  tracking_file (trk b) = TRACKING_FILE ->
  files_on_disk b -> files_on_disk (process_entry total idx title url b).
Proof.
  intros Ht Hinv.
  destruct (process_entry_spec total idx title url b)
    as [[_ ->]|[_ (w' & stamp & Hframe & _ & _ &
         [(Hsome & Htrk & Hfs & _)|(Hnone & _ & _ & Htrk & Hfs & _)])]];
    auto; unfold files_on_disk; rewrite Htrk, Hfs; simpl; intros key e.
  - rewrite lookup_insert_Some, Ht.
    intros [[_ <-]|[_ H]]; rewrite lookup_insert_ne
      by (intros E; symmetry in E; by apply os_path_join_not_ledger in E).
    + exact Hsome.
    + destruct (decide (os_path_join DOWNLOAD_DIR (e_filename e)
                        = os_path_join DOWNLOAD_DIR (sanitize_filename title)))
        as [->|Hne]; [exact Hsome|].
      rewrite Hframe by exact Hne. by apply (Hinv key).
  - intros H. pose proof (Hinv key e H) as Hex.
    rewrite Hframe; [exact Hex|].
    intros E. rewrite E, Hnone in Hex. by destruct Hex.
Qed.

(** X19. With the tracker of [main], when every entry of the ledger has a
    file at its path before the loop, the same holds after it: an entry is
    added only once its file is there, and no download that fails takes away
    the file of another entry. *)
Theorem ledger_files_stay_on_disk (pdf_urls : list (string * string))
    (total idx : nat) (b : batch) :
  tracking_file (trk b) = TRACKING_FILE ->
  files_on_disk b -> files_on_disk (batch_loop total idx pdf_urls b).
Proof.
  revert idx b. induction pdf_urls as [|[title url] rest IH];
    intros idx b Ht H; simpl.
  - exact H.
  - apply IH.
    + by rewrite process_entry_tracking_file.
    + by apply process_entry_files_on_disk.
Qed.

End BatchMore.

(** Instances of the batch properties: a remote that answers every request,
    and a disk with one older file. *)
Lemma exit_zero_witness :
  let remote := fun (_ : nat) (_ : string) => Downloader.Body ["%PDF"] true in
  let clock := fun _ : nat => "2026-01-01 00:00:00" in
  let json_load := fun _ : string => Downloader.Invalid in
  let pdf_urls := [("A", "http://x/a.pdf"); ("B", "http://x/b.pdf")] in
  let w := {| Downloader.fs := ∅; Downloader.trace := [] |} in
  exists b,
    Downloader.run_batch remote clock json_load pdf_urls w
      = Downloader.Completed b /\
    Forall (fun e => Downloader.is_downloaded (Downloader.trk b) e.2 = true)
      pdf_urls.
Proof.
  intros remote clock json_load pdf_urls w. eexists.
  assert (E : Downloader.run_batch remote clock json_load pdf_urls w
              = Downloader.Completed _) by (vm_compute; reflexivity).
  split; [exact E|].
  apply (exit_zero_all_tracked remote clock json_load pdf_urls w _ E).
  vm_compute. reflexivity.
Defined.

(** A run on a disk without tracking file, with a file that already is in
    the download directory and a URL that is refused: one entry in each of
    the three counts, and four requests. *)
Lemma batch_accounting_witness :
  let remote := fun (_ : nat) (url : string) =>
    if String.eqb url "http://x/c.pdf" then Downloader.Refused
    else Downloader.Body ["%PDF"] true in
  let clock := fun _ : nat => "2026-01-01 00:00:00" in
  let json_load := fun _ : string => Downloader.Undecodable in
  let pdf_urls := [("A", "http://x/a.pdf"); ("B", "http://x/b.pdf");
                   ("C", "http://x/c.pdf")] in
  let w := {| Downloader.fs :=
                {[ "downloaded_pdfs/A.pdf" := Downloader.Bytes "%PDF" ]};
              Downloader.trace := [] |} in
  exists b,
    Downloader.run_batch remote clock json_load pdf_urls w
      = Downloader.Completed b /\
    Downloader.counts b
      = {| Downloader.downloaded := 1; Downloader.skipped := 1;
           Downloader.failed := 1 |} /\
    (2 <= Downloader.requests (Downloader.env b) - Downloader.requests w <= 6).
Proof.
  intros remote clock json_load pdf_urls w. eexists.
  assert (E : Downloader.run_batch remote clock json_load pdf_urls w
              = Downloader.Completed _) by (vm_compute; reflexivity).
  split; [exact E|].
  pose proof (batch_accounting remote clock json_load pdf_urls w _ E) as H.
  split; [vm_compute; reflexivity|].
  exact (proj2 H).
Defined.

Lemma run_batch_saves_ledger_witness :
  let remote := fun (_ : nat) (_ : string) => Downloader.Body ["%PDF"] true in
  let clock := fun _ : nat => "2026-01-01 00:00:00" in
  let json_load := fun _ : string => Downloader.Undecodable in
  let pdf_urls := [("A", "http://x/a.pdf")] in
  let w := {| Downloader.fs := ∅; Downloader.trace := [] |} in
  exists b,
    Downloader.run_batch remote clock json_load pdf_urls w
      = Downloader.Completed b /\
    (Downloader.DownloadTracker json_load Downloader.TRACKING_FILE
       (Downloader.env b)).1 = Downloader.Built (Downloader.trk b) /\
    Downloader.is_downloaded (Downloader.trk b) "http://x/a.pdf" = true.
Proof.
  intros remote clock json_load pdf_urls w. eexists.
  assert (E : Downloader.run_batch remote clock json_load pdf_urls w
              = Downloader.Completed _) by (vm_compute; reflexivity).
  split; [exact E|].
  split; [exact (run_batch_saves_ledger remote clock json_load pdf_urls w _ E)|].
  vm_compute. reflexivity.
Defined.

Lemma ledger_stays_consistent_witness :
  let remote := fun (_ : nat) (_ : string) => Downloader.Body ["%PDF"] true in
  let b := {| Downloader.trk :=
                {| Downloader.tracking_file := Downloader.TRACKING_FILE;
                   Downloader.data := Downloader.fresh |};
              Downloader.env := {| Downloader.fs := ∅; Downloader.trace := [] |};
              Downloader.counts :=
                {| Downloader.downloaded := 0; Downloader.skipped := 0;
                   Downloader.failed := 0 |} |} in
  Invariants.ledger_consistent
    (Downloader.trk
       (Downloader.batch_loop remote (fun _ => "2026-01-01 00:00:00") 1 1
          [("A", "http://x/a.pdf")] b)).
Proof.
  intros remote b.
  apply (ledger_stays_consistent remote (fun _ => "2026-01-01 00:00:00")
           [("A", "http://x/a.pdf")] 1 1 b).
  intros key e H. vm_compute in H. discriminate.
Defined.

Lemma batch_keeps_files_witness :
  let remote := fun (_ : nat) (_ : string) => Downloader.Body ["%P"] false in
  let b := {| Downloader.trk :=
                {| Downloader.tracking_file := Downloader.TRACKING_FILE;
                   Downloader.data := Downloader.fresh |};
              Downloader.env :=
                {| Downloader.fs :=
                     {[ "downloaded_pdfs/Old.pdf" := Downloader.Bytes "old" ]};
                   Downloader.trace := [] |};
              Downloader.counts :=
                {| Downloader.downloaded := 0; Downloader.skipped := 0;
                   Downloader.failed := 0 |} |} in
  Downloader.fs
    (Downloader.env
       (Downloader.batch_loop remote (fun _ => "2026-01-01 00:00:00") 2 1
          [("New", "http://x/new.pdf"); ("Old", "http://x/old.pdf")] b))
    !! "downloaded_pdfs/Old.pdf" = Some (Downloader.Bytes "old").
Proof.
  intros remote b.
  apply (batch_keeps_files remote (fun _ => "2026-01-01 00:00:00")
           [("New", "http://x/new.pdf"); ("Old", "http://x/old.pdf")] 2 1 b).
  - discriminate.
  - vm_compute. reflexivity.
Defined.

Lemma ledger_files_witness :
  let remote := fun (_ : nat) (_ : string) => Downloader.Body ["%PDF"] true in
  let b := {| Downloader.trk :=
                {| Downloader.tracking_file := Downloader.TRACKING_FILE;
                   Downloader.data := Downloader.fresh |};
              Downloader.env := {| Downloader.fs := ∅; Downloader.trace := [] |};
              Downloader.counts :=
                {| Downloader.downloaded := 0; Downloader.skipped := 0;
                   Downloader.failed := 0 |} |} in
  Invariants.files_on_disk
    (Downloader.batch_loop remote (fun _ => "2026-01-01 00:00:00") 1 1
       [("A", "http://x/a.pdf")] b).
Proof.
  intros remote b.
  apply (ledger_files_stay_on_disk remote (fun _ => "2026-01-01 00:00:00")
           [("A", "http://x/a.pdf")] 1 1 b).
  - reflexivity.
  - intros key e H. vm_compute in H. discriminate.
Defined.

(* ===================================================================== *)
(** * More on catalog discovery *)
(* ===================================================================== *)

Section CatalogMore.
Import PyStr Html Catalog Props Paragraphs.

Lemma classify_date acc p :
  f_date (classify acc p) =
    if negb (is_byline (get_text_strip p)) && is_date (get_text_strip p)
    then get_text_strip p else f_date acc.
Proof.
  unfold classify, is_byline, is_date.
  destruct (startswith "By " (get_text_strip p)); [reflexivity|].
  destruct (contains "," (get_text_strip p) && _); [reflexivity|].
  destruct (len (f_description acc) <? len (get_text_strip p)); reflexivity.
Qed.

Lemma fold_classify_date p_tags : forall acc,
  f_date (fold_left classify p_tags acc) =
    default (f_date acc)
      (last (List.filter (fun t => negb (is_byline t) && is_date t)
               (map get_text_strip p_tags))).
Proof.
  induction p_tags as [|p rest IH]; intros acc; simpl; [reflexivity|].
  rewrite IH, classify_date.
  destruct (negb (is_byline (get_text_strip p)) && is_date (get_text_strip p));
    [|reflexivity].
  destruct (List.filter _ (map get_text_strip rest)) as [|q qs]; [reflexivity|].
  rewrite last_cons_cons.
  destruct (last (q :: qs)) eqn:E; [reflexivity|]. by apply last_None in E.
Qed.

(** X20. The date of a parsed element is the text of the last paragraph that
    does not start with [By ] and holds a comma and the name of a month; it is
    empty when there is no such paragraph. *)
Theorem date_from_last (case_elem : node) :
  date (parse_case_element case_elem) = default "" (last (date_texts case_elem)).
Proof.
  unfold parse_case_element, date_texts, paragraph_texts. simpl.
  apply fold_classify_date.
Qed.

(** The longest text so far, the first of the longest on a tie. *)
Definition longest_first (d : string) (texts : list string) : string :=
  fold_left (fun d t => if len d <? len t then t else d) texts d.

Lemma classify_description acc p :
  f_description (classify acc p) =
    let t := get_text_strip p in
    if negb (is_byline t) && negb (is_date t)
    then (if len (f_description acc) <? len t then t else f_description acc)
    else f_description acc.
Proof.
  unfold classify, is_byline, is_date. cbv zeta.
  destruct (startswith "By " (get_text_strip p)); [reflexivity|].
  destruct (contains "," (get_text_strip p) && _); [reflexivity|].
  destruct (len (f_description acc) <? len (get_text_strip p)); reflexivity.
Qed.

Lemma fold_classify_description p_tags : forall acc,
  f_description (fold_left classify p_tags acc) =
    longest_first (f_description acc)
      (List.filter (fun t => negb (is_byline t) && negb (is_date t))
         (map get_text_strip p_tags)).
Proof.
  induction p_tags as [|p rest IH]; intros acc; simpl; [reflexivity|].
  rewrite IH, classify_description. cbv zeta.
  destruct (negb (is_byline (get_text_strip p)) && negb (is_date (get_text_strip p)));
    reflexivity.
Qed.

Lemma longest_first_cons d t rest :
  longest_first d (t :: rest) =
    longest_first (if len d <? len t then t else d) rest.
Proof. reflexivity. Qed.

Lemma longest_first_spec texts : forall d,
  len d <= len (longest_first d texts) /\
  (forall t, In t texts -> len t <= len (longest_first d texts)) /\
  (longest_first d texts = d \/
   exists before after, texts = before ++ longest_first d texts :: after /\
     len d < len (longest_first d texts) /\
     forall t, In t before -> len t < len (longest_first d texts)).
Proof.
  induction texts as [|t rest IH]; intros d.
  - repeat split; auto. intros t [].
  - rewrite longest_first_cons.
    destruct (Nat.ltb_spec (len d) (len t)) as [Hlt|Hge].
    + destruct (IH t) as (H1 & H2 & H3).
      split; [lia|]. split.
      * intros x [<-|Hx]; [exact H1|by apply H2].
      * right. destruct H3 as [E|(before & after & E & Hd & Hb)].
        -- exists [], rest. rewrite E. repeat split; auto. intros x [].
        -- exists (t :: before), after. split; [simpl; by rewrite <- E|].
           split; [lia|]. intros x [<-|Hx]; [exact Hd|by apply Hb].
    + destruct (IH d) as (H1 & H2 & H3).
      split; [exact H1|]. split.
      * intros x [<-|Hx]; [lia|by apply H2].
      * destruct H3 as [E|(before & after & E & Hd & Hb)]; [by left|].
        right. exists (t :: before), after. split; [simpl; by rewrite <- E|].
        split; [exact Hd|]. intros x [<-|Hx]; [lia|by apply Hb].
Qed.

(** X21. The description of a parsed element is at least as long as every
    paragraph that is neither authors nor date, and it is empty or is the
    first of those paragraphs to reach that length: every one before it is
    strictly shorter. *)
Theorem description_is_first_longest (case_elem : node) :
  let d := description (parse_case_element case_elem) in
  (forall t, In t (other_texts case_elem) -> len t <= len d) /\
  (d = "" \/
   exists before after, other_texts case_elem = before ++ d :: after /\
     forall t, In t before -> len t < len d).
Proof.
  cbv zeta.
  assert (E : description (parse_case_element case_elem)
              = longest_first "" (other_texts case_elem)).
  { unfold parse_case_element, other_texts, paragraph_texts. simpl.
    apply fold_classify_description. }
  rewrite E.
  destruct (longest_first_spec (other_texts case_elem) "") as (_ & H2 & H3).
  split; [exact H2|].
  destruct H3 as [E0|(before & after & H & _ & Hb)]; [by left|].
  right. eauto.
Qed.

Lemma parse_case_element_url case_elem :
  url (parse_case_element case_elem) = "" \/
  startswith "http" (url (parse_case_element case_elem)) = true.
Proof.
  set (href := default "" (get_attr "href" case_elem)).
  assert (E : url (parse_case_element case_elem) =
              if truthy href && negb (startswith "http" href)
              then "https://mitsloan.mit.edu" +:+ href else href)
    by reflexivity.
  rewrite E. clear E. destruct href as [|c s]; [by left|].
  destruct (startswith "http" (String c s)) eqn:P; cbn [truthy andb negb];
    right; [exact P|reflexivity].
Qed.

Lemma collect_presentable case_elements : forall all_cases,
  Forall presentable all_cases ->
  Forall presentable (collect all_cases case_elements).
Proof.
  unfold collect.
  induction case_elements as [|e rest IH]; intros all_cases H; simpl;
    [exact H|].
  apply IH. destruct (has_title (parse_case_element e)) eqn:T; [|exact H].
  apply Forall_app. split; [exact H|]. constructor; [|constructor].
  split; [exact T|apply parse_case_element_url].
Qed.

Section Fetch.
Variable http_get : string -> option string.
Variable api_get : string -> string -> Z -> option string.
Variable BeautifulSoup : string -> node.
Variable query_param : string -> string -> option string.

Abbreviation pagination := (pagination api_get BeautifulSoup).
Abbreviation batch_elements := (batch_elements BeautifulSoup).
Abbreviation fetch_all_cases :=
  (fetch_all_cases http_get api_get BeautifulSoup query_param).

(** What the loop returns, however it ends: the records it was given come
    first, and the offsets it sent go up by 10 from the first. *)
Lemma pagination_shape fuel : forall pid base_nid offset all_cases asked r,
  pagination fuel pid base_nid offset all_cases asked = Some r ->
  exists more n,
    cases r = all_cases ++ more /\
    offsets r = asked ++ map (fun k => offset + 10 * Z.of_nat k)%Z (seq 0 (S n)) /\
    (Forall presentable all_cases -> Forall presentable (cases r)).
Proof.
  induction fuel as [|fuel IH]; intros pid base_nid offset all_cases asked r H;
    [discriminate|].
  cbn [Catalog.pagination] in H.
  assert (Hstop : Some {| cases := all_cases; offsets := asked ++ [offset] |} = Some r ->
            exists more n,
              cases r = all_cases ++ more /\
              offsets r = asked ++
                map (fun k => offset + 10 * Z.of_nat k)%Z (seq 0 (S n)) /\
              (Forall presentable all_cases -> Forall presentable (cases r))).
  { intros E. inversion E; subst. exists [], 0. simpl. rewrite app_nil_r.
    repeat split; auto. repeat f_equal. lia. }
  destruct (api_get pid base_nid offset) as [text|]; [|by apply Hstop].
  destruct (blank text); [by apply Hstop|].
  destruct (batch_elements text) as [|e es] eqn:E; [by apply Hstop|].
  apply IH in H as (more & n & Hc & Ho & Hp).
  rewrite collect_app in Hc.
  exists (collect [] (e :: es) ++ more), (S n). split; [|split].
  - rewrite Hc. by rewrite <- app_assoc.
  - rewrite Ho, <- app_assoc. f_equal. apply (offsets_shift offset (S n)).
  - intros Hall. apply Hp. by apply collect_presentable.
Qed.

Lemma fetch_all_cases_inv fuel page_url r :
  fetch_all_cases fuel page_url = Some (Returned r) ->
  exists text, http_get page_url = Some text /\
    ((cases r = initial_cases (BeautifulSoup text) /\ offsets r = []) \/
     exists pid base_nid offset,
       pagination fuel pid base_nid offset
         (initial_cases (BeautifulSoup text)) [] = Some r).
Proof.
  unfold Catalog.fetch_all_cases.
  destruct (http_get page_url) as [text|]; [|discriminate].
  intros H. exists text. split; [reflexivity|].
  assert (Hinit : Some (Returned {| cases := initial_cases (BeautifulSoup text);
                                    offsets := [] |}) = Some (Returned r) ->
                  cases r = initial_cases (BeautifulSoup text) /\ offsets r = []).
  { intros E. inversion E; subst. auto. }
  destruct (find_by_string "a" "Load More" (BeautifulSoup text)) as [lm|];
    [|left; by apply Hinit].
  destruct (negb (truthy (default "" (get_attr "href" lm))));
    [left; by apply Hinit|].
  destruct (int_of_str _) as [offset|]; [|discriminate].
  destruct (query_param _ "pid") as [pid|]; [|left; by apply Hinit].
  destruct (query_param _ "base_nid") as [base_nid|]; [|left; by apply Hinit].
  destruct (truthy pid && truthy base_nid); [|left; by apply Hinit].
  right. exists pid, base_nid, offset.
  destruct (pagination fuel pid base_nid offset _ []) as [r'|]; [|discriminate].
  simpl in H. inversion H; subst. reflexivity.
Qed.

(** X22. Whatever the pages hold, every record [fetch_all_cases] returns has
    a title that is not empty and a URL that is empty or starts with [http]
    (a relative link was made absolute). *)
Theorem fetched_records_presentable (fuel : nat) (page_url : string)
    (r : fetched) :
  fetch_all_cases fuel page_url = Some (Returned r) ->
  Forall presentable (cases r).
Proof.
  intros H. apply fetch_all_cases_inv in H as (text & _ & [[-> _]|H]).
  - apply collect_presentable. constructor.
  - destruct H as (pid & base_nid & offset & H).
    apply pagination_shape in H as (more & n & _ & _ & Hp).
    apply Hp. apply collect_presentable. constructor.
Qed.

(** The same, with the parameters of the load-more link. *)
Lemma fetch_all_cases_params fuel page_url r :
  fetch_all_cases fuel page_url = Some (Returned r) ->
  exists text, http_get page_url = Some text /\
    ((cases r = initial_cases (BeautifulSoup text) /\ offsets r = []) \/
     exists pid base_nid offset,
       load_more_params BeautifulSoup query_param text pid base_nid offset /\
       pagination fuel pid base_nid offset
         (initial_cases (BeautifulSoup text)) [] = Some r).
Proof.
  unfold Catalog.fetch_all_cases, load_more_params.
  destruct (http_get page_url) as [text|]; [|discriminate].
  intros H. exists text. split; [reflexivity|].
  assert (Hinit : Some (Returned {| cases := initial_cases (BeautifulSoup text);
                                    offsets := [] |}) = Some (Returned r) ->
                  cases r = initial_cases (BeautifulSoup text) /\ offsets r = []).
  { intros E. inversion E; subst. auto. }
  destruct (find_by_string "a" "Load More" (BeautifulSoup text)) as [lm|];
    [|left; by apply Hinit].
  destruct (get_attr "href" lm) as [lm_url|] eqn:Hhref;
    [|left; by apply Hinit].
  change (default "" (Some lm_url)) with lm_url in H.
  destruct (truthy lm_url) eqn:Hurl; [|left; by apply Hinit].
  cbn [negb] in H.
  destruct (int_of_str _) as [offset|] eqn:Hoff; [|discriminate].
  destruct (query_param lm_url "pid") as [pid|] eqn:Hpid;
    [|left; by apply Hinit].
  destruct (query_param lm_url "base_nid") as [base_nid|] eqn:Hnid;
    [|left; by apply Hinit].
  destruct (truthy pid) eqn:Hpidt; [|left; by apply Hinit].
  destruct (truthy base_nid) eqn:Hnidt; [|left; by apply Hinit].
  cbn [andb] in H.
  right. exists pid, base_nid, offset. split.
  - exists lm, lm_url. auto 10.
  - destruct (pagination fuel pid base_nid offset _ []) as [r'|]; [|discriminate].
    simpl in H. inversion H; subst. reflexivity.
Qed.

(** X23. The records of the first page are never lost: whenever
    [fetch_all_cases] returns, the titled records of the first page come
    first in the result, however the pagination went.  Either it sent no
    request to the API and there is nothing more, or the page has a load-more
    link with its parameters, and the offsets it sent start at the offset of
    that link and go up by 10 from one request to the next. *)
Theorem first_page_comes_first (fuel : nat) (page_url : string) (r : fetched) :
  fetch_all_cases fuel page_url = Some (Returned r) ->
  exists text more,
    http_get page_url = Some text /\
    cases r = titled_records (first_page_anchors (BeautifulSoup text)) ++ more /\
    ((offsets r = [] /\ more = []) \/
     exists pid base_nid offset n,
       load_more_params BeautifulSoup query_param text pid base_nid offset /\
       offsets r = map (fun k => offset + 10 * Z.of_nat k)%Z (seq 0 (S n))).
Proof.
  intros H. apply fetch_all_cases_params in H as (text & Hget & [[Hc Ho]|H]).
  - exists text, []. rewrite app_nil_r, <- initial_cases_titled. auto.
  - destruct H as (pid & base_nid & offset & Hparams & H).
    apply pagination_shape in H as (more & n & Hc & Ho & _).
    exists text, more. rewrite <- initial_cases_titled.
    repeat split; auto. right. exists pid, base_nid, offset, n. auto.
Qed.

(** The loop against an API that goes on for ever. *)
Lemma pagination_endless fuel : forall pid base_nid offset all_cases asked,
  (forall k, exists body,
     api_get pid base_nid (offset + 10 * Z.of_nat k) = Some body /\
     productive BeautifulSoup body) ->
  pagination fuel pid base_nid offset all_cases asked = None.
Proof.
  induction fuel as [|fuel IH]; intros pid base_nid offset all_cases asked Hall;
    [reflexivity|].
  cbn [Catalog.pagination].
  destruct (Hall 0) as (body & Hget & Hnb & Hel).
  replace (offset + 10 * Z.of_nat 0)%Z with offset in Hget by lia.
  rewrite Hget, Hnb.
  destruct (batch_elements body) as [|e es] eqn:E; [congruence|].
  apply IH. intros k. destruct (Hall (S k)) as (b & Hb & Hp).
  exists b. split; [|exact Hp]. rewrite <- Hb. f_equal. lia.
Qed.

(** X24. The pagination has no bound of its own: when the page carries the
    load-more parameters and the API answers every offset with a body that
    has anchors into the library, the [while True] loop never ends, and
    [fetch_all_cases] returns nothing however many iterations it is given. *)
Theorem pagination_has_no_bound (fuel : nat) (page_url text : string)
    (pid base_nid : string) (offset : Z) :
  http_get page_url = Some text ->
  load_more_params BeautifulSoup query_param text pid base_nid offset ->
  (forall k, exists body,
     api_get pid base_nid (offset + 10 * Z.of_nat k) = Some body /\
     productive BeautifulSoup body) ->
  fetch_all_cases fuel page_url = None.
Proof.
  intros Hpage (lm & lm_url & Hlm & Hhref & Hurl & Hpid & Hpidt & Hnid & Hnidt & Hoff)
    Hall.
  unfold Catalog.fetch_all_cases.
  rewrite Hpage, Hlm, Hhref.
  change (default "" (Some lm_url)) with lm_url.
  rewrite Hurl, Hoff, Hpid, Hnid, Hpidt, Hnidt. cbn [negb andb].
  by rewrite pagination_endless.
Qed.

(** The loop over productive batches closed by a request that raises. *)
Lemma pagination_run_error pid base_nid bodies : forall fuel offset all_cases asked,
  (forall k body, bodies !! k = Some body ->
     api_get pid base_nid (offset + 10 * Z.of_nat k) = Some body /\
     productive BeautifulSoup body) ->
  api_get pid base_nid (offset + 10 * Z.of_nat (length bodies)) = None ->
  length bodies < fuel ->
  pagination fuel pid base_nid offset all_cases asked =
    Some {| cases := all_cases ++
                     flat_map (fun body => collect [] (batch_elements body)) bodies;
            offsets := asked ++
                       map (fun k => offset + 10 * Z.of_nat k)%Z
                         (seq 0 (S (length bodies))) |}.
Proof.
  induction bodies as [|body rest IH];
    intros fuel offset all_cases asked Hb Hlast Hfuel;
    (destruct fuel as [|fuel]; [simpl in Hfuel; lia|]);
    assert (Hz : (offset + 10 * Z.of_nat 0)%Z = offset) by lia.
  - change (length (@nil string)) with 0 in *. rewrite Hz in Hlast.
    cbn [Catalog.pagination]. rewrite Hlast.
    cbn [seq map flat_map]. by rewrite Hz, app_nil_r.
  - destruct (Hb 0 body eq_refl) as (Hget & Hnb & Hel).
    rewrite Hz in Hget.
    cbn [Catalog.pagination]. rewrite Hget, Hnb.
    destruct (batch_elements body) as [|e es] eqn:E; [congruence|].
    rewrite (IH fuel (offset + 10)%Z).
    + f_equal. cbn [flat_map length]. rewrite E, collect_app.
      rewrite <- !app_assoc. f_equal. f_equal. f_equal.
      apply (offsets_shift offset (S (length rest))).
    + intros k b Hk. destruct (Hb (S k) b Hk) as [H1 H2]. split; [|exact H2].
      rewrite <- H1. f_equal. lia.
    + rewrite <- Hlast. f_equal. simpl length. lia.
    + simpl in Hfuel. lia.
Qed.

(** X25. A request to the API that raises ends the pagination without losing
    anything.  With the load-more parameters on the first page, responses
    that each have anchors into the library at the offsets [offset],
    [offset + 10], ..., and then a request that raises, [fetch_all_cases]
    still returns: the titled records of the first page followed by those of
    every response fetched before the failure, in order, and one offset for
    each response and for the request that failed. *)
Theorem pagination_survives_error (fuel : nat) (page_url text : string)
    (pid base_nid : string) (offset : Z) (bodies : list string) :
  http_get page_url = Some text ->
  load_more_params BeautifulSoup query_param text pid base_nid offset ->
  (forall k body, bodies !! k = Some body ->
     api_get pid base_nid (offset + 10 * Z.of_nat k) = Some body /\
     productive BeautifulSoup body) ->
  api_get pid base_nid (offset + 10 * Z.of_nat (length bodies)) = None ->
  length bodies < fuel ->
  fetch_all_cases fuel page_url =
    Some (Returned
      {| cases := titled_records (first_page_anchors (BeautifulSoup text)) ++
                  flat_map
                    (fun body => titled_records (batch_anchors (BeautifulSoup body)))
                    bodies;
         offsets := map (fun k => offset + 10 * Z.of_nat k)%Z
                      (seq 0 (S (length bodies))) |}).
Proof.
  intros Hpage (lm & lm_url & Hlm & Hhref & Hurl & Hpid & Hpidt & Hnid & Hnidt & Hoff)
    Hb Hlast Hfuel.
  unfold Catalog.fetch_all_cases.
  rewrite Hpage, Hlm, Hhref.
  change (default "" (Some lm_url)) with lm_url.
  rewrite Hurl, Hoff, Hpid, Hnid, Hpidt, Hnidt. cbn [negb andb].
  rewrite (pagination_run_error pid base_nid bodies fuel offset _ []); auto.
  cbn [fmap option_fmap option_map app]. do 3 f_equal.
  rewrite initial_cases_titled. f_equal.
  apply flat_map_ext. intros body. apply (batch_records BeautifulSoup).
Qed.

End Fetch.

End CatalogMore.

(** Instances on the mocked listing. *)
Lemma fetched_records_presentable_witness :
  Forall Paragraphs.presentable (Catalog.cases Paragraphs.broken_listing).
Proof.
  apply (fetched_records_presentable Mock.http_get Mock.api_get
           Mock.BeautifulSoup Mock.query_param 2 "https://mitsloan.mit.edu/"
           Paragraphs.broken_listing).
  vm_compute. reflexivity.
Defined.

(** The listing whose API raises at the second request: the record of the
    first page comes first, and the offsets start at the 10 of the load-more
    link. *)
Lemma first_page_comes_first_witness :
  exists text more,
    Mock.http_get "https://mitsloan.mit.edu/" = Some text /\
    [Mock.first_record; Mock.second_record]
      = Props.titled_records (Props.first_page_anchors (Mock.BeautifulSoup text))
        ++ more /\
    (([10; 20]%Z = [] /\ more = []) \/
     exists pid base_nid offset n,
       Props.load_more_params Mock.BeautifulSoup Mock.query_param text
         pid base_nid offset /\
       [10; 20]%Z = map (fun k => offset + 10 * Z.of_nat k)%Z (seq 0 (S n))).
Proof.
  apply (first_page_comes_first Mock.http_get Paragraphs.broken_api
           Mock.BeautifulSoup Mock.query_param 2 "https://mitsloan.mit.edu/"
           {| Catalog.cases := [Mock.first_record; Mock.second_record];
              Catalog.offsets := [10; 20]%Z |}).
  vm_compute. reflexivity.
Defined.

(** An API that answers every request with the batch: no result within five
    iterations. *)
Lemma pagination_has_no_bound_witness :
  Catalog.fetch_all_cases Mock.http_get Mock.endless_api Mock.BeautifulSoup
    Mock.query_param 5 "https://mitsloan.mit.edu/" = None.
Proof.
  apply (pagination_has_no_bound Mock.http_get Mock.endless_api
           Mock.BeautifulSoup Mock.query_param 5 _ "page" "66387" "19867" 10).
  - reflexivity.
  - exists (Html.Tag "a" [("href", Mock.load_more_url)] [Html.Text "Load More"]),
      Mock.load_more_url.
    repeat split; reflexivity.
  - intros k. exists "batch". split; [reflexivity|].
    split; [reflexivity|]. vm_compute. discriminate.
Defined.

(** The listing whose API raises at the second request: the two records, and
    the two offsets. *)
Lemma pagination_survives_error_witness :
  Catalog.fetch_all_cases Mock.http_get Paragraphs.broken_api Mock.BeautifulSoup
    Mock.query_param 2 "https://mitsloan.mit.edu/"
  = Some (Catalog.Returned
      {| Catalog.cases := [Mock.first_record; Mock.second_record];
         Catalog.offsets := [10; 20]%Z |}).
Proof.
  etransitivity.
  - apply (pagination_survives_error Mock.http_get Paragraphs.broken_api
             Mock.BeautifulSoup Mock.query_param 2 _ "page" "66387" "19867" 10
             ["batch"]).
    + reflexivity.
    + exists (Html.Tag "a" [("href", Mock.load_more_url)] [Html.Text "Load More"]),
        Mock.load_more_url.
      repeat split; reflexivity.
    + intros [|k] body H; simpl in H; [|destruct k; discriminate].
      inversion H; subst. split; [reflexivity|].
      split; [reflexivity|]. vm_compute. discriminate.
    + reflexivity.
    + simpl. lia.
  - vm_compute. reflexivity.
Defined.

(* ===================================================================== *)
(** * More on the subgroup links *)
(* ===================================================================== *)

Section SubgroupMore.
Import PyStr Html Subgroups Props Paragraphs.

Variable fetch : string -> option string.
Variable BeautifulSoup : string -> node.
Variable urljoin : string -> string -> string.

Abbreviation visit := (visit urljoin).
Abbreviation get_case_study_links :=
  (get_case_study_links fetch BeautifulSoup urljoin).
Abbreviation link_of := (link_of urljoin).
Abbreviation qualifies := (qualifies urljoin).

Lemma existsb_eqb_true (x : string) l :
  existsb (String.eqb x) l = true <-> In x l.
Proof.
  rewrite existsb_exists. split.
  - intros (y & Hy & E). apply String.eqb_eq in E. by subst.
  - intros H. exists x. split; [exact H|apply String.eqb_refl].
Qed.

(** An iteration leaves the list as it is, or appends the link of an anchor
    that qualifies and whose URL is new. *)
Lemma visit_cases base_url links a :
  visit base_url links a = links \/
  (qualifies base_url a = true /\
   ~ In (l_url (link_of base_url a)) (map l_url links) /\
   visit base_url links a = links ++ [link_of base_url a]).
Proof.
  unfold Subgroups.visit, Paragraphs.qualifies, Paragraphs.link_of, href_of.
  destruct (contains "teaching-resources-library" _ && contains "case" _);
    [|by left].
  destruct (negb (String.eqb _ base_url)) eqn:Hne; [|by left].
  destruct (existsb _ _) eqn:Hex; [by left|].
  destruct (truthy (get_text_strip a)) eqn:Ht; [|by left].
  right. repeat split. simpl. by apply existsb_eqb_false.
Qed.

(** Once listed a URL stays listed, and an anchor that qualifies has its
    URL listed after its iteration. *)
Lemma visit_keeps base_url links a u :
  In u (map l_url links) -> In u (map l_url (visit base_url links a)).
Proof.
  intros H. destruct (visit_cases base_url links a) as [->|(_ & _ & ->)];
    [exact H|].
  rewrite map_app. apply in_or_app. by left.
Qed.

Lemma visit_lists base_url links a :
  qualifies base_url a = true ->
  In (l_url (link_of base_url a)) (map l_url (visit base_url links a)).
Proof.
  intros Hq. unfold Subgroups.visit.
  unfold Paragraphs.qualifies, href_of in Hq.
  apply andb_prop in Hq as [Hq Ht]. apply andb_prop in Hq as [Hq Hne].
  rewrite Hq, Hne, Ht. cbn [andb].
  destruct (existsb _ _) eqn:Hex; cbn [negb].
  - by apply existsb_eqb_true in Hex.
  - rewrite map_app. apply in_or_app. right. by left.
Qed.

Lemma fold_visit_keeps base_url anchors : forall links u,
  In u (map l_url links) ->
  In u (map l_url (fold_left (visit base_url) anchors links)).
Proof.
  induction anchors as [|a rest IH]; intros links u H; simpl; [exact H|].
  apply IH. by apply visit_keeps.
Qed.

Lemma fold_visit_lists base_url anchors a : forall links,
  In a anchors -> qualifies base_url a = true ->
  In (l_url (link_of base_url a))
    (map l_url (fold_left (visit base_url) anchors links)).
Proof.
  induction anchors as [|x rest IH]; intros links Hin Hq; [destruct Hin|].
  simpl. destruct Hin as [->|Hin].
  - apply fold_visit_keeps. by apply visit_lists.
  - by apply IH.
Qed.

Lemma fold_visit_sound base_url all anchors : forall links,
  (forall x, In x anchors -> In x all) ->
  Forall (fun l => exists a, In a all /\ qualifies base_url a = true /\
                             l = link_of base_url a) links ->
  Forall (fun l => exists a, In a all /\ qualifies base_url a = true /\
                             l = link_of base_url a)
    (fold_left (visit base_url) anchors links).
Proof.
  induction anchors as [|a rest IH]; intros links Hsub H; simpl; [exact H|].
  apply IH; [intros x Hx; apply Hsub; by right|].
  destruct (visit_cases base_url links a) as [->|(Hq & _ & ->)]; [exact H|].
  apply Forall_app. split; [exact H|]. constructor; [|constructor].
  exists a. split; [apply Hsub; by left|]. auto.
Qed.

(** X26. Every link [get_case_study_links] returns was made from an anchor of
    the page that has an [href] holding [teaching-resources-library] and, in
    any case, [case], whose text is not empty once stripped and whose
    resolved URL is not the base URL: its title is that text and its URL the
    resolved [href]. *)
Theorem links_come_from_anchors (base_url : string) (l : link) :
  In l (get_case_study_links base_url) ->
  exists content a,
    fetch base_url = Some content /\
    In a (find_all "a" has_href (BeautifulSoup content)) /\
    qualifies base_url a = true /\
    l = link_of base_url a.
Proof.
  unfold Subgroups.get_case_study_links.
  destruct (fetch base_url) as [content|]; [|intros []].
  intros Hin. exists content.
  pose proof (fold_visit_sound base_url
                (find_all "a" has_href (BeautifulSoup content))
                (find_all "a" has_href (BeautifulSoup content)) []
                (fun x H => H) (List.Forall_nil _)) as H.
  rewrite List.Forall_forall in H. destruct (H l Hin) as (a & Ha & Hq & ->).
  exists a. auto.
Qed.

(** X27. No anchor that qualifies is left out: when the page is fetched, the
    resolved URL of every anchor that passes the tests is among the URLs
    returned (once, by the invariant of the list). *)
Theorem qualifying_anchors_are_listed (base_url content : string) (a : node) :
  fetch base_url = Some content ->
  In a (find_all "a" has_href (BeautifulSoup content)) ->
  qualifies base_url a = true ->
  In (urljoin base_url (href_of a)) (map l_url (get_case_study_links base_url)).
Proof.
  intros Hf Hin Hq. unfold Subgroups.get_case_study_links. rewrite Hf.
  by apply (fold_visit_lists base_url _ a []).
Qed.

End SubgroupMore.

Lemma links_come_from_anchors_witness :
  exists content a,
    (fun _ : string => Some "page") "/teaching-resources-library/case-studies"
      = Some content /\
    In a (Html.find_all "a" Subgroups.has_href Mock.listing) /\
    Paragraphs.qualifies (fun _ href => href)
      "/teaching-resources-library/case-studies" a = true /\
    {| Subgroups.l_title := "Operations";
       Subgroups.l_url := "/teaching-resources-library/case-studies/ops" |}
      = Paragraphs.link_of (fun _ href => href)
          "/teaching-resources-library/case-studies" a.
Proof.
  apply (links_come_from_anchors (fun _ => Some "page") (fun _ => Mock.listing)
           (fun _ href => href) "/teaching-resources-library/case-studies").
  vm_compute. by left.
Defined.

Lemma qualifying_anchors_witness :
  In "/teaching-resources-library/case-studies/ops"
    (map Subgroups.l_url
       (Subgroups.get_case_study_links (fun _ => Some "page")
          (fun _ => Mock.listing) (fun _ href => href)
          "/teaching-resources-library/case-studies")).
Proof.
  apply (qualifying_anchors_are_listed (fun _ => Some "page")
           (fun _ => Mock.listing) (fun _ href => href)
           "/teaching-resources-library/case-studies" "page"
           (Html.Tag "a" [("href", "/teaching-resources-library/case-studies/ops")]
              [Html.Text "Operations again"])).
  - reflexivity.
  - vm_compute. right. by left.
  - vm_compute. reflexivity.
Defined.
